(** * FirebaseFlex adapter (addon/adapters/firebase-flex.js)

    A shallow embedding of the record/query synchronisation adapter and the
    properties its specification states about it.

    Modelling conventions.
    - JavaScript objects used as dictionaries (the tracking registries, query
      descriptors, fanout maps, decoded snapshot values) are finite maps over
      their own properties; members inherited from [Object.prototype] are not
      part of the model.
    - The adapter instance, the promises it created, the listeners attached
      to the remote tree and the objects shared with its callers form one
      explicit [State]; every method is a computation in the state-and-
      exception monad [M].
    - A closure handed to the remote tree is a constructor of [Callback]
      carrying what the closure captured; [run_callback] is its body.
    - Collaborators outside the repository (inflector, string utilities,
      the Firebase service, the serializer) are the methods of the class
      [Collaborators]; the one store the adapter serves is part of the
      state, so the [store] and [type] arguments of the methods appear as
      the model name only.
    - The adapter never looks inside a property value: values are the
      primitive values of JavaScript. *)

From Stdlib Require Import Ascii.
From stdpp Require Import gmap strings list fin_maps pretty.

Open Scope string_scope.
Open Scope list_scope.

(** ** JavaScript values and strings *)

Inductive JsValue :=
| JUndefined
| JNull
| JBool (b : bool)
| JNum (n : Z)
| JStr (s : string).

#[global] Instance JsValue_eq_dec : EqDecision JsValue.
Proof. solve_decision. Defined.

(** Objects the adapter treats as dictionaries of own properties. *)
Abbreviation JsObject := (gmap string JsValue).

(** [ToString], as applied by a template literal. A [JNum] stands for an
    integer that JavaScript prints in plain decimal, one below [10^21] in
    absolute value. *)
Definition js_to_string (v : JsValue) : string :=
  match v with
  | JUndefined => "undefined"
  | JNull => "null"
  | JBool true => "true"
  | JBool false => "false"
  | JNum n => pretty n
  | JStr s => s
  end.

(** [ToBoolean], as applied by [if], [&&] and [!]. *)
Definition truthy (v : JsValue) : bool :=
  match v with
  | JUndefined | JNull => false
  | JBool b => b
  | JNum n => negb (n =? 0)%Z
  | JStr s => negb (String.eqb s "")
  end.

(** [v === 'lit'] for a string literal. *)
Definition strict_eq_str (v : JsValue) (lit : string) : bool :=
  match v with
  | JStr s => String.eqb s lit
  | _ => false
  end.

(** [s.substring(n)] for [0 <= n]. *)
Fixpoint substring (n : nat) (s : string) : string :=
  match n, s with
  | O, _ => s
  | S n', String _ s' => substring n' s'
  | S _, EmptyString => EmptyString
  end.

(** [s.split(sep)] for a one-character separator. *)
Fixpoint split (sep : Ascii.ascii) (s : string) : list string :=
  match s with
  | EmptyString => [EmptyString]
  | String c s' =>
      if Ascii.eqb c sep then EmptyString :: split sep s'
      else match split sep s' with
           | seg :: rest => String c seg :: rest
           | [] => [String c EmptyString]
           end
  end.

(** [a.join(sep)]. *)
Fixpoint join (sep : string) (a : list string) : string :=
  match a with
  | [] => ""
  | [x] => x
  | x :: rest => x +:+ sep +:+ join sep rest
  end.

(** [a.shift()] and [a.pop()], keeping the array that is left. *)
Definition shift (a : list string) : list string := tail a.
Definition pop (a : list string) : list string := removelast a.

(** [assign(target, source)]: own properties of [source] win. *)
Definition assign (target source : JsObject) : JsObject := source ∪ target.

(** ** The remote tree (Firebase) *)

Inductive QueryOp :=
| OrderByKey
| OrderByValue
| OrderByChild (child : JsValue)
| StartAt (v : JsValue)
| EndAt (v : JsValue)
| EqualTo (v : JsValue)
| LimitToFirst (v : JsValue)
| LimitToLast (v : JsValue).

#[global] Instance QueryOp_eq_dec : EqDecision QueryOp.
Proof. solve_decision. Defined.

(** A reference or query: what [toString()] and [root.toString()] return,
    and the ordering, range and limit operators applied so far. *)
Record Reference := {
  ref_toString : string;
  ref_root_toString : string;
  ref_query : list QueryOp
}.

#[global] Instance Reference_eq_dec : EqDecision Reference.
Proof. solve_decision. Defined.

Definition apply_op (op : QueryOp) (ref : Reference) : Reference :=
  {| ref_toString := ref_toString ref;
     ref_root_toString := ref_root_toString ref;
     ref_query := ref_query ref ++ [op] |}.

(** [ref[type](v)] for the five names iterated over by
    [_setupQuerySortingAndFiltering]. *)
Definition call_query_method (type : string) (v : JsValue) (ref : Reference) : Reference :=
  if String.eqb type "startAt" then apply_op (StartAt v) ref
  else if String.eqb type "endAt" then apply_op (EndAt v) ref
  else if String.eqb type "equalTo" then apply_op (EqualTo v) ref
  else if String.eqb type "limitToFirst" then apply_op (LimitToFirst v) ref
  else if String.eqb type "limitToLast" then apply_op (LimitToLast v) ref
  else ref.

Inductive EventType := Value | ChildAdded | ChildRemoved.

#[global] Instance EventType_eq_dec : EqDecision EventType.
Proof. solve_decision. Defined.

(** What [snapshot.val()] decodes to. *)
Inductive NodeValue :=
| NodeAbsent
| NodeLeaf (v : JsValue)
| NodeObject (o : JsObject).

Record DataSnapshot := {
  snap_ref : Reference;
  snap_key : string;
  snap_val : NodeValue;
  (** the keys visited by [snapshot.forEach] *)
  snap_children : list string
}.

Definition snap_exists (snapshot : DataSnapshot) : bool :=
  match snap_val snapshot with
  | NodeAbsent => false
  | _ => true
  end.

(** ** Arguments coming from the store *)

(** [snapshot.adapterOptions]: a field is [Some] when the object has that
    own property. *)
Record AdapterOptions := {
  ao_include : option JsObject;
  ao_path : option JsValue
}.

#[global] Instance AdapterOptions_eq_dec : EqDecision AdapterOptions.
Proof. solve_decision. Defined.

(** A [DS.Snapshot]; [rs_adapterOptions] is [None] when the property is
    undefined. *)
Record RecordSnapshot := {
  rs_id : string;
  rs_adapterOptions : option AdapterOptions
}.

Class Collaborators := {
  camelize : string → string;
  pluralize : string → string;
  (** [this.get('firebase').child(path)] *)
  firebase_child : string → Reference;
  (** [this.serialize(snapshot, { innerReferencePathName })] *)
  serialize : RecordSnapshot → string → JsObject
}.

(** ** Promises, callbacks and the state *)

Inductive Payload :=
| NoValue
| RecordPayload (o : JsObject)
| RecordsPayload (os : list JsObject).

(** [new Error(message)]. *)
Record Error := { message : string }.

Inductive PromiseState :=
| Pending
| Fulfilled (v : Payload)
| Rejected (e : Error).

Definition settled (st : PromiseState) : bool :=
  match st with
  | Pending => false
  | _ => true
  end.

(** Closures registered with [ref.on]. The first argument is the identity of
    the closure: the promise of the invocation that created it, or a fresh
    closure number; the others are the variables it captured. *)
Inductive Callback :=
| OnValue_findRecord (p : nat) (modelName id : string) (ref : Reference)
| OnValue_recordChanges (c : nat) (modelName id : string)
| OnValue_query (p : nat) (modelName : string) (recordPath : JsValue)
    (query recordArray : nat) (ref : Reference)
| OnChildAdded_query (c : nat) (modelName : string) (recordPath : JsValue)
    (recordArray : nat)
| OnChildRemoved_query (c : nat) (recordArray : nat).

#[global] Instance Callback_eq_dec : EqDecision Callback.
Proof. solve_decision. Defined.

(** Completion callbacks handed to [firebase.update]. *)
Inductive UpdateCallback :=
| Done_updateRecord (p : nat) (modelName : string) (snapshot : RecordSnapshot)
| Done_deleteRecord (p : nat).

Record Listener := {
  l_ref : Reference;
  l_event : EventType;
  l_callback : Callback
}.

#[global] Instance Listener_eq_dec : EqDecision Listener.
Proof. solve_decision. Defined.

(** The object stored under a record array's [firebase] property by
    [_setupRecordExtensions]: what its closures captured. Its [off] is
    [extensions_off] below; its [next] is not part of the model. *)
Record RecordExtensions := {
  ext_ref : Reference;
  ext_onChildAdded : Callback;
  ext_onChildRemoved : Callback
}.

(** A [DS.AdapterPopulatedRecordArray], as far as the adapter touches it:
    its [firebase] property and the ids of the records in its [content]. *)
Record RecordArray := {
  ra_firebase : option RecordExtensions;
  ra_content : list string
}.

(** [RSVP.all(promises).then(...).catch(...)] waiting for its promises: the
    variables captured by the two handlers in [query]. *)
Record Join := {
  join_promises : list nat;
  join_p : nat;
  join_modelName : string;
  join_recordPath : JsValue;
  join_query : nat;
  join_recordArray : nat;
  join_ref : Reference
}.

(** Calls that cross the boundary between the adapter and its collaborators,
    in the order they happen. *)
Inductive Event :=
| FbOn (ref : Reference) (type : EventType) (cb : Callback)
| FbOff (ref : Reference) (type : EventType) (cb : option Callback)
| FbUpdate (fanout : JsObject) (done : UpdateCallback)
| Invoked (cb : Callback)
| Resolve (p : nat) (v : Payload)
| Reject (p : nat) (e : Error)
| StoreNormalizeThenPush (modelName : string) (payload : JsObject)
| StoreUnloadRecord (modelName id : string)
| StoreFindRecord (modelName key : string) (recordPath : JsValue)
    (recordArray : nat).

Record State := {
  (** adapter properties *)
  fastboot : option bool;
  innerReferencePathName : string;
  trackedRecords : gmap string (gmap string string);
  trackedListeners : gmap string (gmap string bool);
  trackedQueries : gmap string nat;
  (** promises returned so far, and the [RSVP.all] joins waiting on them *)
  promises : list PromiseState;
  joins : list Join;
  (** listeners attached to the remote tree *)
  listeners : list Listener;
  (** objects shared with the callers: query descriptors and record arrays *)
  objects : gmap nat JsObject;
  recordArrays : gmap nat RecordArray;
  (** records loaded in the store, with their [isSaving] flag *)
  loaded : gmap (string * string) bool;
  next_closure : nat;
  trace : list Event
}.

Definition set_trackedRecords (f : gmap string (gmap string string) → gmap string (gmap string string)) (s : State) : State :=
  {| fastboot := fastboot s; innerReferencePathName := innerReferencePathName s;
     trackedRecords := f (trackedRecords s); trackedListeners := trackedListeners s;
     trackedQueries := trackedQueries s; promises := promises s; joins := joins s;
     listeners := listeners s; objects := objects s; recordArrays := recordArrays s;
     loaded := loaded s; next_closure := next_closure s; trace := trace s |}.

Definition set_trackedListeners (f : gmap string (gmap string bool) → gmap string (gmap string bool)) (s : State) : State :=
  {| fastboot := fastboot s; innerReferencePathName := innerReferencePathName s;
     trackedRecords := trackedRecords s; trackedListeners := f (trackedListeners s);
     trackedQueries := trackedQueries s; promises := promises s; joins := joins s;
     listeners := listeners s; objects := objects s; recordArrays := recordArrays s;
     loaded := loaded s; next_closure := next_closure s; trace := trace s |}.

Definition set_trackedQueries (f : gmap string nat → gmap string nat) (s : State) : State :=
  {| fastboot := fastboot s; innerReferencePathName := innerReferencePathName s;
     trackedRecords := trackedRecords s; trackedListeners := trackedListeners s;
     trackedQueries := f (trackedQueries s); promises := promises s; joins := joins s;
     listeners := listeners s; objects := objects s; recordArrays := recordArrays s;
     loaded := loaded s; next_closure := next_closure s; trace := trace s |}.

Definition set_promises (f : list PromiseState → list PromiseState) (s : State) : State :=
  {| fastboot := fastboot s; innerReferencePathName := innerReferencePathName s;
     trackedRecords := trackedRecords s; trackedListeners := trackedListeners s;
     trackedQueries := trackedQueries s; promises := f (promises s); joins := joins s;
     listeners := listeners s; objects := objects s; recordArrays := recordArrays s;
     loaded := loaded s; next_closure := next_closure s; trace := trace s |}.

Definition set_joins (f : list Join → list Join) (s : State) : State :=
  {| fastboot := fastboot s; innerReferencePathName := innerReferencePathName s;
     trackedRecords := trackedRecords s; trackedListeners := trackedListeners s;
     trackedQueries := trackedQueries s; promises := promises s; joins := f (joins s);
     listeners := listeners s; objects := objects s; recordArrays := recordArrays s;
     loaded := loaded s; next_closure := next_closure s; trace := trace s |}.

Definition set_listeners (f : list Listener → list Listener) (s : State) : State :=
  {| fastboot := fastboot s; innerReferencePathName := innerReferencePathName s;
     trackedRecords := trackedRecords s; trackedListeners := trackedListeners s;
     trackedQueries := trackedQueries s; promises := promises s; joins := joins s;
     listeners := f (listeners s); objects := objects s; recordArrays := recordArrays s;
     loaded := loaded s; next_closure := next_closure s; trace := trace s |}.

Definition set_objects (f : gmap nat JsObject → gmap nat JsObject) (s : State) : State :=
  {| fastboot := fastboot s; innerReferencePathName := innerReferencePathName s;
     trackedRecords := trackedRecords s; trackedListeners := trackedListeners s;
     trackedQueries := trackedQueries s; promises := promises s; joins := joins s;
     listeners := listeners s; objects := f (objects s); recordArrays := recordArrays s;
     loaded := loaded s; next_closure := next_closure s; trace := trace s |}.

Definition set_recordArrays (f : gmap nat RecordArray → gmap nat RecordArray) (s : State) : State :=
  {| fastboot := fastboot s; innerReferencePathName := innerReferencePathName s;
     trackedRecords := trackedRecords s; trackedListeners := trackedListeners s;
     trackedQueries := trackedQueries s; promises := promises s; joins := joins s;
     listeners := listeners s; objects := objects s; recordArrays := f (recordArrays s);
     loaded := loaded s; next_closure := next_closure s; trace := trace s |}.

Definition set_loaded (f : gmap (string * string) bool → gmap (string * string) bool) (s : State) : State :=
  {| fastboot := fastboot s; innerReferencePathName := innerReferencePathName s;
     trackedRecords := trackedRecords s; trackedListeners := trackedListeners s;
     trackedQueries := trackedQueries s; promises := promises s; joins := joins s;
     listeners := listeners s; objects := objects s; recordArrays := recordArrays s;
     loaded := f (loaded s); next_closure := next_closure s; trace := trace s |}.

Definition set_next_closure (f : nat → nat) (s : State) : State :=
  {| fastboot := fastboot s; innerReferencePathName := innerReferencePathName s;
     trackedRecords := trackedRecords s; trackedListeners := trackedListeners s;
     trackedQueries := trackedQueries s; promises := promises s; joins := joins s;
     listeners := listeners s; objects := objects s; recordArrays := recordArrays s;
     loaded := loaded s; next_closure := f (next_closure s); trace := trace s |}.

Definition set_trace (f : list Event → list Event) (s : State) : State :=
  {| fastboot := fastboot s; innerReferencePathName := innerReferencePathName s;
     trackedRecords := trackedRecords s; trackedListeners := trackedListeners s;
     trackedQueries := trackedQueries s; promises := promises s; joins := joins s;
     listeners := listeners s; objects := objects s; recordArrays := recordArrays s;
     loaded := loaded s; next_closure := next_closure s; trace := f (trace s) |}.

(** ** The state-and-exception monad *)

Inductive Result (A : Type) :=
| Ok (a : A)
| Throw (e : string).
Arguments Ok {A} a.
Arguments Throw {A} e.

Definition M (A : Type) : Type := State → Result A * State.

#[global] Instance M_ret : MRet M := λ A a s, (Ok a, s).

#[global] Instance M_bind : MBind M := λ A B f m s,
  match m s with
  | (Ok a, s') => f a s'
  | (Throw e, s') => (Throw e, s')
  end.

Definition get : M State := λ s, (Ok s, s).
Definition modify (f : State → State) : M unit := λ s, (Ok tt, f s).
Definition throw {A} (e : string) : M A := λ s, (Throw e, s).

(** The state a computation leaves behind, and what it returns. *)
Definition exec {A} (m : M A) (s : State) : State := (m s).2.
Definition eval {A} (m : M A) (s : State) : Result A := (m s).1.

(** A callback run by Firebase or RSVP: what it throws does not reach the
    adapter. *)
Definition guarded (m : M unit) : M unit := λ s, (Ok tt, (m s).2).

Definition emit (e : Event) : M unit := modify (set_trace (λ t, t ++ [e])).

Fixpoint for_each {A} (l : list A) (f : A → M unit) : M unit :=
  match l with
  | [] => mret tt
  | x :: l' => f x ;; for_each l' f
  end.

Fixpoint map_m {A B} (f : A → M B) (l : list A) : M (list B) :=
  match l with
  | [] => mret []
  | x :: l' => y ← f x; ys ← map_m f l'; mret (y :: ys)
  end.

(** *** Promise primitives ([RSVP.Promise]) *)

Definition new_promise : M nat := λ s,
  (Ok (length (promises s)), set_promises (λ ps, ps ++ [Pending]) s).

(** Only a pending promise changes state. *)
Definition settle (p : nat) (st : PromiseState) : M unit :=
  modify (set_promises (λ ps,
    match ps !! p with
    | Some Pending => <[p := st]> ps
    | _ => ps
    end)).

Definition resolve (p : nat) (v : Payload) : M unit :=
  emit (Resolve p v) ;; settle p (Fulfilled v).

Definition reject (p : nat) (e : Error) : M unit :=
  emit (Reject p e) ;; settle p (Rejected e).

(** *** Firebase primitives *)

(** [ref.on(type, cb, cancelCb)]; the cancel callback of each closure is
    [run_cancel_callback] below. *)
Definition ref_on (ref : Reference) (type : EventType) (cb : Callback) : M unit :=
  emit (FbOn ref type cb) ;;
  modify (set_listeners (λ ls, ls ++ [{| l_ref := ref; l_event := type; l_callback := cb |}])).

Definition listener_matches (ref : Reference) (type : EventType) (cb : option Callback)
    (l : Listener) : bool :=
  bool_decide (l_ref l = ref) && bool_decide (l_event l = type) &&
  match cb with
  | Some cb => bool_decide (l_callback l = cb)
  | None => true
  end.

(** [ref.off(type, cb)] and [ref.off(type)]. *)
Definition ref_off (ref : Reference) (type : EventType) (cb : option Callback) : M unit :=
  emit (FbOff ref type cb) ;;
  modify (set_listeners (List.filter (λ l, negb (listener_matches ref type cb l)))).

(** [firebase.update(fanout, done)]: the write is handed to the remote
    store, which later runs [done]. *)
Definition firebase_update (fanout : JsObject) (done : UpdateCallback) : M unit :=
  emit (FbUpdate fanout done).

Definition new_closure : M nat := λ s,
  (Ok (next_closure s), set_next_closure S s).

(** *** Shared objects *)

(** [o.hasOwnProperty(k)], [o[k]] and [o[k] = v] on the object a caller
    holds at [o]; a reference always leads to an object, and the model
    throws where it would not. *)
Definition hasOwnProperty (o : nat) (k : string) : M bool :=
  s ← get;
  match objects s !! o with
  | Some props => mret (bool_decide (is_Some (props !! k)))
  | None => throw "TypeError"
  end.

Definition get_property (o : nat) (k : string) : M JsValue :=
  s ← get;
  match objects s !! o with
  | Some props => mret (default JUndefined (props !! k))
  | None => throw "TypeError"
  end.

Definition set_property (o : nat) (k : string) (v : JsValue) : M unit :=
  s ← get;
  match objects s !! o with
  | Some props => modify (set_objects <[o := <[k := v]> props]>)
  | None => throw "TypeError"
  end.

(** [try { m } catch (e) { handler(e) }]. *)
Definition try_catch (m : M unit) (handler : string → M unit) : M unit := λ s,
  match m s with
  | (Throw e, s') => handler e s'
  | r => r
  end.

(** [new RSVP.Promise((resolve, reject) => body)]: the executor runs at
    once, and what it throws rejects the promise. *)
Definition new_Promise (executor : nat → M unit) : M nat :=
  p ← new_promise;
  try_catch (executor p) (λ e, settle p (Rejected {| message := e |})) ;;
  mret p.

(** ** The adapter *)

Section Adapter.
Context {env : Collaborators}.

(** [parseModelName] (l. 354) and [_getParsedModelName] (l. 741). *)
Definition parseModelName (modelName : string) : string :=
  camelize (pluralize modelName).

Definition _getParsedModelName (modelName : string) : string :=
  camelize (pluralize modelName).

(** [buildPath] (l. 333). *)
Definition buildPath (modelName id : string) (adapterOptions : option AdapterOptions) : string :=
  match adapterOptions with
  | Some ao =>
      let path := default JUndefined (ao_path ao) in
      if truthy path then js_to_string path +:+ "/" +:+ id
      else parseModelName modelName +:+ "/" +:+ id
  | None => parseModelName modelName +:+ "/" +:+ id
  end.

(** [buildFirebaseReference] (l. 365). *)
Definition buildFirebaseReference (path : string) : Reference :=
  firebase_child path.

(** [_getFirebaseReference] (l. 725); [id] is [''] when not given. *)
Definition _getFirebaseReference (modelName id : string) (path : JsValue) : Reference :=
  if truthy path then firebase_child (js_to_string path +:+ "/" +:+ id)
  else firebase_child (_getParsedModelName modelName +:+ "/" +:+ id).

(** [isInFastBoot] (l. 407): [fastboot && fastboot.get('isFastBoot')]. *)
Definition isInFastBoot : M bool :=
  s ← get;
  mret (match fastboot s with
        | Some isFastBoot => isFastBoot
        | None => false
        end).

(** ** Plain objects indexed by names from outside

    [trackedRecords], the objects stored in it and [trackedQueries] are
    plain objects that the adapter indexes with model names, record ids and
    cache identifiers, so a key can be the name of a member of
    [Object.prototype]. Such an object is kept as the map of its own
    properties. Assignment never makes [__proto__] an own property: the
    entry of [trackedRecords] under that key holds the prototype that an
    assignment [trackedRecords.__proto__ = {}] put in the place of
    [Object.prototype]. *)

(** The members of [Object.prototype]; read through a plain object each of
    them is a function, or the prototype itself for [__proto__]. *)
Definition object_prototype_members : list string :=
  ["constructor"; "hasOwnProperty"; "isPrototypeOf"; "propertyIsEnumerable";
   "toLocaleString"; "toString"; "valueOf"; "__defineGetter__"; "__defineSetter__";
   "__lookupGetter__"; "__lookupSetter__"; "__proto__"].

(** [Object.prototype.hasOwnProperty] applied to [o] and [k]. *)
Definition has_own {V} (o : gmap string V) (k : string) : bool :=
  negb (String.eqb k "__proto__") && bool_decide (is_Some (o !! k)).

(** [o[k] = v] for a string [v]: a string assigned to [__proto__] is
    dropped, any other key becomes an own property. *)
Definition assign_string (k v : string) (o : gmap string string) : gmap string string :=
  if String.eqb k "__proto__" then o else <[k := v]> o.

(** [isTrackingRecordChanges] (l. 421). The method [hasOwnProperty] is
    looked up in the object it is called on: an own property of that name
    (a record of a model of that name, or the path of a record of that id),
    or one of a replaced prototype, comes first and is no function, so the
    call throws. *)
Definition isTrackingRecordChanges (modelName id : string) : M bool :=
  s ← get;
  let trackedRecords := trackedRecords s in
  if has_own trackedRecords "hasOwnProperty"
     || match trackedRecords !! "__proto__" with
        | Some prototype => has_own prototype "hasOwnProperty"
        | None => false
        end
  then throw "TypeError"
  else if has_own trackedRecords modelName then
    match trackedRecords !! modelName with
    | Some ids =>
        if has_own ids "hasOwnProperty" then throw "TypeError"
        else mret (has_own ids id)
    | None => mret false
    end
  else mret false.

(** [parseFirebaseReferencePath] (l. 455). *)
Definition parseFirebaseReferencePath (ref : Reference) : string :=
  substring (String.length (ref_root_toString ref)) (ref_toString ref).

(** [trackRecord] (l. 441): the two assignments, in order. For the model
    name [__proto__] the first one replaces the prototype and the second
    one writes into it. *)
Definition trackRecord (modelName id : string) (ref : Reference) : M unit :=
  modify (set_trackedRecords <[modelName := ∅]>) ;;
  modify (set_trackedRecords
            (alter (assign_string id (parseFirebaseReferencePath ref)) modelName)).

(** [mergeSnapshotIdAndValue] (l. 466). Assigning a property to [null] or,
    in a module (strict code), to a primitive throws a [TypeError]. *)
Definition mergeSnapshotIdAndValue (snapshot : DataSnapshot) : M JsObject :=
  let ref := snap_ref snapshot in
  let referencePath := substring (String.length (ref_root_toString ref)) (ref_toString ref) in
  let pathNodes := split "/"%char referencePath in
  let pathNodes := shift pathNodes in
  let pathNodes := pop pathNodes in
  match snap_val snapshot with
  | NodeObject newSnapshot =>
      let newSnapshot := <["id" := JStr (snap_key snapshot)]> newSnapshot in
      s ← get;
      mret (<[innerReferencePathName s := JStr (join "/" pathNodes)]> newSnapshot)
  | _ => throw "TypeError"
  end.

(** [unloadRecord] (l. 490). *)
Definition unloadRecord (modelName id : string) : M unit :=
  s ← get;
  match loaded s !! (modelName, id) with
  | Some isSaving =>
      if negb isSaving then
        emit (StoreUnloadRecord modelName id) ;;
        modify (set_loaded (delete (modelName, id)))
      else mret tt
  | None => mret tt
  end.

(** [listenForRecordChanges] (l. 378). *)
Definition listenForRecordChanges (modelName id : string) (ref : Reference) : M unit :=
  inFastBoot ← isInFastBoot;
  if negb inFastBoot then
    tracking ← isTrackingRecordChanges modelName id;
    if negb tracking then
      trackRecord modelName id ref ;;
      c ← new_closure;
      ref_on ref Value (OnValue_recordChanges c modelName id)
    else mret tt
  else mret tt.

(** [updateRecord] (l. 104) and [createRecord] (l. 92). *)
Definition updateRecord (modelName : string) (snapshot : RecordSnapshot) : M nat :=
  new_Promise (λ p,
    s ← get;
    let serializedSnapshot := serialize snapshot (innerReferencePathName s) in
    firebase_update serializedSnapshot (Done_updateRecord p modelName snapshot)).

Definition createRecord (modelName : string) (snapshot : RecordSnapshot) : M nat :=
  updateRecord modelName snapshot.

(** [findRecord] (l. 135). *)
Definition findRecord (modelName id : string) (adapterOptions : option AdapterOptions) : M nat :=
  new_Promise (λ p,
    let path := buildPath modelName id adapterOptions in
    let ref := buildFirebaseReference path in
    let onValue := OnValue_findRecord p modelName id ref in
    ref_on ref Value onValue).

(** [deleteRecord] (l. 200). *)
Definition deleteRecord (type_modelName : string) (snapshot : RecordSnapshot) : M nat :=
  new_Promise (λ p,
    let modelName := _getParsedModelName type_modelName in
    let id := rs_id snapshot in
    let adapterOptions := rs_adapterOptions snapshot in
    let fanout : JsObject := ∅ in
    let fanout :=
      match adapterOptions with
      | Some adapterOptions =>
          let fanout :=
            match ao_include adapterOptions with
            | Some include => assign fanout include
            | None => fanout
            end in
          match ao_path adapterOptions with
          | Some path => <[js_to_string path +:+ "/" +:+ id := JNull]> fanout
          | None => <[modelName +:+ "/" +:+ id := JNull]> fanout
          end
      | None => fanout
      end in
    firebase_update fanout (Done_deleteRecord p)).

(** The ordering step of [_setupQuerySortingAndFiltering] (ll. 657-663). *)
Definition apply_ordering (orderBy : JsValue) (ref : Reference) : Reference :=
  if strict_eq_str orderBy "id" then apply_op OrderByKey ref
  else if strict_eq_str orderBy ".value" then apply_op OrderByValue ref
  else apply_op (OrderByChild orderBy) ref.

(** The [forEach] that closes [_setupQuerySortingAndFiltering]
    (ll. 678-688). *)
Fixpoint apply_filters (types : list string) (query : nat) (ref : Reference) : M Reference :=
  match types with
  | [] => mret ref
  | type :: types' =>
      has ← hasOwnProperty query type;
      ref ← (if has : bool then
               v ← get_property query type;
               mret (call_query_method type v ref)
             else mret ref);
      apply_filters types' query ref
  end.

(** [_setupQuerySortingAndFiltering] (l. 652); [query] is the descriptor
    object the caller holds. *)
Definition _setupQuerySortingAndFiltering (ref : Reference) (query : nat)
    (isForcingLimitToOne : bool) : M Reference :=
  hasOrderBy ← hasOwnProperty query "orderBy";
  (if negb hasOrderBy then set_property query "orderBy" (JStr "id") else mret tt) ;;
  orderBy ← get_property query "orderBy";
  let ref := apply_ordering orderBy ref in
  (if isForcingLimitToOne then
     hasLimitToFirst ← hasOwnProperty query "limitToFirst";
     hasLimitToLast ← hasOwnProperty query "limitToLast";
     if hasLimitToFirst || hasLimitToLast then
       if hasLimitToFirst then set_property query "limitToFirst" (JNum 1)
       else set_property query "limitToLast" (JNum 1)
     else set_property query "limitToFirst" (JNum 1)
   else mret tt) ;;
  apply_filters ["startAt"; "endAt"; "equalTo"; "limitToFirst"; "limitToLast"] query ref.

(** [_isListenerTracked] (l. 769) and [_trackListener] (l. 782). *)
Definition _isListenerTracked (key type : string) : M bool :=
  s ← get;
  mret (match trackedListeners s !! key with
        | Some types => default false (types !! type)
        | None => false
        end).

Definition _trackListener (key type : string) : M unit :=
  s ← get;
  let trackedListeners := trackedListeners s in
  let tempTrackedListeners : gmap string (gmap string bool) := trackedListeners ∪ ∅ in
  let tempTrackedListeners :=
    if negb (bool_decide (is_Some (tempTrackedListeners !! key)))
    then <[key := ∅]> tempTrackedListeners
    else tempTrackedListeners in
  let tempTrackedListeners := alter <[type := true]> key tempTrackedListeners in
  modify (set_trackedListeners (λ _, tempTrackedListeners ∪ (trackedListeners ∪ ∅))).

(** The [off] closure installed by [_setupRecordExtensions] (l. 636). *)
Definition extensions_off (ext : RecordExtensions) : M unit :=
  ref_off (ext_ref ext) ChildAdded (Some (ext_onChildAdded ext)) ;;
  ref_off (ext_ref ext) ChildRemoved (Some (ext_onChildRemoved ext)).

(** [_setupRecordExtensions] (l. 617): [recordArray.set('firebase', ...)]. *)
Definition _setupRecordExtensions (recordArray : nat) (ref : Reference)
    (onChildAdded onChildRemoved : Callback) : M unit :=
  s ← get;
  match recordArrays s !! recordArray with
  | Some ra =>
      modify (set_recordArrays <[recordArray :=
        {| ra_firebase := Some {| ext_ref := ref;
                                  ext_onChildAdded := onChildAdded;
                                  ext_onChildRemoved := onChildRemoved |};
           ra_content := ra_content ra |}]>)
  | None => throw "TypeError"
  end.

(** [_setupQueryListListener] (l. 575). *)
Definition _setupQueryListListener (modelName : string) (recordPath : JsValue)
    (recordArray : nat) (ref : Reference) : M unit :=
  inFastBoot ← isInFastBoot;
  if negb inFastBoot then
    c ← new_closure;
    let onChildAdded := OnChildAdded_query c modelName recordPath recordArray in
    ref_on ref ChildAdded onChildAdded ;;
    c ← new_closure;
    let onChildRemoved := OnChildRemoved_query c recordArray in
    ref_on ref ChildRemoved onChildRemoved ;;
    _setupRecordExtensions recordArray ref onChildAdded onChildRemoved
  else mret tt.

(** [_trackQuery] (l. 803); [cacheId] is used as a property key. Where
    [trackedQueries] has no own property of that name, [trackedQueries[cacheId]]
    is the member of [Object.prototype] of that name if there is one: it is
    truthy and has no [get], so the call at l. 811 throws. *)
Definition _trackQuery (cacheId : JsValue) (recordArray : nat) : M unit :=
  inFastBoot ← isInFastBoot;
  if negb inFastBoot then
    s ← get;
    let trackedQueries := trackedQueries s in
    let trackedQueryCache := trackedQueries !! js_to_string cacheId in
    match trackedQueryCache with
    | Some trackedQueryCache =>
        match recordArrays s !! trackedQueryCache ≫= ra_firebase with
        | Some firebase => extensions_off firebase
        | None => throw "TypeError"
        end
    | None =>
        if bool_decide (js_to_string cacheId ∈ object_prototype_members)
        then throw "TypeError"
        else mret tt
    end ;;
    modify (set_trackedQueries (λ _, <[js_to_string cacheId := recordArray]> trackedQueries))
  else mret tt.

(** [query] (l. 281), up to the registration of its [value] listener. *)
Definition query (modelName : string) (query recordArray : nat) : M nat :=
  new_Promise (λ p,
    path ← get_property query "path";
    isReference ← get_property query "isReference";
    let recordPath := if truthy path && negb (truthy isReference) then path else JNull in
    let ref := _getFirebaseReference modelName "" path in
    ref ← _setupQuerySortingAndFiltering ref query false;
    ref_on ref Value (OnValue_query p modelName recordPath query recordArray ref)).

(** The fulfilment handler of [RSVP.all(findRecordPromises)] in [query]
    (ll. 300-308) and its rejection handler (l. 310). *)
Definition query_then (j : Join) (records : list JsObject) : M unit :=
  let onValue := OnValue_query (join_p j) (join_modelName j) (join_recordPath j)
                   (join_query j) (join_recordArray j) (join_ref j) in
  hasCacheId ← hasOwnProperty (join_query j) "cacheId";
  (if hasCacheId : bool then
     _setupQueryListListener (join_modelName j) (join_recordPath j)
       (join_recordArray j) (join_ref j) ;;
     cacheId ← get_property (join_query j) "cacheId";
     _trackQuery cacheId (join_recordArray j)
   else mret tt) ;;
  ref_off (join_ref j) Value (Some onValue) ;;
  resolve (join_p j) (RecordsPayload records).

Definition query_catch (j : Join) (error : string) : M unit :=
  reject (join_p j) {| message := error |}.

(** ** Bodies of the closures *)

(** The event callback of each closure. *)
Definition run_callback (cb : Callback) (snapshot : DataSnapshot) : M unit :=
  match cb with
  | OnValue_findRecord p modelName id ref =>
      (* findRecord, ll. 140-148 *)
      if snap_exists snapshot then
        listenForRecordChanges modelName id ref ;;
        ref_off ref Value (Some cb) ;;
        payload ← mergeSnapshotIdAndValue snapshot;
        resolve p (RecordPayload payload)
      else
        reject p {| message := "Record " +:+ id +:+ " for type " +:+ modelName +:+ " not found" |}
  | OnValue_recordChanges _ modelName id =>
      (* listenForRecordChanges, ll. 383-394 *)
      if snap_exists snapshot then
        snapshotWithId ← mergeSnapshotIdAndValue snapshot;
        emit (StoreNormalizeThenPush modelName snapshotWithId)
      else unloadRecord modelName id
  | OnValue_query p modelName recordPath query recordArray ref =>
      (* query, ll. 286-312 *)
      findRecordPromises ←
        (if snap_exists snapshot then
           map_m (λ key, findRecord modelName key
                           (Some {| ao_include := None; ao_path := Some recordPath |}))
                 (snap_children snapshot)
         else mret []);
      modify (set_joins (λ js, js ++ [{| join_promises := findRecordPromises;
                                         join_p := p;
                                         join_modelName := modelName;
                                         join_recordPath := recordPath;
                                         join_query := query;
                                         join_recordArray := recordArray;
                                         join_ref := ref |}]))
  | OnChildAdded_query _ modelName recordPath recordArray =>
      (* _setupQueryListListener, ll. 579-588 *)
      emit (StoreFindRecord modelName (snap_key snapshot) recordPath recordArray)
  | OnChildRemoved_query _ recordArray =>
      (* _setupQueryListListener, ll. 592-598 *)
      modify (set_recordArrays (alter (λ ra,
        {| ra_firebase := ra_firebase ra;
           ra_content := List.filter (λ id, negb (String.eqb id (snap_key snapshot)))
                           (ra_content ra) |}) recordArray))
  end.

(** The cancel callback registered with each closure; [error] is the text
    of the remote error, which [new Error(error)] takes as its message. *)
Definition run_cancel_callback (cb : Callback) (error : string) : M unit :=
  match cb with
  | OnValue_findRecord p _ _ _ => reject p {| message := error |}
  | OnValue_recordChanges _ modelName id => unloadRecord modelName id
  | OnValue_query p _ _ _ _ _ => reject p {| message := error |}
  | OnChildAdded_query _ _ _ _ => mret tt
  | OnChildRemoved_query _ _ => mret tt
  end.

(** The completion callbacks of [firebase.update] (ll. 110-122 and
    219-225); [error] is [None] when the write succeeded. *)
Definition run_update_callback (done : UpdateCallback) (error : option string) : M unit :=
  match done with
  | Done_updateRecord p modelName snapshot =>
      match error with
      | Some error => reject p {| message := error |}
      | None =>
          let id := rs_id snapshot in
          let path := buildPath modelName id (rs_adapterOptions snapshot) in
          let ref := buildFirebaseReference path in
          listenForRecordChanges modelName id ref ;;
          resolve p NoValue
      end
  | Done_deleteRecord p =>
      match error with
      | Some error => reject p {| message := error |}
      | None => resolve p NoValue
      end
  end.

(** ** What the collaborators do to the adapter *)

(** Firebase raises [type] at [ref]: every listener attached there runs. *)
Definition deliver (snapshot : DataSnapshot) (l : Listener) : M unit :=
  emit (Invoked (l_callback l)) ;;
  guarded (run_callback (l_callback l) snapshot).

Definition firebase_event (ref : Reference) (type : EventType)
    (snapshot : DataSnapshot) : M unit :=
  s ← get;
  for_each (List.filter (listener_matches ref type None) (listeners s)) (deliver snapshot).

(** Firebase cancels the listeners at [ref] with an error. *)
Definition firebase_cancel (ref : Reference) (type : EventType) (error : string) : M unit :=
  s ← get;
  for_each (List.filter (listener_matches ref type None) (listeners s))
    (λ l, guarded (run_cancel_callback (l_callback l) error)) ;;
  modify (set_listeners (List.filter (λ l, negb (listener_matches ref type None l)))).

Definition fulfilled_record (s : State) (p : nat) : option JsObject :=
  match promises s !! p with
  | Some (Fulfilled (RecordPayload o)) => Some o
  | _ => None
  end.

Definition rejection (s : State) (p : nat) : option Error :=
  match promises s !! p with
  | Some (Rejected e) => Some e
  | _ => None
  end.

(** RSVP settles the [i]-th join once one of its promises is rejected or
    all are fulfilled; what [query_then] throws goes to [query_catch]. *)
Definition rsvp_all (i : nat) : M unit :=
  s ← get;
  match joins s !! i with
  | Some j =>
      match omap (rejection s) (join_promises j) with
      | e :: _ =>
          modify (set_joins (delete i)) ;;
          guarded (query_catch j ("Error: " +:+ message e))
      | [] =>
          match mapM (fulfilled_record s) (join_promises j) with
          | Some records =>
              modify (set_joins (delete i)) ;;
              try_catch (query_then j records) (λ e, guarded (query_catch j e))
          | None => mret tt
          end
      end
  | None => mret tt
  end.

End Adapter.

(** ** A concrete environment and concrete inputs *)

(** A database at [https://example.firebaseio.com/], an inflector that
    appends [s], a camelizer that leaves lower-case words alone and a
    serializer that writes the record's [id] at its default path. *)
Definition example_env : Collaborators := {|
  camelize := λ s, s;
  pluralize := λ s, s +:+ "s";
  firebase_child := λ path,
    {| ref_toString := "https://example.firebaseio.com/" +:+ path;
       ref_root_toString := "https://example.firebaseio.com/";
       ref_query := [] |};
  serialize := λ snapshot _, {[ "posts/" +:+ rs_id snapshot +:+ "/id" := JStr (rs_id snapshot) ]}
|}.

(** The adapter after [init()], with the given [fastboot] service, the
    query descriptors and record arrays the callers hold, and nothing else. *)
Definition init (fb : option bool) (objs : gmap nat JsObject)
    (arrays : gmap nat RecordArray) : State :=
  {| fastboot := fb;
     innerReferencePathName := "_innerReferencePath";
     trackedRecords := ∅;
     trackedListeners := ∅;
     trackedQueries := ∅;
     promises := [];
     joins := [];
     listeners := [];
     objects := objs;
     recordArrays := arrays;
     loaded := ∅;
     next_closure := 0;
     trace := [] |}.

(** A snapshot of an object node with the given reference strings. *)
Definition object_snapshot (url root key : string) (o : JsObject) : DataSnapshot :=
  {| snap_ref := {| ref_toString := url; ref_root_toString := root; ref_query := [] |};
     snap_key := key;
     snap_val := NodeObject o;
     snap_children := [] |}.

(** A snapshot taken at [ref], of an object node or of nothing. *)
Definition snapshot_at (ref : Reference) (key : string) (v : NodeValue) : DataSnapshot :=
  {| snap_ref := ref; snap_key := key; snap_val := v; snap_children := [] |}.

(** ** Histories *)

(** What can happen to an adapter: the store calls one of its methods, or a
    collaborator runs one of the callbacks it was handed. *)
Inductive Action :=
| Call_createRecord (modelName : string) (snapshot : RecordSnapshot)
| Call_updateRecord (modelName : string) (snapshot : RecordSnapshot)
| Call_findRecord (modelName id : string) (adapterOptions : option AdapterOptions)
| Call_deleteRecord (modelName : string) (snapshot : RecordSnapshot)
| Call_query (modelName : string) (query recordArray : nat)
| Firebase_event (ref : Reference) (type : EventType) (snapshot : DataSnapshot)
| Firebase_cancel (ref : Reference) (type : EventType) (error : string)
| Firebase_update_done (done : UpdateCallback) (error : option string)
| Rsvp_all (i : nat).

Section Histories.
Context {env : Collaborators}.

Definition step (a : Action) : M unit :=
  match a with
  | Call_createRecord modelName snapshot => createRecord modelName snapshot ;; mret tt
  | Call_updateRecord modelName snapshot => updateRecord modelName snapshot ;; mret tt
  | Call_findRecord modelName id adapterOptions =>
      findRecord modelName id adapterOptions ;; mret tt
  | Call_deleteRecord modelName snapshot => deleteRecord modelName snapshot ;; mret tt
  | Call_query modelName q recordArray => query modelName q recordArray ;; mret tt
  | Firebase_event ref type snapshot => firebase_event ref type snapshot
  | Firebase_cancel ref type error => firebase_cancel ref type error
  | Firebase_update_done done error => guarded (run_update_callback done error)
  | Rsvp_all i => rsvp_all i
  end.

Definition run (actions : list Action) (s : State) : State :=
  foldl (λ s a, exec (step a) s) s actions.

End Histories.

(** ** Vocabulary of the specification *)

(** Ordering operators, as opposed to range and limit operators. *)
Definition is_ordering (op : QueryOp) : bool :=
  match op with
  | OrderByKey | OrderByValue | OrderByChild _ => true
  | _ => false
  end.

(** The ordering the specification prescribes for a descriptor, from its
    words: key ordering when [orderBy] is absent or ['id'], value ordering
    when it is ['.value'], child ordering otherwise. *)
Definition spec_ordering (orderBy : option JsValue) : QueryOp :=
  match orderBy with
  | None => OrderByKey
  | Some v =>
      if decide (v = JStr "id") then OrderByKey
      else if decide (v = JStr ".value") then OrderByValue
      else OrderByChild v
  end.

(** The limit the specification forces to 1 on the single-result path, from
    its words: the one the caller specified, [limitToFirst] by default. *)
Definition spec_forced_limit (descriptor : JsObject) : string :=
  match descriptor !! "limitToFirst", descriptor !! "limitToLast" with
  | None, Some _ => "limitToLast"
  | _, _ => "limitToFirst"
  end.

(** The continuous value listeners (those of [listenForRecordChanges]) of a
    record that are attached at [ref]. *)
Definition is_continuous_listener (ref : Reference) (modelName id : string)
    (l : Listener) : bool :=
  bool_decide (l_ref l = ref) && bool_decide (l_event l = Value) &&
  match l_callback l with
  | OnValue_recordChanges _ m i => String.eqb m modelName && String.eqb i id
  | _ => false
  end.

Definition continuous_listeners (ref : Reference) (modelName id : string)
    (s : State) : nat :=
  length (List.filter (is_continuous_listener ref modelName id) (listeners s)).

(** The live subscriptions of the cached queries of [recordArray]: its
    [child_added] listeners. *)
Definition is_query_subscription (recordArray : nat) (l : Listener) : bool :=
  bool_decide (l_event l = ChildAdded) &&
  match l_callback l with
  | OnChildAdded_query _ _ _ ra => bool_decide (ra = recordArray)
  | _ => false
  end.

Definition query_subscriptions (recordArrays : list nat) (s : State) : nat :=
  length (List.filter (λ l, existsb (λ ra, is_query_subscription ra l) recordArrays)
            (listeners s)).

(** Segments of a path hold no slash. *)
Fixpoint slash_free (s : string) : bool :=
  match s with
  | EmptyString => true
  | String c s' => negb (Ascii.eqb c "/"%char) && slash_free s'
  end.

(** A property of the object a computation returned. *)
Definition result_property (r : Result JsObject) (k : string) : option JsValue :=
  match r with
  | Ok o => o !! k
  | Throw _ => None
  end.

(** The descriptor after the default of [orderBy] was recorded in it. *)
Definition with_default_orderBy (descriptor : JsObject) : JsObject :=
  match descriptor !! "orderBy" with
  | None => <["orderBy" := JStr "id"]> descriptor
  | Some _ => descriptor
  end.

(** One round of the closing [forEach] of [_setupQuerySortingAndFiltering]
    on a descriptor whose properties are known. *)
Definition filter_step (descriptor : JsObject) (ref : Reference) (type : string) : Reference :=
  match descriptor !! type with
  | Some v => call_query_method type v ref
  | None => ref
  end.

(** A name that is a dictionary key like any other: neither the prototype
    link nor the method the adapter calls on its dictionaries. *)
Definition ordinary_name (k : string) : bool :=
  negb (String.eqb k "__proto__") && negb (String.eqb k "hasOwnProperty").

(** [hasOwnProperty] can be called on the registry of tracked records: it
    is shadowed neither by the records of a model of that name nor, through
    a replaced prototype, by a record of that id. *)
Definition registry_intact (s : State) : bool :=
  negb (has_own (trackedRecords s) "hasOwnProperty") &&
  negb (match trackedRecords s !! "__proto__" with
        | Some prototype => has_own prototype "hasOwnProperty"
        | None => false
        end).

(** [hasOwnProperty] can be called on the records tracked for the model, if
    there are any. *)
Definition records_intact (s : State) (modelName : string) : bool :=
  match trackedRecords s !! modelName with
  | Some ids => negb (has_own ids "hasOwnProperty")
  | None => true
  end.

(** [listenForRecordChanges] attaches a listener in this state: the adapter
    is not in FastBoot and the record is not tracked. *)
Definition attaches_listener (s : State) (modelName id : string) : bool :=
  match eval isInFastBoot s, eval (isTrackingRecordChanges modelName id) s with
  | Ok false, Ok false => true
  | _, _ => false
  end.

(** [listenForRecordChanges] throws in this state: the adapter is not in
    FastBoot and [hasOwnProperty] cannot be called on the registry or on the
    records tracked for the model. *)
Definition tracking_fails (s : State) (modelName id : string) : bool :=
  match eval isInFastBoot s, eval (isTrackingRecordChanges modelName id) s with
  | Ok false, Throw _ => true
  | _, _ => false
  end.

(** [s'] is a later state than [s]: calls were added to the trace, and no
    settled promise changed. *)
Definition later (s s' : State) : Prop :=
  (∃ t, trace s' = trace s ++ t)
  ∧ (∀ p st, promises s !! p = Some st → settled st = true → promises s' !! p = Some st).

(** A computation that only leads to later states. *)
Definition monotone {A} (m : M A) : Prop := ∀ s, later s (m s).2.

(** Inputs of the histories evaluated below, in [example_env]: the
    reference of a post, fetching a post that exists, a query descriptor
    carrying the cache identifier [c], a record array fresh from the store,
    the query reference of the posts, and a cached query over an empty
    collection (the [value] event, then RSVP settling the join). *)
Definition post_ref (id : string) : Reference :=
  buildFirebaseReference (env := example_env) (buildPath (env := example_env) "post" id None).

Definition fetch (id : string) : list Action :=
  [Call_findRecord "post" id None;
   Firebase_event (post_ref id) Value (snapshot_at (post_ref id) id (NodeObject ∅))].

Definition cached_descriptor : JsObject := {[ "cacheId" := JStr "c" ]}.

Definition empty_array : RecordArray := {| ra_firebase := None; ra_content := [] |}.

Definition posts_query_ref : Reference :=
  apply_op OrderByKey (_getFirebaseReference (env := example_env) "post" "" JUndefined).

Definition cached_query (q recordArray : nat) : list Action :=
  [Call_query "post" q recordArray;
   Firebase_event posts_query_ref Value (snapshot_at posts_query_ref "posts" NodeAbsent);
   Rsvp_all 0].

(** The closures that live for one invocation only: the [onValue] of
    [findRecord] and of [query]. *)
Definition one_shot (cb : Callback) : bool :=
  match cb with
  | OnValue_findRecord _ _ _ _ | OnValue_query _ _ _ _ _ _ => true
  | _ => false
  end.

(** In FastBoot, [s'] differs from [s] by nothing the FastBoot guards
    protect: still in FastBoot, the registries of records and queries are
    the same, and every listener is one [s] had or a one-shot one. *)
Definition fastboot_inert (s s' : State) : Prop :=
  fastboot s = Some true →
  fastboot s' = Some true
  ∧ trackedRecords s' = trackedRecords s
  ∧ trackedQueries s' = trackedQueries s
  ∧ ∀ l, In l (listeners s') → In l (listeners s) ∨ one_shot (l_callback l) = true.

Definition inert {A} (m : M A) : Prop := ∀ s, fastboot_inert s (m s).2.

(** The operator a descriptor asks for under one of its filter names, if it
    has that property. *)
Definition present (descriptor : JsObject) (name : string) (op : JsValue → QueryOp) :
    list QueryOp :=
  match descriptor !! name with
  | Some v => [op v]
  | None => []
  end.

(** The state after the store unloaded a record. *)
Definition unloaded (modelName id : string) (s : State) : State :=
  set_loaded (delete (modelName, id)) (set_trace (λ t, t ++ [StoreUnloadRecord modelName id]) s).

(** The one-shot listeners that fetching the records [keys] attaches, the
    first of them for promise [n]. *)
Fixpoint fetch_listeners `{env : Collaborators} (modelName : string)
    (adapterOptions : option AdapterOptions) (n : nat) (keys : list string) : list Listener :=
  match keys with
  | [] => []
  | key :: keys' =>
      let ref := buildFirebaseReference (buildPath modelName key adapterOptions) in
      {| l_ref := ref; l_event := Value;
         l_callback := OnValue_findRecord n modelName key ref |}
      :: fetch_listeners modelName adapterOptions (S n) keys'
  end.

(** ** The rest of the adapter: [findAll], [queryRecord] and the list
    listeners

    Their closures, the listeners they attach and the promise handlers they
    register are kept beside the adapter state in a [World]; the methods
    are computations in the monad [W] over it, and run the methods above
    through [lift]. The trace of the adapter state records no call made
    with these closures. *)

Inductive ListCallback :=
| OnValue_findAll (p : nat) (modelName : string) (ref : Reference)
| OnValue_queryRecord (p : nat) (modelName : string) (path : JsValue) (query : nat)
    (ref : Reference)
| OnValue_valueListener (c : nat) (modelName id : string)
| OnChildAdded_list (c : nat) (modelName : string).

#[global] Instance ListCallback_eq_dec : EqDecision ListCallback.
Proof. solve_decision. Defined.

Record ListListener := {
  ll_ref : Reference;
  ll_event : EventType;
  ll_callback : ListCallback
}.

#[global] Instance ListListener_eq_dec : EqDecision ListListener.
Proof. solve_decision. Defined.

(** [RSVP.all(findRecordPromises).then(...).catch(...)] in [findAll]. *)
Record ListJoin := {
  lj_promises : list nat;
  lj_p : nat;
  lj_modelName : string;
  lj_ref : Reference
}.

(** [this.findRecord(...).then(...).catch(...)] in [queryRecord]: the
    promise waited for and the variables the two handlers captured. *)
Record Reaction := {
  r_promise : nat;
  r_p : nat;
  r_onValue : ListCallback;
  r_ref : Reference
}.

Record World := {
  adapter : State;
  list_listeners : list ListListener;
  list_joins : list ListJoin;
  reactions : list Reaction
}.

Definition set_adapter (f : State → State) (w : World) : World :=
  {| adapter := f (adapter w); list_listeners := list_listeners w;
     list_joins := list_joins w; reactions := reactions w |}.

Definition set_list_listeners (f : list ListListener → list ListListener) (w : World) : World :=
  {| adapter := adapter w; list_listeners := f (list_listeners w);
     list_joins := list_joins w; reactions := reactions w |}.

Definition set_list_joins (f : list ListJoin → list ListJoin) (w : World) : World :=
  {| adapter := adapter w; list_listeners := list_listeners w;
     list_joins := f (list_joins w); reactions := reactions w |}.

Definition set_reactions (f : list Reaction → list Reaction) (w : World) : World :=
  {| adapter := adapter w; list_listeners := list_listeners w;
     list_joins := list_joins w; reactions := f (reactions w) |}.

Definition W (A : Type) : Type := World → Result A * World.

#[global] Instance W_ret : MRet W := λ A a w, (Ok a, w).

#[global] Instance W_bind : MBind W := λ A B f m w,
  match m w with
  | (Ok a, w') => f a w'
  | (Throw e, w') => (Throw e, w')
  end.

(** A method of the adapter state, run in the world. *)
Definition lift {A} (m : M A) : W A := λ w,
  ((m (adapter w)).1, set_adapter (λ _, (m (adapter w)).2) w).

Definition get_world : W World := λ w, (Ok w, w).
Definition modify_world (f : World → World) : W unit := λ w, (Ok tt, f w).

Definition exec_w {A} (m : W A) (w : World) : World := (m w).2.
Definition eval_w {A} (m : W A) (w : World) : Result A := (m w).1.

Definition guarded_w (m : W unit) : W unit := λ w, (Ok tt, (m w).2).

Definition try_catch_w (m : W unit) (handler : string → W unit) : W unit := λ w,
  match m w with
  | (Throw e, w') => handler e w'
  | r => r
  end.

Fixpoint for_each_w {A} (l : list A) (f : A → W unit) : W unit :=
  match l with
  | [] => mret tt
  | x :: l' => f x ;; for_each_w l' f
  end.

Definition new_Promise_w (executor : nat → W unit) : W nat :=
  p ← lift new_promise;
  try_catch_w (executor p) (λ e, lift (settle p (Rejected {| message := e |}))) ;;
  mret p.

(** [ref.on(type, cb, cancelCb)] with one of the closures above. *)
Definition list_on (ref : Reference) (type : EventType) (cb : ListCallback) : W unit :=
  modify_world (set_list_listeners
    (λ ls, ls ++ [{| ll_ref := ref; ll_event := type; ll_callback := cb |}])).

Definition list_listener_matches (ref : Reference) (type : EventType)
    (cb : option ListCallback) (l : ListListener) : bool :=
  bool_decide (ll_ref l = ref) && bool_decide (ll_event l = type) &&
  match cb with
  | Some cb => bool_decide (ll_callback l = cb)
  | None => true
  end.

(** [ref.off(type, cb)] with one of the closures above. *)
Definition list_off (ref : Reference) (type : EventType) (cb : ListCallback) : W unit :=
  modify_world (set_list_listeners
    (List.filter (λ l, negb (list_listener_matches ref type (Some cb) l)))).

(** Whether [ref.off(...)] reaches the callbacks registered at [r]: a
    reference without query operators reaches those of every query at its
    location, a query reaches its own only. *)
Definition reached_by_off (ref r : Reference) : bool :=
  if bool_decide (ref_query ref = []) then
    bool_decide (ref_toString r = ref_toString ref) &&
    bool_decide (ref_root_toString r = ref_root_toString ref)
  else bool_decide (r = ref).

(** [ref.off(type)]: every callback of that type that [ref] reaches,
    whichever closure it is. *)
Definition off_all (ref : Reference) (type : EventType) : W unit :=
  lift (emit (FbOff ref type None)) ;;
  lift (modify (set_listeners
    (List.filter (λ l, negb (reached_by_off ref (l_ref l) && bool_decide (l_event l = type)))))) ;;
  modify_world (set_list_listeners
    (List.filter (λ l, negb (reached_by_off ref (ll_ref l) && bool_decide (ll_event l = type))))).

(** [_getGetSnapshotWithId] (l. 700). *)
Definition _getGetSnapshotWithId (snapshot : DataSnapshot) : M JsObject :=
  let ref := snap_ref snapshot in
  let referencePath := substring (String.length (ref_root_toString ref)) (ref_toString ref) in
  let pathNodes := split "/" referencePath in
  let pathNodes := shift pathNodes in
  let pathNodes := pop pathNodes in
  match snap_val snapshot with
  | NodeObject newSnapshot =>
      let newSnapshot := <["id" := JStr (snap_key snapshot)]> newSnapshot in
      s ← get;
      mret (<[innerReferencePathName s := JStr (join "/" pathNodes)]> newSnapshot)
  | _ => throw "TypeError"
  end.

(** [_unloadRecord] (l. 753). *)
Definition _unloadRecord (modelName id : string) : M unit :=
  s ← get;
  match loaded s !! (modelName, id) with
  | Some isSaving =>
      if negb isSaving then
        emit (StoreUnloadRecord modelName id) ;;
        modify (set_loaded (delete (modelName, id)))
      else mret tt
  | None => mret tt
  end.

(** [!fastboot || !fastboot.get('isFastBoot')], the guard of the list
    listeners. *)
Definition notInFastBoot : M bool :=
  s ← get;
  mret (match fastboot s with
        | Some isFastBoot => negb isFastBoot
        | None => true
        end).

Section Lists.
Context {env : Collaborators}.

(** [_setupValueListener] (l. 508); [path] is [undefined] when not given. *)
Definition _setupValueListener (modelName id : string) (path : JsValue) : W unit :=
  notFastBoot ← lift notInFastBoot;
  if notFastBoot : bool then
    let key := if truthy path then js_to_string path +:+ "/" +:+ id
               else _getParsedModelName modelName +:+ "/" +:+ id in
    tracked ← lift (_isListenerTracked key "value");
    if negb tracked then
      lift (_trackListener key "value") ;;
      let ref := _getFirebaseReference modelName id path in
      c ← lift new_closure;
      list_on ref Value (OnValue_valueListener c modelName id)
    else mret tt
  else mret tt.

(** [_setupListListener] (l. 546). *)
Definition _setupListListener (modelName : string) : W unit :=
  notFastBoot ← lift notInFastBoot;
  if notFastBoot : bool then
    let path := _getParsedModelName modelName in
    tracked ← lift (_isListenerTracked path "child_added");
    if negb tracked then
      lift (_trackListener path "child_added") ;;
      let ref := _getFirebaseReference modelName "" JUndefined in
      c ← lift new_closure;
      list_on ref ChildAdded (OnChildAdded_list c modelName)
    else mret tt
  else mret tt.

(** [findAll] (l. 163), up to the registration of its [value] listener. *)
Definition findAll (modelName : string) : W nat :=
  new_Promise_w (λ p,
    let ref := _getFirebaseReference modelName "" JUndefined in
    list_on ref Value (OnValue_findAll p modelName ref)).

(** The handlers of [RSVP.all(findRecordPromises)] in [findAll]
    (ll. 176-182). *)
Definition findAll_then (j : ListJoin) (records : list JsObject) : W unit :=
  _setupListListener (lj_modelName j) ;;
  off_all (lj_ref j) Value ;;
  lift (resolve (lj_p j) (RecordsPayload records)).

Definition findAll_catch (j : ListJoin) (error : string) : W unit :=
  lift (reject (lj_p j) {| message := error |}).

(** [queryRecord] (l. 237), up to the registration of its [value]
    listener. *)
Definition queryRecord (modelName : string) (query : nat) : W nat :=
  new_Promise_w (λ p,
    path ← lift (get_property query "path");
    let ref := _getFirebaseReference modelName "" path in
    ref ← lift (_setupQuerySortingAndFiltering ref query true);
    list_on ref Value (OnValue_queryRecord p modelName path query ref)).

(** The handlers of [this.findRecord(...)] in [queryRecord] (ll. 250-255). *)
Definition queryRecord_then (r : Reaction) (record : JsObject) : W unit :=
  list_off (r_ref r) Value (r_onValue r) ;;
  lift (resolve (r_p r) (RecordPayload record)).

Definition queryRecord_catch (r : Reaction) (error : string) : W unit :=
  lift (reject (r_p r) {| message := error |}).

(** The event callback of each of these closures. *)
Definition run_list_callback (cb : ListCallback) (snapshot : DataSnapshot) : W unit :=
  match cb with
  | OnValue_findAll p modelName ref =>
      (* findAll, ll. 168-185 *)
      if snap_exists snapshot then
        findRecordPromises ←
          lift (map_m (λ key, findRecord modelName key None) (snap_children snapshot));
        modify_world (set_list_joins (λ js, js ++ [{| lj_promises := findRecordPromises;
                                                      lj_p := p;
                                                      lj_modelName := modelName;
                                                      lj_ref := ref |}]))
      else lift (reject p {| message := "Record doesn't exist" |})
  | OnValue_queryRecord p modelName path query ref =>
      (* queryRecord, ll. 240-260 *)
      if snap_exists snapshot then
        for_each_w (snap_children snapshot) (λ key,
          isReference ← lift (get_property query "isReference");
          let adapterOptions :=
            if truthy path && negb (truthy isReference)
            then Some {| ao_include := None; ao_path := Some path |}
            else None in
          promise ← lift (findRecord modelName key adapterOptions);
          modify_world (set_reactions (λ rs, rs ++ [{| r_promise := promise;
                                                       r_p := p;
                                                       r_onValue := cb;
                                                       r_ref := ref |}])))
      else lift (reject p {| message := "Record doesn't exist" |})
  | OnValue_valueListener _ modelName id =>
      (* _setupValueListener, ll. 520-531 *)
      if snap_exists snapshot then
        snapshotWithId ← lift (_getGetSnapshotWithId snapshot);
        lift (emit (StoreNormalizeThenPush modelName snapshotWithId))
      else lift (_unloadRecord modelName id)
  | OnChildAdded_list _ modelName =>
      (* _setupListListener, ll. 557-559 *)
      _setupValueListener modelName (snap_key snapshot) JUndefined
  end.

(** The cancel callback registered with each of these closures. *)
Definition run_list_cancel_callback (cb : ListCallback) (error : string) : W unit :=
  match cb with
  | OnValue_findAll p _ _ => lift (reject p {| message := error |})
  | OnValue_queryRecord p _ _ _ _ => lift (reject p {| message := error |})
  | OnValue_valueListener _ modelName id => lift (_unloadRecord modelName id)
  | OnChildAdded_list _ _ => mret tt
  end.

(** Firebase raises [type] at [ref] for the listeners above. *)
Definition list_event (ref : Reference) (type : EventType) (snapshot : DataSnapshot) : W unit :=
  w ← get_world;
  for_each_w (List.filter (list_listener_matches ref type None) (list_listeners w))
    (λ l, guarded_w (run_list_callback (ll_callback l) snapshot)).

(** RSVP settles the [i]-th join of [findAll] once one of its promises is
    rejected or all are fulfilled. *)
Definition rsvp_all_list (i : nat) : W unit :=
  w ← get_world;
  match list_joins w !! i with
  | Some j =>
      match omap (rejection (adapter w)) (lj_promises j) with
      | e :: _ =>
          modify_world (set_list_joins (delete i)) ;;
          guarded_w (findAll_catch j ("Error: " +:+ message e))
      | [] =>
          match mapM (fulfilled_record (adapter w)) (lj_promises j) with
          | Some records =>
              modify_world (set_list_joins (delete i)) ;;
              try_catch_w (findAll_then j records) (λ e, guarded_w (findAll_catch j e))
          | None => mret tt
          end
      end
  | None => mret tt
  end.

(** RSVP runs the handlers of the [i]-th reaction of [queryRecord] once its
    promise is settled. *)
Definition rsvp_then (i : nat) : W unit :=
  w ← get_world;
  match reactions w !! i with
  | Some r =>
      match promises (adapter w) !! r_promise r with
      | Some (Fulfilled (RecordPayload record)) =>
          modify_world (set_reactions (delete i)) ;;
          try_catch_w (queryRecord_then r record) (λ e, guarded_w (queryRecord_catch r e))
      | Some (Rejected e) =>
          modify_world (set_reactions (delete i)) ;;
          guarded_w (queryRecord_catch r ("Error: " +:+ message e))
      | _ => mret tt
      end
  | None => mret tt
  end.

End Lists.

(** A world with no list listener, around an adapter state. *)
Definition world_of (s : State) : World :=
  {| adapter := s; list_listeners := []; list_joins := []; reactions := [] |}.

(** What the guard of the list listeners and [_isListenerTracked] answer in
    a state. *)
Definition outside_fastboot (s : State) : bool :=
  match eval notInFastBoot s with
  | Ok b => b
  | Throw _ => false
  end.

Definition listener_tracked (s : State) (key type : string) : bool :=
  match eval (_isListenerTracked key type) s with
  | Ok b => b
  | Throw _ => false
  end.

(** The key under which [_setupValueListener] tracks its listener. *)
Definition value_listener_key `{env : Collaborators} (modelName id : string)
    (path : JsValue) : string :=
  if truthy path then js_to_string path +:+ "/" +:+ id
  else camelize (pluralize modelName) +:+ "/" +:+ id.

(** [s'] differs from [s] in the heap of objects only. *)
Definition objects_only (s s' : State) : Prop := ∃ f, s' = set_objects f s.

(** The reactions that fetching [n] records registers, the first of them on
    promise [m]. *)
Definition fetch_reactions (p : nat) (cb : ListCallback) (ref : Reference)
    (m n : nat) : list Reaction :=
  map (λ k, {| r_promise := k; r_p := p; r_onValue := cb; r_ref := ref |}) (seq m n).

(** A snapshot of an existing node at [ref] with the single child [a]. *)
Definition snapshot_with_child (ref : Reference) : DataSnapshot :=
  {| snap_ref := ref; snap_key := "posts"; snap_val := NodeObject ∅; snap_children := ["a"] |}.

(** A query for posts whose descriptor is held at 0 and whose record array
    is held at 10, up to the fetch of its one record [a]. *)
Definition query_in_flight (descriptor : JsObject) : State :=
  run (env := example_env)
    [Call_query "post" 0 10;
     Firebase_event posts_query_ref Value (snapshot_with_child posts_query_ref)]
    (init None {[ 0 := descriptor ]} {[ 10 := empty_array ]}).

(** The same, once the fetch of [a] has found the node [v]. *)
Definition query_fetched (descriptor : JsObject) (v : NodeValue) : State :=
  run (env := example_env)
    [Firebase_event (post_ref "a") Value (snapshot_at (post_ref "a") "a" v)]
    (query_in_flight descriptor).

(** The reference of the whole [posts] collection. *)
Definition posts_ref : Reference := _getFirebaseReference (env := example_env) "post" "" JUndefined.

(** [findAll] for posts from a fresh adapter, up to the fetch of its one
    record [a], and once that fetch has found the node [v]. *)
Definition findAll_in_flight : World :=
  exec_w (list_event (env := example_env) posts_ref Value (snapshot_with_child posts_ref))
    (exec_w (findAll (env := example_env) "post") (world_of (init None ∅ ∅))).

Definition findAll_fetched (v : NodeValue) : World :=
  exec_w (lift (firebase_event (env := example_env) (post_ref "a") Value
                  (snapshot_at (post_ref "a") "a" v)))
    findAll_in_flight.

(** [queryRecord] for posts from a fresh adapter holding an empty
    descriptor at 0: the reference it listens at, the world up to the fetch
    of the one record [a], and the world once that fetch has found [v]. *)
Definition one_post_ref : Reference :=
  apply_op (LimitToFirst (JNum 1)) posts_query_ref.

Definition queryRecord_in_flight : World :=
  exec_w (list_event (env := example_env) one_post_ref Value (snapshot_with_child one_post_ref))
    (exec_w (queryRecord (env := example_env) "post" 0) (world_of (init None {[ 0 := ∅ ]} ∅))).

Definition queryRecord_fetched (v : NodeValue) : World :=
  exec_w (lift (firebase_event (env := example_env) (post_ref "a") Value
                  (snapshot_at (post_ref "a") "a" v)))
    queryRecord_in_flight.

(** The payload of post [a] when its node is an empty object. *)
Definition post_a : JsObject :=
  <["_innerReferencePath" := JStr ""]> (<["id" := JStr "a"]> ∅).

(** * Properties *)

(** Symbolic execution of the monadic code. *)
Ltac mrun :=
  cbv beta iota zeta delta
    [mbind M_bind mret M_ret get modify throw emit exec eval guarded try_catch
     new_Promise new_promise settle resolve reject ref_on ref_off
     firebase_update new_closure hasOwnProperty get_property set_property
     fst snd].

(** ** Strings *)

Lemma substring_app (r p : string) : substring (String.length r) (r +:+ p) = p.
Proof. induction r as [|c r IH]; [done | exact IH]. Qed.

Lemma split_slash_free (s : string) :
  slash_free s = true → split "/" s = [s].
Proof.
  induction s as [|c s IH]; simpl; [done |].
  intros [Hc Hs]%andb_prop. apply negb_true_iff in Hc.
  rewrite Hc, (IH Hs). done.
Qed.

Lemma split_app_slash (s t : string) :
  slash_free s = true → split "/" (s +:+ "/" +:+ t) = s :: split "/" t.
Proof.
  induction s as [|c s IH]; simpl; [done |].
  intros [Hc Hs]%andb_prop. apply negb_true_iff in Hc.
  rewrite Hc, (IH Hs). done.
Qed.

(** Splitting undoes joining slash-free segments. *)
Lemma split_join (segments : list string) :
  segments ≠ [] → forallb slash_free segments = true →
  split "/" (join "/" segments) = segments.
Proof.
  induction segments as [|x [|y rest] IH]; [done | |].
  - intros _ [Hx _]%andb_prop. by apply split_slash_free.
  - intros _ [Hx Hrest]%andb_prop.
    change (join "/" (x :: y :: rest)) with (x +:+ "/" +:+ join "/" (y :: rest)).
    rewrite split_app_slash by done. f_equal. by apply IH.
Qed.

(** ** C9: create is update *)

(** C9. For every model name, snapshot and adapter state, [createRecord]
    returns what [updateRecord] returns and leaves the same state: the same
    promise, the same serialized write handed to the remote store with the
    same completion callback (hence the same listener attachment on success
    and the same error wrapping on failure). *)
Theorem createRecord_is_updateRecord `{env : Collaborators}
    (modelName : string) (snapshot : RecordSnapshot) (s : State) :
  createRecord modelName snapshot s = updateRecord modelName snapshot s
  ∧ eval (createRecord modelName snapshot) s = Ok (length (promises s))
  ∧ trace (exec (createRecord modelName snapshot) s) =
      trace s ++ [FbUpdate (serialize snapshot (innerReferencePathName s))
                    (Done_updateRecord (length (promises s)) modelName snapshot)].
Proof. done. Qed.

(** ** C6: tracking a record *)

Lemma ordinary_name_spec (k : string) :
  ordinary_name k = true ↔ k ≠ "__proto__" ∧ k ≠ "hasOwnProperty".
Proof.
  unfold ordinary_name. rewrite andb_true_iff, !negb_true_iff.
  by rewrite <- !not_true_iff_false, !String.eqb_eq.
Qed.

Lemma has_own_ordinary {V} (o : gmap string V) (k : string) :
  k ≠ "__proto__" → has_own o k = bool_decide (is_Some (o !! k)).
Proof.
  intros Hk. unfold has_own.
  assert (String.eqb k "__proto__" = false) as -> by (by apply String.eqb_neq).
  done.
Qed.

Lemma has_own_proto {V} (o : gmap string V) : has_own o "__proto__" = false.
Proof. done. Qed.

Lemma assign_string_ordinary (k v : string) (o : gmap string string) :
  k ≠ "__proto__" → assign_string k v o = <[k := v]> o.
Proof.
  intros Hk. unfold assign_string.
  assert (String.eqb k "__proto__" = false) as -> by (by apply String.eqb_neq).
  done.
Qed.

(** What [trackRecord] leaves in the registry. *)
Lemma trackRecord_run (modelName id : string) (ref : Reference) (s : State) :
  trackRecord modelName id ref s =
    (Ok tt, set_trackedRecords
              <[modelName := assign_string id (parseFirebaseReferencePath ref) ∅]> s).
Proof.
  unfold trackRecord. mrun. f_equal. destruct s. unfold set_trackedRecords. simpl. f_equal.
  apply map_eq. intros k. destruct (decide (k = modelName)) as [->|Hne].
  - by rewrite lookup_alter_eq, !lookup_insert_eq.
  - by rewrite lookup_alter_ne, !lookup_insert_ne.
Qed.

(** What [isTrackingRecordChanges] answers when [hasOwnProperty] can be
    called on the registry and on the records of the model. *)
Lemma isTrackingRecordChanges_run (modelName id : string) (s : State) :
  registry_intact s = true → records_intact s modelName = true →
  isTrackingRecordChanges modelName id s =
    (Ok (has_own (trackedRecords s) modelName &&
         match trackedRecords s !! modelName with
         | Some ids => has_own ids id
         | None => false
         end), s).
Proof.
  unfold registry_intact, records_intact, isTrackingRecordChanges. mrun.
  intros [Hown Hproto]%andb_true_iff Hrec.
  apply negb_true_iff in Hown, Hproto. rewrite Hown, Hproto. simpl.
  destruct (has_own (trackedRecords s) modelName); simpl; [| done].
  destruct (trackedRecords s !! modelName) as [ids|]; [| done].
  apply negb_true_iff in Hrec. by rewrite Hrec.
Qed.

(** Tracking a record of ordinary name for a model of ordinary name keeps
    the registry intact. *)
Lemma trackRecord_intact (modelName id : string) (ref : Reference) (s : State) :
  ordinary_name modelName = true → ordinary_name id = true → registry_intact s = true →
  let s' := exec (trackRecord modelName id ref) s in
  registry_intact s' = true ∧ records_intact s' modelName = true.
Proof.
  intros [Hm1 Hm2]%ordinary_name_spec [Hi1 Hi2]%ordinary_name_spec Hs s'. subst s'.
  unfold exec. rewrite trackRecord_run. unfold registry_intact, records_intact in *. simpl.
  rewrite lookup_insert_eq, assign_string_ordinary by done.
  rewrite !has_own_ordinary by done.
  rewrite (lookup_insert_ne (trackedRecords s) modelName "hasOwnProperty") by done.
  rewrite (lookup_insert_ne (trackedRecords s) modelName "__proto__") by done.
  rewrite has_own_ordinary in Hs by done. split; [exact Hs |].
  rewrite lookup_insert_ne by done.
  rewrite lookup_empty. by rewrite bool_decide_eq_false_2 by (by intros [? ?]).
Qed.




(** ** C1: the fanout of a delete *)

(** When [adapterOptions] is supplied, the fanout written by [deleteRecord]
    is the [include] map (if any) with one tombstone added: [path/id] when
    [path] is supplied, the parsed model name followed by [/id] otherwise. *)
Lemma deleteRecord_fanout_with_options `{env : Collaborators}
    (modelName id : string) (ao : AdapterOptions) (s : State) :
  let key := match ao_path ao with
             | Some path => js_to_string path +:+ "/" +:+ id
             | None => camelize (pluralize modelName) +:+ "/" +:+ id
             end in
  trace (exec (deleteRecord modelName {| rs_id := id; rs_adapterOptions := Some ao |}) s) =
    trace s ++ [FbUpdate (<[key := JNull]> (default ∅ (ao_include ao)))
                  (Done_deleteRecord (length (promises s)))].
Proof.
  unfold deleteRecord, assign, _getParsedModelName. mrun. simpl.
  destruct (ao_path ao), (ao_include ao); simpl; by rewrite ?(right_id_L ∅ (∪)).
Qed.

(** The fanout of the specification's example: both tombstones. *)
Lemma deleteRecord_fanout_example :
  trace (exec (deleteRecord (env := example_env) "post"
                 {| rs_id := "p1";
                    rs_adapterOptions :=
                      Some {| ao_include := Some {[ "a/1" := JNull ]};
                              ao_path := Some (JStr "b") |} |})
           (init None ∅ ∅)) =
    [FbUpdate {[ "a/1" := JNull; "b/p1" := JNull ]} (Done_deleteRecord 0)].
Proof. vm_compute. reflexivity. Qed.

(** C1. For every model name, id and adapter state, a [deleteRecord] whose
    snapshot carries no [adapterOptions] hands the remote store an empty
    fanout: the tombstone of the record under its camelized, pluralized
    model name is not in it, so nothing is deleted. *)
Theorem deleteRecord_without_adapterOptions_writes_nothing `{env : Collaborators}
    (modelName id : string) (s : State) :
  trace (exec (deleteRecord modelName {| rs_id := id; rs_adapterOptions := None |}) s) =
    trace s ++ [FbUpdate ∅ (Done_deleteRecord (length (promises s)))]
  ∧ (∅ : JsObject) !! (camelize (pluralize modelName) +:+ "/" +:+ id) = None.
Proof. done. Qed.

(** ** C4: normalizing a snapshot *)

(** C4, as amended. For every snapshot whose decoded value is an object, and
    whose reference string is the root string followed by slash-free
    segments joined with [/], the normalizer returns that object with [id]
    set to the snapshot's key and then the inner-path property set to the
    segments without the first and the last one, joined with [/]. *)
Theorem mergeSnapshotIdAndValue_normalizes
    (s : State) (root : string) (segments : list string) (q : list QueryOp)
    (key : string) (o : JsObject) (children : list string) :
  segments ≠ [] →
  forallb slash_free segments = true →
  eval (mergeSnapshotIdAndValue
          {| snap_ref := {| ref_toString := root +:+ join "/" segments;
                            ref_root_toString := root;
                            ref_query := q |};
             snap_key := key;
             snap_val := NodeObject o;
             snap_children := children |}) s =
    Ok (<[innerReferencePathName s := JStr (join "/" (removelast (tail segments)))]>
          (<["id" := JStr key]> o)).
Proof.
  intros Hne Hfree. unfold mergeSnapshotIdAndValue, shift, pop. mrun. simpl.
  by rewrite substring_app, split_join.
Qed.

(** With the root string [users/] the segments of [users/u1/profile/p1] are
    [u1], [profile] and [p1], and the inner path is [profile]. *)
Lemma mergeSnapshotIdAndValue_normalizes_witness :
  eval (mergeSnapshotIdAndValue (object_snapshot "users/u1/profile/p1" "users/" "p1" ∅))
       (init None ∅ ∅) =
    Ok (<["_innerReferencePath" := JStr "profile"]> (<["id" := JStr "p1"]> ∅)).
Proof.
  exact (mergeSnapshotIdAndValue_normalizes (init None ∅ ∅) "users/"
           ["u1"; "profile"; "p1"] [] "p1" ∅ []
           (λ H : ["u1"; "profile"; "p1"] = [], eq_ind ["u1"; "profile"; "p1"]
              (λ l, match l with [] => False | _ => True end) I [] H)
           eq_refl).
Defined.

(** The example of the specification, read with the root string [users], and
    read with [users] as the first segment below the root of a database:
    the inner path is [u1/profile] both times, not [profile]. *)
Lemma mergeSnapshotIdAndValue_example_is_not_profile :
  let r1 := eval (mergeSnapshotIdAndValue
                    (object_snapshot "users/u1/profile/p1" "users" "p1" ∅))
                 (init None ∅ ∅) in
  let r2 := eval (mergeSnapshotIdAndValue
                    (object_snapshot "https://example.firebaseio.com/users/u1/profile/p1"
                       "https://example.firebaseio.com/" "p1" ∅))
                 (init None ∅ ∅) in
  (result_property r1 "id" = Some (JStr "p1")
   ∧ result_property r1 "_innerReferencePath" = Some (JStr "u1/profile")
   ∧ result_property r1 "_innerReferencePath" ≠ Some (JStr "profile"))
  ∧ (result_property r2 "id" = Some (JStr "p1")
     ∧ result_property r2 "_innerReferencePath" = Some (JStr "u1/profile")
     ∧ result_property r2 "_innerReferencePath" ≠ Some (JStr "profile")).
Proof. vm_compute. repeat split; discriminate. Qed.

(** ** Running the monadic code on a known state *)

Lemma bind_ok {A B} (m : M A) (f : A → M B) (s : State) (a : A) (s' : State) :
  m s = (Ok a, s') → (m ≫= f) s = f a s'.
Proof. intros Hm. unfold mbind, M_bind. by rewrite Hm. Qed.

Lemma bind_throw {A B} (m : M A) (f : A → M B) (s : State) (e : string) (s' : State) :
  m s = (Throw e, s') → (m ≫= f) s = (Throw e, s').
Proof. intros Hm. unfold mbind, M_bind. by rewrite Hm. Qed.

Lemma hasOwnProperty_run (s : State) (q : nat) (o : JsObject) (k : string) :
  objects s !! q = Some o →
  hasOwnProperty q k s = (Ok (bool_decide (is_Some (o !! k))), s).
Proof. intros Hq. unfold hasOwnProperty. mrun. by rewrite Hq. Qed.

Lemma get_property_run (s : State) (q : nat) (o : JsObject) (k : string) :
  objects s !! q = Some o →
  get_property q k s = (Ok (default JUndefined (o !! k)), s).
Proof. intros Hq. unfold get_property. mrun. by rewrite Hq. Qed.

Lemma set_property_run (s : State) (q : nat) (o : JsObject) (k : string) (v : JsValue) :
  objects s !! q = Some o →
  set_property q k v s = (Ok tt, set_objects <[q := <[k := v]> o]> s).
Proof. intros Hq. unfold set_property. mrun. by rewrite Hq. Qed.

(** ** C2 and C7: sorting and filtering *)

Lemma apply_filters_run
    (types : list string) (q : nat) (ref : Reference) (s : State) (o : JsObject) :
  objects s !! q = Some o →
  apply_filters types q ref s = (Ok (foldl (filter_step o) ref types), s).
Proof.
  intros Hq. revert ref. induction types as [|type types IH]; intros ref; [done |].
  simpl. erewrite bind_ok by (by apply hasOwnProperty_run).
  unfold filter_step at 2. destruct (o !! type) as [v|] eqn:Hv; simpl.
  - erewrite bind_ok; [apply IH |].
    erewrite bind_ok by (by apply get_property_run). by rewrite Hv.
  - erewrite bind_ok; [apply IH | done].
Qed.

(** What [_setupQuerySortingAndFiltering] returns and what it leaves in the
    descriptor. *)
Lemma setupQuerySortingAndFiltering_run
    (ref : Reference) (q : nat) (force : bool) (s : State) (o : JsObject) :
  objects s !! q = Some o →
  let o1 := with_default_orderBy o in
  let o2 := if force then <[spec_forced_limit o := JNum 1]> o1 else o1 in
  ∃ s', _setupQuerySortingAndFiltering ref q force s =
          (Ok (foldl (filter_step o2)
                 (apply_ordering (default (JStr "id") (o !! "orderBy")) ref)
                 ["startAt"; "endAt"; "equalTo"; "limitToFirst"; "limitToLast"]), s')
        ∧ objects s' !! q = Some o2.
Proof.
  intros Hq o1 o2. unfold _setupQuerySortingAndFiltering.
  erewrite bind_ok by (by apply hasOwnProperty_run).
  assert (∃ s1, objects s1 !! q = Some o1 ∧
            (if negb (bool_decide (is_Some (o !! "orderBy")))
             then set_property q "orderBy" (JStr "id") else mret tt) s = (Ok tt, s1))
    as (s1 & Hq1 & Hs1).
  { subst o1. unfold with_default_orderBy. destruct (o !! "orderBy") eqn:Hob; simpl.
    - by exists s.
    - eexists. split; [| by apply set_property_run]. simpl. by rewrite lookup_insert_eq. }
  erewrite bind_ok by exact Hs1.
  erewrite bind_ok by (by apply get_property_run).
  assert (Hob : default JUndefined (o1 !! "orderBy") = default (JStr "id") (o !! "orderBy")).
  { subst o1. unfold with_default_orderBy. destruct (o !! "orderBy") eqn:Hob; simpl.
    - by rewrite Hob.
    - by rewrite lookup_insert_eq. }
  rewrite Hob.
  assert (∃ s2, objects s2 !! q = Some o2 ∧
            (if force then
               hasLimitToFirst ← hasOwnProperty q "limitToFirst";
               hasLimitToLast ← hasOwnProperty q "limitToLast";
               if hasLimitToFirst || hasLimitToLast then
                 if hasLimitToFirst then set_property q "limitToFirst" (JNum 1)
                 else set_property q "limitToLast" (JNum 1)
               else set_property q "limitToFirst" (JNum 1)
             else mret tt) s1 = (Ok tt, s2)) as (s2 & Hq2 & Hs2).
  { subst o2. destruct force; [| by exists s1].
    assert (HF : o1 !! "limitToFirst" = o !! "limitToFirst").
    { subst o1. unfold with_default_orderBy. destruct (o !! "orderBy"); [done |].
      by rewrite lookup_insert_ne. }
    assert (HL : o1 !! "limitToLast" = o !! "limitToLast").
    { subst o1. unfold with_default_orderBy. destruct (o !! "orderBy"); [done |].
      by rewrite lookup_insert_ne. }
    erewrite bind_ok by (by apply hasOwnProperty_run).
    erewrite bind_ok by (by apply hasOwnProperty_run).
    rewrite HF, HL. unfold spec_forced_limit.
    destruct (o !! "limitToFirst"), (o !! "limitToLast"); simpl;
      (eexists; split; [| by apply set_property_run]); simpl; by rewrite lookup_insert_eq. }
  erewrite bind_ok by exact Hs2.
  exists s2. split; [| done]. by apply apply_filters_run.
Qed.

Lemma strict_eq_str_decide (v : JsValue) (lit : string) :
  strict_eq_str v lit = bool_decide (v = JStr lit).
Proof.
  destruct v as [| |b|n|s]; simpl; try done.
  destruct (String.eqb_spec s lit) as [->|Hne].
  - by rewrite bool_decide_eq_true_2.
  - rewrite bool_decide_eq_false_2; [done | congruence].
Qed.

(** The ordering step applies the operator the specification names. *)
Lemma apply_ordering_spec (orderBy : option JsValue) (ref : Reference) :
  apply_ordering (default (JStr "id") orderBy) ref = apply_op (spec_ordering orderBy) ref.
Proof.
  unfold apply_ordering, spec_ordering. destruct orderBy as [v|]; [| done]. simpl.
  rewrite !strict_eq_str_decide.
  repeat case_decide; repeat case_bool_decide; congruence.
Qed.

Lemma call_query_method_ops (type : string) (v : JsValue) (ref : Reference) :
  ∃ ops, ref_query (call_query_method type v ref) = ref_query ref ++ ops
         ∧ forallb (λ op, negb (is_ordering op)) ops = true.
Proof.
  unfold call_query_method.
  repeat (case (String.eqb _ _); [by eexists [_] |]).
  exists []. by rewrite app_nil_r.
Qed.

(** The closing [forEach] adds range and limit operators only. *)
Lemma foldl_filter_step_ops (o : JsObject) (types : list string) (ref : Reference) :
  ∃ ops, ref_query (foldl (filter_step o) ref types) = ref_query ref ++ ops
         ∧ forallb (λ op, negb (is_ordering op)) ops = true.
Proof.
  revert ref. induction types as [|type types IH]; intros ref; simpl.
  - exists []. by rewrite app_nil_r.
  - destruct (IH (filter_step o ref type)) as (ops & -> & Hops).
    unfold filter_step. destruct (o !! type) as [v|].
    + destruct (call_query_method_ops type v ref) as (ops' & -> & Hops').
      exists (ops' ++ ops). rewrite app_assoc. split; [done |].
      rewrite forallb_app. by rewrite Hops, Hops'.
    + by exists ops.
Qed.

(** C7. For every descriptor held at [q], [_setupQuerySortingAndFiltering]
    applies exactly one ordering operator to the reference, before any range
    or limit operator: [orderByKey] when [orderBy] is absent or ['id'],
    [orderByValue] when it is ['.value'], [orderByChild(orderBy)] otherwise;
    and the descriptor at [q] afterwards holds the [orderBy] it had, or
    ['id'] when it had none. *)
Theorem query_ordering
    (ref : Reference) (q : nat) (force : bool) (s : State) (o : JsObject) :
  objects s !! q = Some o →
  ∃ ref' filters,
    eval (_setupQuerySortingAndFiltering ref q force) s = Ok ref'
    ∧ ref_query ref' = ref_query ref ++ spec_ordering (o !! "orderBy") :: filters
    ∧ forallb (λ op, negb (is_ordering op)) filters = true
    ∧ (objects (exec (_setupQuerySortingAndFiltering ref q force) s) !! q) ≫= (.!! "orderBy")
        = Some (default (JStr "id") (o !! "orderBy")).
Proof.
  intros Hq.
  destruct (setupQuerySortingAndFiltering_run ref q force s o Hq) as (s' & Hrun & Hq').
  unfold eval, exec. rewrite Hrun. cbn [fst snd].
  rewrite apply_ordering_spec.
  destruct (foldl_filter_step_ops
              (if force then <[spec_forced_limit o := JNum 1]> (with_default_orderBy o)
               else with_default_orderBy o)
              ["startAt"; "endAt"; "equalTo"; "limitToFirst"; "limitToLast"]
              (apply_op (spec_ordering (o !! "orderBy")) ref)) as (ops & Hops & Hno).
  eexists _, ops. split; [done |]. split; [| split; [done |]].
  - rewrite Hops. cbn [apply_op ref_query]. by rewrite <- app_assoc.
  - rewrite Hq'. cbn [mbind option_bind].
    assert (Hd : with_default_orderBy o !! "orderBy" = Some (default (JStr "id") (o !! "orderBy"))).
    { unfold with_default_orderBy. destruct (o !! "orderBy") eqn:Hob; simpl; [done |].
      by rewrite lookup_insert_eq. }
    destruct force; [| done].
    rewrite lookup_insert_ne; [done |].
    unfold spec_forced_limit. by destruct (o !! "limitToFirst"), (o !! "limitToLast").
Qed.

(** A descriptor without [orderBy] gets key ordering, and ['id'] is
    recorded in it. *)
Lemma query_ordering_witness :
  let s := init None {[ 0 := ∅ ]} ∅ in
  let ref := firebase_child (Collaborators := example_env) "posts/" in
  objects s !! 0 = Some ∅
  ∧ ∃ ref' filters,
      eval (_setupQuerySortingAndFiltering ref 0 false) s = Ok ref'
      ∧ ref_query ref' = ref_query ref ++ spec_ordering ((∅ : JsObject) !! "orderBy") :: filters
      ∧ forallb (λ op, negb (is_ordering op)) filters = true
      ∧ (objects (exec (_setupQuerySortingAndFiltering ref 0 false) s) !! 0)
          ≫= (.!! "orderBy") = Some (default (JStr "id") ((∅ : JsObject) !! "orderBy")).
Proof.
  intros s ref. split; [reflexivity | apply query_ordering; reflexivity].
Defined.

(** C2. For every descriptor held at [q], [_setupQuerySortingAndFiltering]
    with [isForcingLimitToOne] set leaves at [q] the descriptor (with its
    [orderBy] default) in which exactly one limit was assigned 1:
    [limitToLast] when the descriptor had [limitToLast] and no
    [limitToFirst], [limitToFirst] otherwise; in the first case no
    [limitToFirst] appears, and an existing [limitToLast] next to a
    [limitToFirst] keeps its value. *)
Theorem forced_single_result
    (ref : Reference) (q : nat) (s : State) (o : JsObject) :
  objects s !! q = Some o →
  ∃ o', objects (exec (_setupQuerySortingAndFiltering ref q true) s) !! q = Some o'
    ∧ o' = <[spec_forced_limit o := JNum 1]> (with_default_orderBy o)
    ∧ (o !! "limitToFirst" = None → o !! "limitToLast" = None →
       o' !! "limitToFirst" = Some (JNum 1) ∧ o' !! "limitToLast" = None)
    ∧ (o !! "limitToFirst" = None → is_Some (o !! "limitToLast") →
       o' !! "limitToLast" = Some (JNum 1) ∧ o' !! "limitToFirst" = None)
    ∧ (is_Some (o !! "limitToFirst") →
       o' !! "limitToFirst" = Some (JNum 1) ∧ o' !! "limitToLast" = o !! "limitToLast").
Proof.
  intros Hq.
  destruct (setupQuerySortingAndFiltering_run ref q true s o Hq) as (s' & Hrun & Hq').
  unfold exec. rewrite Hrun. simpl. eexists. split; [exact Hq' |]. split; [done |].
  assert (HF : with_default_orderBy o !! "limitToFirst" = o !! "limitToFirst").
  { unfold with_default_orderBy. destruct (o !! "orderBy"); [done |].
    by rewrite lookup_insert_ne. }
  assert (HL : with_default_orderBy o !! "limitToLast" = o !! "limitToLast").
  { unfold with_default_orderBy. destruct (o !! "orderBy"); [done |].
    by rewrite lookup_insert_ne. }
  unfold spec_forced_limit. split; [| split].
  - intros HF' HL'. rewrite HF', HL'. split.
    + by rewrite lookup_insert_eq.
    + rewrite lookup_insert_ne by done. by rewrite HL, HL'.
  - intros HF' [v HL']. rewrite HF', HL'. split.
    + by rewrite lookup_insert_eq.
    + rewrite lookup_insert_ne by done. by rewrite HF.
  - intros [v HF']. rewrite HF'. split.
    + by rewrite lookup_insert_eq.
    + rewrite lookup_insert_ne by done. done.
Qed.

(** A descriptor with [limitToLast = 5] ends with [limitToLast = 1] and
    without [limitToFirst]. *)
Lemma forced_single_result_witness :
  let s := init None {[ 0 := {[ "limitToLast" := JNum 5 ]} ]} ∅ in
  let ref := firebase_child (Collaborators := example_env) "posts/" in
  objects s !! 0 = Some {[ "limitToLast" := JNum 5 ]}
  ∧ ∃ o', objects (exec (_setupQuerySortingAndFiltering ref 0 true) s) !! 0
            = Some o'
      ∧ o' !! "limitToLast" = Some (JNum 1) ∧ o' !! "limitToFirst" = None.
Proof.
  intros s ref.
  assert (Hq : objects s !! 0 = Some ({[ "limitToLast" := JNum 5 ]} : JsObject))
    by reflexivity.
  split; [exact Hq |].
  destruct (forced_single_result ref 0 s _ Hq)
    as (o' & Ho' & _ & _ & Hlast & _).
  exists o'. split; [exact Ho' |]. apply Hlast; [reflexivity | by eexists].
Defined.

(** ** Later states *)

Lemma later_refl (s : State) : later s s.
Proof. split; [exists []; by rewrite app_nil_r | done]. Qed.

Lemma later_trans (s1 s2 s3 : State) : later s1 s2 → later s2 s3 → later s1 s3.
Proof.
  intros [[t1 Ht1] Hp1] [[t2 Ht2] Hp2]. split.
  - exists (t1 ++ t2). by rewrite Ht2, Ht1, app_assoc.
  - eauto.
Qed.

Lemma later_same (s s' : State) :
  trace s' = trace s → promises s' = promises s → later s s'.
Proof. intros Ht Hp. split; [exists []; by rewrite app_nil_r | by rewrite Hp]. Qed.

Lemma monotone_ret {A} (a : A) : monotone (mret a).
Proof. intros s. apply later_refl. Qed.

Lemma monotone_bind {A B} (m : M A) (f : A → M B) :
  monotone m → (∀ a, monotone (f a)) → monotone (m ≫= f).
Proof.
  intros Hm Hf s. specialize (Hm s). unfold mbind, M_bind.
  destruct (m s) as [[a|e] s']; simpl in *; [| done].
  eapply later_trans; [exact Hm | apply Hf].
Qed.

Lemma monotone_get : monotone get.
Proof. intros s. apply later_refl. Qed.

Lemma monotone_throw {A} (e : string) : monotone (throw (A := A) e).
Proof. intros s. apply later_refl. Qed.

Lemma monotone_modify (f : State → State) :
  (∀ s, trace (f s) = trace s) → (∀ s, promises (f s) = promises s) →
  monotone (modify f).
Proof.
  intros Ht Hp s. split; simpl.
  - exists []. by rewrite app_nil_r.
  - intros p st. by rewrite Hp.
Qed.

Lemma monotone_emit (e : Event) : monotone (emit e).
Proof. intros s. split; simpl; [by exists [e] | done]. Qed.

Lemma monotone_new_promise : monotone new_promise.
Proof.
  intros s. split; simpl.
  - exists []. by rewrite app_nil_r.
  - intros p st Hp _. apply lookup_app_l_Some. done.
Qed.

Lemma monotone_settle (p : nat) (st : PromiseState) : monotone (settle p st).
Proof.
  intros s. split; simpl.
  - exists []. by rewrite app_nil_r.
  - intros p' st' Hp' Hst'.
    destruct (promises s !! p) as [[| |]|] eqn:Hp; try done.
    rewrite list_lookup_insert_ne; [done |].
    intros ->. rewrite Hp in Hp'. by injection Hp' as <-.
Qed.

Lemma monotone_guarded (m : M unit) : monotone m → monotone (guarded m).
Proof. intros Hm s. apply Hm. Qed.

Lemma monotone_try_catch (m : M unit) (h : string → M unit) :
  monotone m → (∀ e, monotone (h e)) → monotone (try_catch m h).
Proof.
  intros Hm Hh s. specialize (Hm s). unfold try_catch.
  destruct (m s) as [[a|e] s']; simpl in *; [done |].
  eapply later_trans; [exact Hm | apply Hh].
Qed.

Lemma monotone_for_each {A} (l : list A) (f : A → M unit) :
  (∀ x, monotone (f x)) → monotone (for_each l f).
Proof.
  intros Hf. induction l as [|x l IH]; simpl.
  - apply monotone_ret.
  - apply monotone_bind; [apply Hf | by intros _].
Qed.

Lemma monotone_map_m {A B} (f : A → M B) (l : list A) :
  (∀ x, monotone (f x)) → monotone (map_m f l).
Proof.
  intros Hf. induction l as [|x l IH]; simpl.
  - apply monotone_ret.
  - apply monotone_bind; [apply Hf | intros y].
    apply monotone_bind; [apply IH | intros ys]. apply monotone_ret.
Qed.

Create HintDb mono.

#[local] Hint Resolve monotone_ret monotone_get monotone_throw monotone_emit
  monotone_new_promise monotone_settle : mono.

(** Structural steps of a monotonicity proof. *)
Ltac mono_step :=
  lazymatch goal with
  | |- monotone (mret _) => apply monotone_ret
  | |- monotone (mbind _ _) => apply monotone_bind; [| intros ?]
  | |- monotone (modify _) => apply monotone_modify; intros ?; reflexivity
  | |- monotone (guarded _) => apply monotone_guarded
  | |- monotone (try_catch _ _) => apply monotone_try_catch; [| intros ?]
  | |- monotone (for_each _ _) => apply monotone_for_each; intros ?
  | |- monotone (map_m _ _) => apply monotone_map_m; intros ?
  | |- monotone (if ?b then _ else _) => destruct b
  | |- monotone (match ?x with _ => _ end) => destruct x
  | |- _ => solve [eauto with mono]
  end.

Ltac mono := repeat mono_step.

(** The primitives and the methods of the adapter are monotone. *)
Lemma monotone_resolve p v : monotone (resolve p v).
Proof. unfold resolve. mono. Qed.

Lemma monotone_reject p e : monotone (reject p e).
Proof. unfold reject. mono. Qed.

Lemma monotone_ref_on ref type cb : monotone (ref_on ref type cb).
Proof. unfold ref_on. mono. Qed.

Lemma monotone_ref_off ref type cb : monotone (ref_off ref type cb).
Proof. unfold ref_off. mono. Qed.

Lemma monotone_firebase_update f d : monotone (firebase_update f d).
Proof. unfold firebase_update. mono. Qed.

Lemma monotone_new_closure : monotone new_closure.
Proof. intros s. by apply later_same. Qed.

Lemma monotone_hasOwnProperty q k : monotone (hasOwnProperty q k).
Proof. unfold hasOwnProperty. mono. Qed.

Lemma monotone_get_property q k : monotone (get_property q k).
Proof. unfold get_property. mono. Qed.

Lemma monotone_set_property q k v : monotone (set_property q k v).
Proof. unfold set_property. mono. Qed.

Lemma monotone_new_Promise executor :
  (∀ p, monotone (executor p)) → monotone (new_Promise executor).
Proof. intros He. unfold new_Promise. mono. Qed.

#[local] Hint Resolve monotone_resolve monotone_reject monotone_ref_on monotone_ref_off
  monotone_firebase_update monotone_new_closure monotone_hasOwnProperty
  monotone_get_property monotone_set_property : mono.

Section Monotone.
Context {env : Collaborators}.

Lemma monotone_isInFastBoot : monotone isInFastBoot.
Proof. unfold isInFastBoot. mono. Qed.

Lemma monotone_isTrackingRecordChanges m id : monotone (isTrackingRecordChanges m id).
Proof. unfold isTrackingRecordChanges. mono. Qed.

Lemma monotone_trackRecord m id ref : monotone (trackRecord m id ref).
Proof. unfold trackRecord. mono. Qed.

Lemma monotone_mergeSnapshotIdAndValue snapshot : monotone (mergeSnapshotIdAndValue snapshot).
Proof. unfold mergeSnapshotIdAndValue. cbv zeta. mono. Qed.

Lemma monotone_unloadRecord m id : monotone (unloadRecord m id).
Proof. unfold unloadRecord. mono. Qed.

#[local] Hint Resolve monotone_isInFastBoot monotone_isTrackingRecordChanges monotone_trackRecord
  monotone_mergeSnapshotIdAndValue monotone_unloadRecord : mono.

Lemma monotone_listenForRecordChanges m id ref : monotone (listenForRecordChanges m id ref).
Proof. unfold listenForRecordChanges. mono. Qed.

Lemma monotone_updateRecord m snapshot : monotone (updateRecord m snapshot).
Proof. unfold updateRecord. apply monotone_new_Promise. intros p. mono. Qed.

Lemma monotone_findRecord m id ao : monotone (findRecord m id ao).
Proof. unfold findRecord. apply monotone_new_Promise. intros p. mono. Qed.

Lemma monotone_deleteRecord m snapshot : monotone (deleteRecord m snapshot).
Proof. unfold deleteRecord. apply monotone_new_Promise. intros p. mono. Qed.

Lemma monotone_apply_filters types q ref : monotone (apply_filters types q ref).
Proof. revert ref. induction types as [|t types IH]; intros ref; simpl; mono. Qed.

#[local] Hint Resolve monotone_listenForRecordChanges monotone_updateRecord monotone_findRecord
  monotone_deleteRecord monotone_apply_filters : mono.

Lemma monotone_setupQuerySortingAndFiltering ref q force :
  monotone (_setupQuerySortingAndFiltering ref q force).
Proof. unfold _setupQuerySortingAndFiltering. mono. Qed.

Lemma monotone_extensions_off ext : monotone (extensions_off ext).
Proof. unfold extensions_off. mono. Qed.

Lemma monotone_setupRecordExtensions ra ref a r : monotone (_setupRecordExtensions ra ref a r).
Proof. unfold _setupRecordExtensions. mono. Qed.

#[local] Hint Resolve monotone_setupQuerySortingAndFiltering monotone_extensions_off
  monotone_setupRecordExtensions : mono.

Lemma monotone_setupQueryListListener m rp ra ref : monotone (_setupQueryListListener m rp ra ref).
Proof. unfold _setupQueryListListener. mono. Qed.

Lemma monotone_trackQuery c ra : monotone (_trackQuery c ra).
Proof. unfold _trackQuery. mono. Qed.

#[local] Hint Resolve monotone_setupQueryListListener monotone_trackQuery : mono.

Lemma monotone_query m q ra : monotone (query m q ra).
Proof. unfold query. apply monotone_new_Promise. intros p. mono. Qed.

Lemma monotone_query_then j records : monotone (query_then j records).
Proof. unfold query_then. mono. Qed.

Lemma monotone_query_catch j e : monotone (query_catch j e).
Proof. unfold query_catch. mono. Qed.

#[local] Hint Resolve monotone_query monotone_query_then monotone_query_catch : mono.

Lemma monotone_run_callback cb snapshot : monotone (run_callback cb snapshot).
Proof. unfold run_callback. mono. Qed.

Lemma monotone_run_cancel_callback cb e : monotone (run_cancel_callback cb e).
Proof. unfold run_cancel_callback. mono. Qed.

Lemma monotone_run_update_callback d e : monotone (run_update_callback d e).
Proof. unfold run_update_callback. mono. Qed.

#[local] Hint Resolve monotone_run_callback monotone_run_cancel_callback monotone_run_update_callback : mono.

Lemma monotone_deliver snapshot l : monotone (deliver snapshot l).
Proof. unfold deliver. mono. Qed.

#[local] Hint Resolve monotone_deliver : mono.

Lemma monotone_step a : monotone (step a).
Proof. unfold step, createRecord, firebase_event, firebase_cancel, rsvp_all. mono. Qed.

(** Every history leads to a later state. *)
Lemma run_later actions s : later s (run actions s).
Proof.
  revert s. induction actions as [|a actions IH]; intros s; simpl.
  - apply later_refl.
  - eapply later_trans; [apply monotone_step | apply IH].
Qed.
End Monotone.

(** ** C8 and C10: finding a record *)

(** [isTrackingRecordChanges] answers or throws, and changes nothing. *)
Lemma isTrackingRecordChanges_pure (m id : string) (s : State) :
  ∃ r, isTrackingRecordChanges m id s = (r, s) ∧ (r = Throw "TypeError" ∨ ∃ b, r = Ok b).
Proof.
  unfold isTrackingRecordChanges. mrun.
  repeat case_match; eexists; (split; [reflexivity |]); eauto.
Qed.

(** What [listenForRecordChanges] does to the state. *)
Lemma listenForRecordChanges_run (m id : string) (ref : Reference) (s : State) :
  ∃ s', listenForRecordChanges m id ref s =
          (if tracking_fails s m id then Throw "TypeError" else Ok tt, s')
    ∧ promises s' = promises s
    ∧ innerReferencePathName s' = innerReferencePathName s
    ∧ trace s' = trace s ++
        (if attaches_listener s m id
         then [FbOn ref Value (OnValue_recordChanges (next_closure s) m id)] else [])
    ∧ listeners s' = listeners s ++
        (if attaches_listener s m id
         then [{| l_ref := ref; l_event := Value;
                  l_callback := OnValue_recordChanges (next_closure s) m id |}] else []).
Proof.
  destruct (isTrackingRecordChanges_pure m id s) as (r & Hrun & Hr).
  assert (Hfb : isInFastBoot s =
                (Ok (match fastboot s with Some b => b | None => false end), s))
    by reflexivity.
  unfold attaches_listener, tracking_fails, eval, listenForRecordChanges.
  erewrite bind_ok by exact Hfb. rewrite Hfb, Hrun. cbn [fst].
  destruct (match fastboot s with Some b => b | None => false end); cbn [negb].
  { exists s. split; [reflexivity |]. by rewrite !app_nil_r. }
  unfold mbind at 1, M_bind. rewrite Hrun.
  destruct Hr as [-> | [[|] ->]]; cbn [negb].
  - exists s. split; [reflexivity |]. by rewrite !app_nil_r.
  - exists s. split; [reflexivity |]. by rewrite !app_nil_r.
  - erewrite bind_ok by apply trackRecord_run.
    eexists. split; [reflexivity |]. simpl. done.
Qed.

(** The outcome of the tracking check depends on the FastBoot service and
    on the registry only. *)
Lemma tracking_check_ext (s s' : State) (m id : string) :
  fastboot s' = fastboot s → trackedRecords s' = trackedRecords s →
  tracking_fails s' m id = tracking_fails s m id
  ∧ attaches_listener s' m id = attaches_listener s m id.
Proof.
  intros Hf Hr.
  unfold tracking_fails, attaches_listener, eval, isInFastBoot, isTrackingRecordChanges.
  mrun. rewrite Hf, Hr.
  destruct (has_own (trackedRecords s) "hasOwnProperty" || _); [done |].
  destruct (has_own (trackedRecords s) m); [| done].
  destruct (trackedRecords s !! m) as [ids|]; [| done].
  by destruct (has_own ids "hasOwnProperty").
Qed.

Lemma tracking_fails_set_trace (f : list Event → list Event) (s : State) (m id : string) :
  tracking_fails (set_trace f s) m id = tracking_fails s m id.
Proof. by apply tracking_check_ext. Qed.

Lemma attaches_listener_set_trace (f : list Event → list Event) (s : State) (m id : string) :
  attaches_listener (set_trace f s) m id = attaches_listener s m id.
Proof. by apply tracking_check_ext. Qed.

(** Where [hasOwnProperty] can be called on the registry and on the records
    of the model, [listenForRecordChanges] does not throw. *)
Lemma tracking_fails_intact (s : State) (m id : string) :
  registry_intact s = true → records_intact s m = true → tracking_fails s m id = false.
Proof.
  intros Hs Hr. unfold tracking_fails, eval.
  rewrite isTrackingRecordChanges_run by done. unfold isInFastBoot. mrun.
  by destruct (fastboot s) as [[|]|].
Qed.

Section C8.
Context {env : Collaborators}.

(** What a [findRecord] invocation does at once. *)
Lemma findRecord_run (modelName id : string) (ao : option AdapterOptions) (s : State) :
  let p := length (promises s) in
  let ref := buildFirebaseReference (buildPath modelName id ao) in
  let l := {| l_ref := ref; l_event := Value;
              l_callback := OnValue_findRecord p modelName id ref |} in
  findRecord modelName id ao s =
    (Ok p, set_listeners (λ ls, ls ++ [l])
             (set_trace (λ t, t ++ [FbOn ref Value (l_callback l)])
                (set_promises (λ ps, ps ++ [Pending]) s))).
Proof. reflexivity. Qed.

(** The one-shot callback of [findRecord] on a snapshot of an object, when
    the tracking check does not throw. *)
Lemma deliver_found (p : nat) (modelName id : string) (ref : Reference)
    (s : State) (snapshot : DataSnapshot) (o : JsObject) :
  let onValue := OnValue_findRecord p modelName id ref in
  let l := {| l_ref := ref; l_event := Value; l_callback := onValue |} in
  snap_val snapshot = NodeObject o →
  tracking_fails s modelName id = false →
  ∃ payload s',
    eval (mergeSnapshotIdAndValue snapshot) s = Ok payload
    ∧ deliver snapshot l s = (Ok tt, s')
    ∧ trace s' = trace s ++ [Invoked onValue] ++
        (if attaches_listener s modelName id
         then [FbOn ref Value (OnValue_recordChanges (next_closure s) modelName id)] else []) ++
        [FbOff ref Value (Some onValue); Resolve p (RecordPayload payload)]
    ∧ listeners s' =
        List.filter (λ x, negb (listener_matches ref Value (Some onValue) x))
          (listeners s ++
             (if attaches_listener s modelName id
              then [{| l_ref := ref; l_event := Value;
                       l_callback := OnValue_recordChanges (next_closure s) modelName id |}]
              else []))
    ∧ (promises s !! p = Some Pending →
       promises s' !! p = Some (Fulfilled (RecordPayload payload))).
Proof.
  intros onValue l Hval Hsafe. subst l onValue.
  unfold deliver, run_callback, snap_exists, mergeSnapshotIdAndValue. simpl l_callback.
  rewrite Hval. cbv zeta. mrun.
  destruct (listenForRecordChanges_run modelName id ref
              (set_trace (λ t, t ++ [Invoked (OnValue_findRecord p modelName id ref)]) s))
    as (s1 & Hrun & Hp & Hn & Ht & Hl).
  rewrite tracking_fails_set_trace, Hsafe in Hrun.
  rewrite Hrun. cbn -[List.filter listener_matches].
  eexists _, _. split; [reflexivity |]. split; [reflexivity |].
  cbn -[List.filter listener_matches].
  rewrite Hn, Ht, Hl, Hp. cbn -[List.filter listener_matches].
  rewrite attaches_listener_set_trace.
  split; [by rewrite <- !app_assoc |]. split; [done |].
  intros Hpend. rewrite Hpend. apply list_lookup_insert_eq. by eapply lookup_lt_Some.
Qed.

(** The one-shot callback of [findRecord] on a snapshot of nothing. *)
Lemma deliver_not_found (p : nat) (modelName id : string) (ref : Reference)
    (s : State) (snapshot : DataSnapshot) :
  let onValue := OnValue_findRecord p modelName id ref in
  let l := {| l_ref := ref; l_event := Value; l_callback := onValue |} in
  let e := {| message := "Record " +:+ id +:+ " for type " +:+ modelName +:+ " not found" |} in
  snap_exists snapshot = false →
  ∃ s', deliver snapshot l s = (Ok tt, s')
    ∧ trace s' = trace s ++ [Invoked onValue; Reject p e]
    ∧ listeners s' = listeners s
    ∧ (promises s !! p = Some Pending → promises s' !! p = Some (Rejected e)).
Proof.
  intros onValue l e Hex. subst l onValue e.
  unfold deliver, run_callback. simpl l_callback. rewrite Hex. mrun.
  eexists. split; [reflexivity |]. simpl.
  split; [by rewrite <- app_assoc |]. split; [done |].
  intros Hpend. rewrite Hpend. apply list_lookup_insert_eq. by eapply lookup_lt_Some.
Qed.

(** The one-shot callback of [findRecord] on a snapshot of a leaf: the
    normalizer throws after the listener work is done, and the promise is
    left as it was. *)
Lemma deliver_leaf (p : nat) (modelName id : string) (ref : Reference)
    (s : State) (snapshot : DataSnapshot) (v : JsValue) :
  snap_val snapshot = NodeLeaf v →
  promises (exec (deliver snapshot
                    {| l_ref := ref; l_event := Value;
                       l_callback := OnValue_findRecord p modelName id ref |}) s) =
    promises s.
Proof.
  intros Hval.
  unfold deliver, run_callback, snap_exists, mergeSnapshotIdAndValue. simpl l_callback.
  rewrite Hval. cbv zeta. mrun.
  destruct (listenForRecordChanges_run modelName id ref
              (set_trace (λ t, t ++ [Invoked (OnValue_findRecord p modelName id ref)]) s))
    as (s1 & Hrun & Hp & _).
  rewrite Hrun. by destruct (tracking_fails _ modelName id).
Qed.

(** The cancel callback of [findRecord]. *)
Lemma cancel_findRecord (p : nat) (modelName id : string) (ref : Reference)
    (s : State) (error : string) :
  promises s !! p = Some Pending →
  promises (exec (run_cancel_callback (OnValue_findRecord p modelName id ref) error) s) !! p =
    Some (Rejected {| message := error |}).
Proof.
  intros Hpend. unfold run_cancel_callback. mrun. simpl.
  rewrite Hpend. apply list_lookup_insert_eq. by eapply lookup_lt_Some.
Qed.

(** [off] leaves no registration of the callback at the reference. *)
Lemma filter_not_matching (ref : Reference) (type : EventType) (cb : Callback)
    (ls : list Listener) :
  ¬ In {| l_ref := ref; l_event := type; l_callback := cb |}
      (List.filter (λ x, negb (listener_matches ref type (Some cb) x)) ls).
Proof.
  intros [_ Hm]%filter_In. unfold listener_matches in Hm. simpl in Hm.
  by rewrite !bool_decide_eq_true_2 in Hm.
Qed.

(** C8. A [findRecord] invocation returns a fresh pending promise [p] and
    attaches its one-shot [value] callback. From any later state in which
    [p] is still pending: when the callback receives a snapshot of a node
    whose value is an object, and the tracking check does not throw,
    [listenForRecordChanges] runs first, attaching the continuous listener
    unless the adapter is in FastBoot or the record is already tracked,
    then the one-shot callback is detached, then [p] is resolved with the
    normalized payload; when it receives a snapshot of a node whose value
    is no object, [p] is left as it was; when it receives a snapshot of a
    missing node, [p] is rejected with the error naming the id and the
    model; when the remote call is cancelled with an error, [p] is rejected
    with an error carrying it. Once [p] is settled no history of adapter
    calls and callbacks changes it. *)
Theorem findRecord_settles_once
    (modelName id : string) (ao : option AdapterOptions) (s : State) :
  let p := length (promises s) in
  let ref := buildFirebaseReference (buildPath modelName id ao) in
  let onValue := OnValue_findRecord p modelName id ref in
  let l := {| l_ref := ref; l_event := Value; l_callback := onValue |} in
  let s1 := exec (findRecord modelName id ao) s in
  (eval (findRecord modelName id ao) s = Ok p
   ∧ promises s1 !! p = Some Pending
   ∧ listeners s1 = listeners s ++ [l])
  ∧ (∀ s2 snapshot o,
       promises s2 !! p = Some Pending → snap_val snapshot = NodeObject o →
       tracking_fails s2 modelName id = false →
       let s3 := exec (deliver snapshot l) s2 in
       let attached :=
         if attaches_listener s2 modelName id
         then [OnValue_recordChanges (next_closure s2) modelName id] else [] in
       ∃ payload,
         eval (mergeSnapshotIdAndValue snapshot) s2 = Ok payload
         ∧ trace s3 = trace s2 ++ [Invoked onValue] ++ map (FbOn ref Value) attached ++
                        [FbOff ref Value (Some onValue); Resolve p (RecordPayload payload)]
         ∧ (∀ cb, In cb attached →
              In {| l_ref := ref; l_event := Value; l_callback := cb |} (listeners s3))
         ∧ ¬ In l (listeners s3)
         ∧ promises s3 !! p = Some (Fulfilled (RecordPayload payload)))
  ∧ (∀ s2 snapshot v,
       snap_val snapshot = NodeLeaf v →
       promises (exec (deliver snapshot l) s2) = promises s2)
  ∧ (∀ s2 snapshot,
       promises s2 !! p = Some Pending → snap_val snapshot = NodeAbsent →
       promises (exec (deliver snapshot l) s2) !! p =
         Some (Rejected {| message := "Record " +:+ id +:+ " for type " +:+ modelName +:+
                                        " not found" |}))
  ∧ (∀ s2 error,
       promises s2 !! p = Some Pending →
       promises (exec (run_cancel_callback onValue error) s2) !! p =
         Some (Rejected {| message := error |}))
  ∧ (∀ s3 st actions,
       promises s3 !! p = Some st → settled st = true →
       promises (run actions s3) !! p = Some st).
Proof.
  intros p ref onValue l s1. subst l onValue.
  split; [| split; [| split; [| split; [| split]]]].
  - subst s1. unfold exec, eval. rewrite findRecord_run. simpl.
    split; [done |]. split; [| done]. apply list_lookup_middle. done.
  - intros s2 snapshot o Hpend Hval Hsafe s3 attached.
    destruct (deliver_found p modelName id ref s2 snapshot o Hval Hsafe)
      as (payload & s' & Hpayload & Hrun & Ht & Hl & Hp).
    subst s3. unfold exec. rewrite Hrun. simpl.
    exists payload. split; [done |]. split; [| split; [| split]].
    + rewrite Ht. subst attached. by destruct (attaches_listener s2 modelName id).
    + intros cb Hcb. rewrite Hl. apply filter_In. split.
      * apply in_or_app. right. subst attached.
        destruct (attaches_listener s2 modelName id); [| done].
        destruct Hcb as [<-|[]]. by left.
      * subst attached. destruct (attaches_listener s2 modelName id); [| done].
        destruct Hcb as [<-|[]]. unfold listener_matches. simpl.
        by rewrite andb_false_r.
    + rewrite Hl. apply filter_not_matching.
    + by apply Hp.
  - intros s2 snapshot v Hval. by eapply deliver_leaf.
  - intros s2 snapshot Hpend Hval.
    destruct (deliver_not_found p modelName id ref s2 snapshot) as (s' & Hrun & _ & _ & Hp).
    { unfold snap_exists. by rewrite Hval. }
    unfold exec. rewrite Hrun. by apply Hp.
  - intros s2 error Hpend. by apply cancel_findRecord.
  - intros s3 st actions Hst Hsettled. by apply (run_later actions s3).
Qed.
End C8.

Section C10.
Context {env : Collaborators}.

(** Delivering an event never throws, and starts by invoking the callback. *)
Lemma deliver_invokes (snapshot : DataSnapshot) (l : Listener) (s : State) :
  ∃ s', deliver snapshot l s = (Ok tt, s')
        ∧ ∃ t, trace s' = trace s ++ Invoked (l_callback l) :: t.
Proof.
  exists (run_callback (l_callback l) snapshot
            (set_trace (λ t, t ++ [Invoked (l_callback l)]) s)).2.
  split; [reflexivity |].
  destruct (monotone_run_callback (l_callback l) snapshot
              (set_trace (λ t, t ++ [Invoked (l_callback l)]) s)) as [[t Ht] _].
  exists t. rewrite Ht. simpl. by rewrite <- app_assoc.
Qed.

(** An event delivered to a list of listeners invokes each of them. *)
Lemma for_each_deliver_invokes (snapshot : DataSnapshot) (ls : list Listener)
    (l : Listener) (s : State) :
  In l ls →
  ∃ before after,
    trace (exec (for_each ls (deliver snapshot)) s) =
      trace s ++ before ++ Invoked (l_callback l) :: after.
Proof.
  revert s. induction ls as [|x ls IH]; intros s; [done |].
  intros Hin. simpl for_each. unfold exec.
  destruct (deliver_invokes snapshot x s) as (s1 & Hrun & t1 & Ht1).
  erewrite bind_ok by exact Hrun.
  destruct Hin as [->|Hin].
  - destruct (monotone_for_each ls (deliver snapshot) (monotone_deliver snapshot) s1)
      as [[t2 Ht2] _].
    exists [], (t1 ++ t2). rewrite Ht2, Ht1. simpl. by rewrite <- app_assoc.
  - destruct (IH s1 Hin) as (before & after & Ht).
    exists (Invoked (l_callback x) :: t1 ++ before), after.
    unfold exec in Ht. rewrite Ht, Ht1. rewrite <- !app_assoc. simpl.
    by rewrite <- !app_assoc.
Qed.

(** C10. When the one-shot callback of a pending [findRecord] receives a
    snapshot of a missing node, the promise is rejected and nothing else
    happens: no [off] is called, the callback is still among the listeners
    of the reference, and any later [value] event raised there invokes it
    again. *)
Theorem findRecord_not_found_keeps_listener
    (modelName id : string) (ref : Reference) (p : nat) (s : State)
    (snapshot : DataSnapshot) :
  let onValue := OnValue_findRecord p modelName id ref in
  let l := {| l_ref := ref; l_event := Value; l_callback := onValue |} in
  let e := {| message := "Record " +:+ id +:+ " for type " +:+ modelName +:+ " not found" |} in
  In l (listeners s) →
  promises s !! p = Some Pending →
  snap_exists snapshot = false →
  let s' := exec (deliver snapshot l) s in
  promises s' !! p = Some (Rejected e)
  ∧ trace s' = trace s ++ [Invoked onValue; Reject p e]
  ∧ listeners s' = listeners s
  ∧ In l (listeners s')
  ∧ ∀ snapshot', ∃ before after,
      trace (exec (firebase_event ref Value snapshot') s') =
        trace s' ++ before ++ Invoked onValue :: after.
Proof.
  intros onValue l e Hin Hpend Hex s'.
  destruct (deliver_not_found p modelName id ref s snapshot Hex) as (s1 & Hrun & Ht & Hl & Hp).
  assert (Hs' : s' = s1) by (subst s' l onValue; unfold exec; by rewrite Hrun).
  clearbody s'. subst s' l onValue e.
  split; [by apply Hp |]. split; [done |]. split; [done |]. split; [by rewrite Hl |].
  intros snapshot'. unfold firebase_event.
  change (exec (s ← get; for_each (List.filter (listener_matches ref Value None) (listeners s))
                          (deliver snapshot')) s1)
    with (exec (for_each (List.filter (listener_matches ref Value None) (listeners s1))
                  (deliver snapshot')) s1).
  apply (for_each_deliver_invokes snapshot' _
           {| l_ref := ref; l_event := Value;
              l_callback := OnValue_findRecord p modelName id ref |}).
  apply filter_In. split; [by rewrite Hl |].
  unfold listener_matches. simpl. by rewrite !bool_decide_eq_true_2.
Qed.
End C10.

(** Fetching post [a] from a fresh adapter when the node is missing. *)
Lemma findRecord_not_found_keeps_listener_witness :
  let s := exec (findRecord (env := example_env) "post" "a" None) (init None ∅ ∅) in
  let l := {| l_ref := post_ref "a"; l_event := Value;
              l_callback := OnValue_findRecord 0 "post" "a" (post_ref "a") |} in
  let s' := exec (deliver (env := example_env) (snapshot_at (post_ref "a") "a" NodeAbsent) l) s in
  In l (listeners s)
  ∧ promises s !! 0 = Some Pending
  ∧ promises s' !! 0 = Some (Rejected {| message := "Record a for type post not found" |})
  ∧ In l (listeners s').
Proof.
  intros s l s'.
  assert (Hin : In l (listeners s)) by (left; reflexivity).
  assert (Hpend : promises s !! 0 = Some Pending) by reflexivity.
  destruct (findRecord_not_found_keeps_listener (env := example_env) "post" "a" (post_ref "a") 0 s
              (snapshot_at (post_ref "a") "a" NodeAbsent) Hin Hpend eq_refl)
    as (Hrej & _ & _ & Hkept & _).
  split; [exact Hin |]. split; [exact Hpend |]. split; [exact Hrej | exact Hkept].
Defined.

(** Fetching post [a] from a fresh adapter: the promise is pending after the
    call and fulfilled with the normalized payload after the snapshot. *)
Lemma findRecord_settles_once_witness :
  let s := exec (findRecord (env := example_env) "post" "a" None) (init None ∅ ∅) in
  let l := {| l_ref := post_ref "a"; l_event := Value;
              l_callback := OnValue_findRecord 0 "post" "a" (post_ref "a") |} in
  let found := snapshot_at (post_ref "a") "a" (NodeObject ∅) in
  promises s !! 0 = Some Pending
  ∧ snap_val found = NodeObject ∅
  ∧ promises (exec (deliver (env := example_env) found l) s) !! 0 =
      Some (Fulfilled (RecordPayload
              (<["_innerReferencePath" := JStr ""]> (<["id" := JStr "a"]> ∅)))).
Proof.
  intros s l found.
  assert (Hpend : promises s !! 0 = Some Pending) by reflexivity.
  split; [exact Hpend |]. split; [reflexivity |].
  destruct (findRecord_settles_once (env := example_env) "post" "a" None (init None ∅ ∅))
    as (_ & Hfound & _).
  destruct (Hfound s found ∅ Hpend eq_refl eq_refl) as (payload & Hpayload & _ & _ & _ & Hp).
  injection Hpayload as <-. exact Hp.
Defined.

(** A node that exists and whose value is no object: fetching post [a] when
    the node holds the string [x]. The continuous listener is attached and
    the one-shot callback detached, so no later event reaches it, but the
    promise is not resolved: it stays pending. *)
Lemma findRecord_of_a_leaf_never_settles :
  let s := exec (findRecord (env := example_env) "post" "a" None) (init None ∅ ∅) in
  let l := {| l_ref := post_ref "a"; l_event := Value;
              l_callback := OnValue_findRecord 0 "post" "a" (post_ref "a") |} in
  let found := snapshot_at (post_ref "a") "a" (NodeLeaf (JStr "x")) in
  let s' := exec (deliver (env := example_env) found l) s in
  snap_exists found = true
  ∧ promises s !! 0 = Some Pending
  ∧ promises s' !! 0 = Some Pending
  ∧ listeners s' = [{| l_ref := post_ref "a"; l_event := Value;
                       l_callback := OnValue_recordChanges 0 "post" "a" |}].
Proof. vm_compute. done. Qed.

(** ** C3: repeated fetches of a record *)

(** An answer of [isTrackingRecordChanges] shows that [hasOwnProperty] could
    be called on the registry. *)
Lemma isTrackingRecordChanges_Ok (m id : string) (s : State) (b : bool) :
  eval (isTrackingRecordChanges m id) s = Ok b → registry_intact s = true.
Proof.
  unfold eval, isTrackingRecordChanges, registry_intact. mrun.
  destruct (has_own (trackedRecords s) "hasOwnProperty"); [done |].
  by destruct (match trackedRecords s !! "__proto__" with
               | Some prototype => has_own prototype "hasOwnProperty"
               | None => false
               end).
Qed.

(** After [trackRecord] for ordinary names the record is tracked, and no
    other record of the model is. *)
Lemma trackRecord_tracks (m id id' : string) (ref : Reference) (s : State) :
  ordinary_name m = true → ordinary_name id = true → registry_intact s = true →
  eval (isTrackingRecordChanges m id') (exec (trackRecord m id ref) s) =
    Ok (bool_decide (id' = id)).
Proof.
  intros Hm Hid Hs.
  destruct (trackRecord_intact m id ref s Hm Hid Hs) as [Hs' Hr'].
  apply ordinary_name_spec in Hm as [Hm1 Hm2]. apply ordinary_name_spec in Hid as [Hi1 Hi2].
  unfold eval. rewrite isTrackingRecordChanges_run by done.
  unfold exec. rewrite trackRecord_run. simpl.
  rewrite lookup_insert_eq, assign_string_ordinary, has_own_ordinary by done.
  rewrite lookup_insert_eq, bool_decide_eq_true_2 by eauto. simpl. f_equal.
  unfold has_own. destruct (decide (id' = id)) as [->|Hne].
  - rewrite lookup_insert_eq, !bool_decide_eq_true_2 by eauto.
    assert (String.eqb id "__proto__" = false) as -> by (by apply String.eqb_neq). done.
  - rewrite lookup_insert_ne, lookup_empty by done.
    rewrite (bool_decide_eq_false_2 (is_Some None)) by (by intros [? ?]).
    rewrite (bool_decide_eq_false_2 (id' = id)) by done. apply andb_false_r.
Qed.

(** What [listenForRecordChanges] leaves of the FastBoot service and of the
    registry. *)
Lemma listenForRecordChanges_registry (m id : string) (ref : Reference) (s : State) :
  let s' := exec (listenForRecordChanges m id ref) s in
  fastboot s' = fastboot s
  ∧ trackedListeners s' = trackedListeners s
  ∧ trackedRecords s' =
      if attaches_listener s m id then trackedRecords (exec (trackRecord m id ref) s)
      else trackedRecords s.
Proof.
  intros s'. subst s'.
  destruct (isTrackingRecordChanges_pure m id s) as (r & Hrun & Hr).
  assert (Hfb : isInFastBoot s =
                (Ok (match fastboot s with Some b => b | None => false end), s))
    by reflexivity.
  unfold attaches_listener, eval, exec, listenForRecordChanges.
  erewrite bind_ok by exact Hfb. rewrite Hfb, Hrun. cbn [fst snd].
  destruct (match fastboot s with Some b => b | None => false end); cbn [negb]; [done |].
  destruct Hr as [-> | [[|] ->]].
  - by erewrite !bind_throw by exact Hrun.
  - by erewrite !bind_ok by exact Hrun.
  - erewrite !bind_ok by exact Hrun. cbn [negb].
    erewrite !bind_ok by apply trackRecord_run. by rewrite trackRecord_run.
Qed.

(** Right after [listenForRecordChanges] for ordinary names a second call
    for the same record attaches nothing. *)
Lemma listenForRecordChanges_idempotent (m id : string) (ref : Reference) (s : State) :
  ordinary_name m = true → ordinary_name id = true →
  attaches_listener (exec (listenForRecordChanges m id ref) s) m id = false.
Proof.
  intros Hm Hid.
  destruct (listenForRecordChanges_registry m id ref s) as (Hf & _ & Hr).
  destruct (attaches_listener s m id) eqn:Hatt.
  - assert (Hs : registry_intact s = true).
    { unfold attaches_listener in Hatt.
      destruct (eval isInFastBoot s) as [[|]|]; try done.
      destruct (eval (isTrackingRecordChanges m id) s) as [b|] eqn:Hb; [| done].
      by eapply isTrackingRecordChanges_Ok. }
    pose proof (trackRecord_tracks m id id ref s Hm Hid Hs) as Ht.
    rewrite bool_decide_eq_true_2 in Ht by done.
    assert (attaches_listener (exec (trackRecord m id ref) s) m id = false) as <-.
    { unfold attaches_listener. rewrite Ht. by destruct (eval isInFastBoot _) as [[|]|]. }
    apply tracking_check_ext; [| done].
    rewrite Hf. unfold exec. by rewrite trackRecord_run.
  - rewrite <- Hatt. by apply tracking_check_ext.
Qed.

(** But tracking [id] makes every other id of the model untracked, whether
    it was tracked before or not: a later call for it attaches again. *)
Lemma listenForRecordChanges_forgets_other_ids (m id id' : string) (ref : Reference) (s : State) :
  ordinary_name m = true → ordinary_name id = true →
  id' ≠ id →
  attaches_listener s m id = true →
  attaches_listener (exec (listenForRecordChanges m id ref) s) m id' = true.
Proof.
  intros Hm Hid Hne Hatt.
  destruct (listenForRecordChanges_registry m id ref s) as (Hf & _ & Hr).
  rewrite Hatt in Hr.
  assert (eval isInFastBoot s = Ok false ∧ registry_intact s = true) as [Hfb Hs].
  { unfold attaches_listener in Hatt.
    destruct (eval isInFastBoot s) as [[|]|]; try done.
    destruct (eval (isTrackingRecordChanges m id) s) as [b|] eqn:Hb; [| done].
    split; [done |]. by eapply isTrackingRecordChanges_Ok. }
  pose proof (trackRecord_tracks m id id' ref s Hm Hid Hs) as Ht.
  rewrite bool_decide_eq_false_2 in Ht by done.
  assert (attaches_listener (exec (trackRecord m id ref) s) m id' = true) as <-.
  { unfold attaches_listener. rewrite Ht.
    unfold exec. rewrite trackRecord_run.
    change (eval isInFastBoot (_, set_trackedRecords _ s).2) with (eval isInFastBoot s).
    by rewrite Hfb. }
  apply tracking_check_ext; [| done].
  rewrite Hf. unfold exec. by rewrite trackRecord_run.
Qed.

(** The sibling registry merges: [_trackListener] records the new listener
    and keeps every listener recorded before, under the same key or under
    another. *)
Lemma trackListener_merges (key type key' type' : string) (s : State) :
  let s' := exec (_trackListener key type) s in
  eval (_isListenerTracked key type) s' = Ok true
  ∧ (eval (_isListenerTracked key' type') s = Ok true →
     eval (_isListenerTracked key' type') s' = Ok true).
Proof.
  intros s'. subst s'. unfold _trackListener, _isListenerTracked. mrun. simpl.
  rewrite !(right_id_L ∅ (∪)).
  set (tl := trackedListeners s).
  set (temp := alter <[type := true]> key
                 (if negb (bool_decide (is_Some (tl !! key))) then <[key := ∅]> tl else tl)).
  assert (Hkey : temp !! key = Some (<[type := true]> (default ∅ (tl !! key)))).
  { subst temp. rewrite lookup_alter_eq.
    destruct (tl !! key) as [types|] eqn:Hk; simpl.
    - by rewrite Hk.
    - by rewrite lookup_insert_eq. }
  assert (Hother : key' ≠ key → temp !! key' = tl !! key').
  { intros Hne. subst temp. rewrite lookup_alter_ne by done.
    destruct (negb (bool_decide (is_Some (tl !! key)))); [| done].
    by rewrite lookup_insert_ne. }
  split.
  - rewrite lookup_union, Hkey. destruct (tl !! key); simpl; by rewrite lookup_insert_eq.
  - destruct (decide (key' = key)) as [->|Hne].
    + rewrite lookup_union, Hkey.
      destruct (tl !! key) as [types|] eqn:Hk; simpl; [| done].
      destruct (decide (type' = type)) as [->|Hne].
      * by rewrite lookup_insert_eq.
      * by rewrite lookup_insert_ne.
    + rewrite lookup_union, (Hother Hne). by destruct (tl !! key').
Qed.

(** C3. Fetching post [a], then post [b], then post [a] again, each found:
    tracking [b] dropped [a] from the registry, so the third fetch attaches
    a second continuous [value] listener at the reference of [a]; two are
    live there at the end. *)
Theorem findRecord_again_after_another_id_attaches_second_listener :
  let s := run (env := example_env) (fetch "a" ++ fetch "b" ++ fetch "a") (init None ∅ ∅) in
  continuous_listeners (post_ref "a") "post" "a" s = 2
  ∧ listeners s =
      [{| l_ref := post_ref "a"; l_event := Value;
          l_callback := OnValue_recordChanges 0 "post" "a" |};
       {| l_ref := post_ref "b"; l_event := Value;
          l_callback := OnValue_recordChanges 1 "post" "b" |};
       {| l_ref := post_ref "a"; l_event := Value;
          l_callback := OnValue_recordChanges 2 "post" "a" |}].
Proof. vm_compute. done. Qed.

(** Without the fetch of [b] in between, one listener is attached. *)
Lemma findRecord_twice_in_a_row_attaches_one_listener :
  continuous_listeners (post_ref "a") "post" "a"
    (run (env := example_env) (fetch "a" ++ fetch "a") (init None ∅ ∅)) = 1.
Proof. vm_compute. done. Qed.

(** ** C5: tracking a cached query *)

(** Outside FastBoot, [_trackQuery] on a cache identifier that has an entry
    calls [off] on the extensions the previous record array holds at that
    time, removing their two listeners, and then maps the identifier to the
    new record array. *)
Lemma trackQuery_detaches_previous (cacheId : JsValue) (new old : nat)
    (ra : RecordArray) (ext : RecordExtensions) (s : State) :
  eval isInFastBoot s = Ok false →
  trackedQueries s !! js_to_string cacheId = Some old →
  recordArrays s !! old = Some ra →
  ra_firebase ra = Some ext →
  let s' := exec (_trackQuery cacheId new) s in
  trace s' = trace s ++
    [FbOff (ext_ref ext) ChildAdded (Some (ext_onChildAdded ext));
     FbOff (ext_ref ext) ChildRemoved (Some (ext_onChildRemoved ext))]
  ∧ trackedQueries s' = <[js_to_string cacheId := new]> (trackedQueries s)
  ∧ ¬ In {| l_ref := ext_ref ext; l_event := ChildAdded;
            l_callback := ext_onChildAdded ext |} (listeners s').
Proof.
  intros Hfb Hold Hra Hext s'. subst s'.
  unfold _trackQuery, isInFastBoot, extensions_off in *. revert Hfb. mrun.
  intros Hfb. injection Hfb as Hfb. rewrite Hfb. simpl.
  rewrite Hold, Hra. simpl. rewrite Hext. simpl.
  split; [by rewrite <- app_assoc |]. split; [done |].
  intros [Hin _]%filter_In. by apply filter_not_matching in Hin.
Qed.

(** C5. A cached query [c] into record array 10, the same query run again
    into the same record array (as [recordArray.update()] does), then a new
    cached query [c] into record array 11: the second run replaced the
    extensions of array 10 and detached its own new listeners, the third
    detached those again, and the listeners of the first run stay attached
    next to those of the third. Two subscriptions are live for [c]. *)
Theorem cached_query_leaves_two_subscriptions :
  let s := run (env := example_env)
             (cached_query 0 10 ++ cached_query 0 10 ++ cached_query 1 11)
             (init None {[ 0 := cached_descriptor; 1 := cached_descriptor ]}
                {[ 10 := empty_array; 11 := empty_array ]}) in
  trackedQueries s !! "c" = Some 11
  ∧ promises s = [Fulfilled (RecordsPayload []); Fulfilled (RecordsPayload []);
                  Fulfilled (RecordsPayload [])]
  ∧ listeners s =
      [{| l_ref := posts_query_ref; l_event := ChildAdded;
          l_callback := OnChildAdded_query 0 "post" JNull 10 |};
       {| l_ref := posts_query_ref; l_event := ChildRemoved;
          l_callback := OnChildRemoved_query 1 10 |};
       {| l_ref := posts_query_ref; l_event := ChildAdded;
          l_callback := OnChildAdded_query 4 "post" JNull 11 |};
       {| l_ref := posts_query_ref; l_event := ChildRemoved;
          l_callback := OnChildRemoved_query 5 11 |}]
  ∧ query_subscriptions [10; 11] s = 2.
Proof. vm_compute. done. Qed.

(** ** FastBoot *)

Lemma fastboot_inert_refl (s : State) : fastboot_inert s s.
Proof. intros Hfb. repeat split; auto. Qed.

Lemma fastboot_inert_trans (s1 s2 s3 : State) :
  fastboot_inert s1 s2 → fastboot_inert s2 s3 → fastboot_inert s1 s3.
Proof.
  intros H12 H23 Hfb. destruct (H12 Hfb) as (Hfb2 & Hr2 & Hq2 & Hl2).
  destruct (H23 Hfb2) as (Hfb3 & Hr3 & Hq3 & Hl3).
  split; [done |]. split; [congruence |]. split; [congruence |].
  intros l Hl. destruct (Hl3 l Hl) as [Hin|Hone]; [by apply Hl2 | by right].
Qed.

(** A state change that keeps the guarded fields and the listeners. *)
Lemma fastboot_inert_same (s s' : State) :
  fastboot s' = fastboot s → trackedRecords s' = trackedRecords s →
  trackedQueries s' = trackedQueries s →
  (∀ l, In l (listeners s') → In l (listeners s) ∨ one_shot (l_callback l) = true) →
  fastboot_inert s s'.
Proof. intros Hfb Hr Hq Hl Hs. rewrite Hfb. by repeat split. Qed.

Lemma inert_ret {A} (a : A) : inert (mret a).
Proof. intros s. apply fastboot_inert_refl. Qed.

Lemma inert_bind {A B} (m : M A) (f : A → M B) :
  inert m → (∀ a, inert (f a)) → inert (m ≫= f).
Proof.
  intros Hm Hf s. specialize (Hm s). unfold mbind, M_bind.
  destruct (m s) as [[a|e] s']; simpl in *; [| done].
  eapply fastboot_inert_trans; [exact Hm | apply Hf].
Qed.

Lemma inert_get : inert get.
Proof. intros s. apply fastboot_inert_refl. Qed.

Lemma inert_throw {A} (e : string) : inert (throw (A := A) e).
Proof. intros s. apply fastboot_inert_refl. Qed.

Lemma inert_modify (f : State → State) :
  (∀ s, fastboot (f s) = fastboot s) →
  (∀ s, trackedRecords (f s) = trackedRecords s) →
  (∀ s, trackedQueries (f s) = trackedQueries s) →
  (∀ s l, In l (listeners (f s)) → In l (listeners s) ∨ one_shot (l_callback l) = true) →
  inert (modify f).
Proof. intros Hfb Hr Hq Hl s. apply fastboot_inert_same; simpl; auto. Qed.

Lemma inert_guarded (m : M unit) : inert m → inert (guarded m).
Proof. intros Hm s. apply Hm. Qed.

Lemma inert_try_catch (m : M unit) (h : string → M unit) :
  inert m → (∀ e, inert (h e)) → inert (try_catch m h).
Proof.
  intros Hm Hh s. specialize (Hm s). unfold try_catch.
  destruct (m s) as [[a|e] s']; simpl in *; [done |].
  eapply fastboot_inert_trans; [exact Hm | apply Hh].
Qed.

Lemma inert_for_each {A} (l : list A) (f : A → M unit) :
  (∀ x, inert (f x)) → inert (for_each l f).
Proof.
  intros Hf. induction l as [|x l IH]; simpl.
  - apply inert_ret.
  - apply inert_bind; [apply Hf | by intros _].
Qed.

Lemma inert_map_m {A B} (f : A → M B) (l : list A) :
  (∀ x, inert (f x)) → inert (map_m f l).
Proof.
  intros Hf. induction l as [|x l IH]; simpl.
  - apply inert_ret.
  - apply inert_bind; [apply Hf | intros y].
    apply inert_bind; [apply IH | intros ys]. apply inert_ret.
Qed.

Lemma inert_ref_on (ref : Reference) (type : EventType) (cb : Callback) :
  one_shot cb = true → inert (ref_on ref type cb).
Proof.
  intros Hcb s. apply fastboot_inert_same; try done.
  simpl. intros l [Hin|[<-|[]]]%in_app_or; [by left | by right].
Qed.

Lemma inert_ref_off (ref : Reference) (type : EventType) (cb : option Callback) :
  inert (ref_off ref type cb).
Proof.
  intros s. apply fastboot_inert_same; try done.
  simpl. intros l [Hin _]%filter_In. by left.
Qed.

Create HintDb inert.

#[local] Hint Resolve inert_ret inert_get inert_throw inert_ref_off : inert.

(** Structural steps of a proof that a computation is inert in FastBoot. *)
Ltac inert_step :=
  lazymatch goal with
  | |- inert (mret _) => apply inert_ret
  | |- inert (mbind _ _) => apply inert_bind; [| intros ?]
  | |- inert (modify _) =>
      apply inert_modify;
        [reflexivity | reflexivity | reflexivity
        | let Hin := fresh in
          intros ? ? Hin; left; first [exact Hin | by apply filter_In in Hin as [? ?]]]
  | |- inert (emit _) =>
      apply inert_modify; [reflexivity | reflexivity | reflexivity | intros ? ? ?; by left]
  | |- inert (guarded _) => apply inert_guarded
  | |- inert (try_catch _ _) => apply inert_try_catch; [| intros ?]
  | |- inert (for_each _ _) => apply inert_for_each; intros ?
  | |- inert (map_m _ _) => apply inert_map_m; intros ?
  | |- inert (ref_on _ _ _) => apply inert_ref_on; reflexivity
  | |- inert (if ?b then _ else _) => destruct b
  | |- inert (match ?x with _ => _ end) => destruct x
  | |- _ => solve [eauto with inert]
  end.

Ltac inert := repeat inert_step.

Lemma inert_settle p st : inert (settle p st).
Proof. unfold settle. inert. Qed.

Lemma inert_new_promise : inert new_promise.
Proof. intros s. by apply fastboot_inert_same; [| | | left]. Qed.

Lemma inert_new_closure : inert new_closure.
Proof. intros s. by apply fastboot_inert_same; [| | | left]. Qed.

#[local] Hint Resolve inert_settle inert_new_promise inert_new_closure : inert.

Lemma inert_resolve p v : inert (resolve p v).
Proof. unfold resolve. inert. Qed.

Lemma inert_reject p e : inert (reject p e).
Proof. unfold reject. inert. Qed.

Lemma inert_firebase_update f d : inert (firebase_update f d).
Proof. unfold firebase_update. inert. Qed.

Lemma inert_hasOwnProperty q k : inert (hasOwnProperty q k).
Proof. unfold hasOwnProperty. inert. Qed.

Lemma inert_get_property q k : inert (get_property q k).
Proof. unfold get_property. inert. Qed.

Lemma inert_set_property q k v : inert (set_property q k v).
Proof. unfold set_property. inert. Qed.

Lemma inert_new_Promise executor :
  (∀ p, inert (executor p)) → inert (new_Promise executor).
Proof. intros He. unfold new_Promise. inert. Qed.

#[local] Hint Resolve inert_resolve inert_reject inert_firebase_update inert_hasOwnProperty
  inert_get_property inert_set_property : inert.

(** The three guarded routines do nothing in FastBoot. *)
Lemma listenForRecordChanges_fastboot (m id : string) (ref : Reference) (s : State) :
  fastboot s = Some true → listenForRecordChanges m id ref s = (Ok tt, s).
Proof. intros Hfb. unfold listenForRecordChanges, isInFastBoot. mrun. by rewrite Hfb. Qed.

Lemma setupQueryListListener_fastboot (m : string) (rp : JsValue) (ra : nat)
    (ref : Reference) (s : State) :
  fastboot s = Some true → _setupQueryListListener m rp ra ref s = (Ok tt, s).
Proof. intros Hfb. unfold _setupQueryListListener, isInFastBoot. mrun. by rewrite Hfb. Qed.

Lemma trackQuery_fastboot (cacheId : JsValue) (ra : nat) (s : State) :
  fastboot s = Some true → _trackQuery cacheId ra s = (Ok tt, s).
Proof. intros Hfb. unfold _trackQuery, isInFastBoot. mrun. by rewrite Hfb. Qed.

Lemma inert_listenForRecordChanges m id ref : inert (listenForRecordChanges m id ref).
Proof.
  intros s Hfb. rewrite listenForRecordChanges_fastboot by done.
  by apply fastboot_inert_refl.
Qed.

Lemma inert_setupQueryListListener m rp ra ref : inert (_setupQueryListListener m rp ra ref).
Proof.
  intros s Hfb. rewrite setupQueryListListener_fastboot by done.
  by apply fastboot_inert_refl.
Qed.

Lemma inert_trackQuery c ra : inert (_trackQuery c ra).
Proof.
  intros s Hfb. rewrite trackQuery_fastboot by done. by apply fastboot_inert_refl.
Qed.

#[local] Hint Resolve inert_listenForRecordChanges inert_setupQueryListListener
  inert_trackQuery : inert.

Section Inert.
Context {env : Collaborators}.

Lemma inert_mergeSnapshotIdAndValue snapshot : inert (mergeSnapshotIdAndValue snapshot).
Proof. unfold mergeSnapshotIdAndValue. cbv zeta. inert. Qed.

Lemma inert_unloadRecord m id : inert (unloadRecord m id).
Proof. unfold unloadRecord. inert. Qed.

Lemma inert_updateRecord m snapshot : inert (updateRecord m snapshot).
Proof. unfold updateRecord. apply inert_new_Promise. intros p. inert. Qed.

Lemma inert_findRecord m id ao : inert (findRecord m id ao).
Proof. unfold findRecord. apply inert_new_Promise. intros p. inert. Qed.

Lemma inert_deleteRecord m snapshot : inert (deleteRecord m snapshot).
Proof. unfold deleteRecord. apply inert_new_Promise. intros p. inert. Qed.

Lemma inert_apply_filters types q ref : inert (apply_filters types q ref).
Proof. revert ref. induction types as [|t types IH]; intros ref; simpl; inert. Qed.

#[local] Hint Resolve inert_mergeSnapshotIdAndValue inert_unloadRecord inert_updateRecord
  inert_findRecord inert_deleteRecord inert_apply_filters : inert.

Lemma inert_setupQuerySortingAndFiltering ref q force :
  inert (_setupQuerySortingAndFiltering ref q force).
Proof. unfold _setupQuerySortingAndFiltering. inert. Qed.

#[local] Hint Resolve inert_setupQuerySortingAndFiltering : inert.

Lemma inert_query m q ra : inert (query m q ra).
Proof. unfold query. apply inert_new_Promise. intros p. inert. Qed.

Lemma inert_query_then j records : inert (query_then j records).
Proof. unfold query_then. inert. Qed.

Lemma inert_query_catch j e : inert (query_catch j e).
Proof. unfold query_catch. inert. Qed.

#[local] Hint Resolve inert_query inert_query_then inert_query_catch : inert.

Lemma inert_run_callback cb snapshot : inert (run_callback cb snapshot).
Proof. unfold run_callback. inert. Qed.

Lemma inert_run_cancel_callback cb e : inert (run_cancel_callback cb e).
Proof. unfold run_cancel_callback. inert. Qed.

Lemma inert_run_update_callback d e : inert (run_update_callback d e).
Proof. unfold run_update_callback. inert. Qed.

#[local] Hint Resolve inert_run_callback inert_run_cancel_callback
  inert_run_update_callback : inert.

Lemma inert_deliver snapshot l : inert (deliver snapshot l).
Proof. unfold deliver. inert. Qed.

#[local] Hint Resolve inert_deliver : inert.

Lemma inert_step a : inert (step a).
Proof. unfold step, createRecord, firebase_event, firebase_cancel, rsvp_all. inert. Qed.

(** X1. In FastBoot, whatever the store and the collaborators do, the adapter
    tracks no record and no query, and attaches no listener other than the
    one-shot [value] callbacks of [findRecord] and [query]. *)
Theorem fastboot_attaches_only_one_shot_listeners (actions : list Action) (s : State) :
  fastboot s = Some true →
  trackedRecords (run actions s) = trackedRecords s
  ∧ trackedQueries (run actions s) = trackedQueries s
  ∧ ∀ l, In l (listeners (run actions s)) →
         In l (listeners s) ∨ one_shot (l_callback l) = true.
Proof.
  intros Hfb.
  assert (H : fastboot_inert s (run actions s)).
  { clear Hfb. revert s. induction actions as [|a actions IH]; intros s; simpl.
    - apply fastboot_inert_refl.
    - eapply fastboot_inert_trans; [apply inert_step | apply IH]. }
  by destruct (H Hfb) as (_ & Hr & Hq & Hl).
Qed.
End Inert.

(** ** Paths *)

(** X2. When [adapterOptions] is supplied and its [path], if any, is truthy,
    [deleteRecord] writes its tombstone at the very path [buildPath] gives
    for the record, which is where [updateRecord] and [findRecord] address
    it; the [include] map is written along. *)
Theorem deleteRecord_tombstones_the_record_path `{env : Collaborators}
    (modelName id : string) (ao : AdapterOptions) (s : State) :
  (∀ v, ao_path ao = Some v → truthy v = true) →
  trace (exec (deleteRecord modelName {| rs_id := id; rs_adapterOptions := Some ao |}) s) =
    trace s ++ [FbUpdate (<[buildPath modelName id (Some ao) := JNull]> (default ∅ (ao_include ao)))
                  (Done_deleteRecord (length (promises s)))].
Proof.
  intros Hpath. rewrite deleteRecord_fanout_with_options. unfold buildPath, parseModelName.
  destruct (ao_path ao) as [v|] eqn:Hv; simpl; [| done].
  by rewrite (Hpath v eq_refl).
Qed.

(** X3. With a falsy own [path] in [adapterOptions] (the empty string, say),
    [deleteRecord] still writes its tombstone under that path, while
    [buildPath] falls back to the model's path: the record is deleted at
    another place than it is read and written. *)
Theorem deleteRecord_keeps_a_falsy_path `{env : Collaborators}
    (modelName id : string) (include : option JsObject) (v : JsValue) (s : State) :
  truthy v = false →
  let ao := {| ao_include := include; ao_path := Some v |} in
  trace (exec (deleteRecord modelName {| rs_id := id; rs_adapterOptions := Some ao |}) s) =
    trace s ++ [FbUpdate (<[js_to_string v +:+ "/" +:+ id := JNull]> (default ∅ include))
                  (Done_deleteRecord (length (promises s)))]
  ∧ buildPath modelName id (Some ao) = camelize (pluralize modelName) +:+ "/" +:+ id.
Proof.
  intros Hv ao. split.
  - by rewrite deleteRecord_fanout_with_options.
  - unfold buildPath, parseModelName. simpl. by rewrite Hv.
Qed.

(** ** The continuous listener *)

Lemma unloadRecord_run (modelName id : string) (s : State) :
  unloadRecord modelName id s =
    (Ok tt, match loaded s !! (modelName, id) with
            | Some false => unloaded modelName id s
            | _ => s
            end).
Proof.
  unfold unloadRecord, unloaded. mrun.
  by destruct (loaded s !! (modelName, id)) as [[|]|].
Qed.

(** X4. The continuous listener of [listenForRecordChanges] pushes the
    normalized snapshot into the store when the node is an object and does
    nothing else; when the node is gone, or when the listener is cancelled,
    it unloads the record if the store holds it and it is not being saved,
    and a record that is being saved is left alone. *)
Theorem continuous_listener_pushes_or_unloads `{env : Collaborators}
    (c : nat) (modelName id : string) (snapshot : DataSnapshot) (error : string) (s : State) :
  let cb := OnValue_recordChanges c modelName id in
  let unload := match loaded s !! (modelName, id) with
                | Some false => unloaded modelName id s
                | _ => s
                end in
  (∀ o, snap_val snapshot = NodeObject o →
     exec (run_callback cb snapshot) s =
       set_trace (λ t, t ++ [StoreNormalizeThenPush modelName
                               (<[innerReferencePathName s :=
                                    JStr (join "/" (pop (shift (split "/"
                                      (parseFirebaseReferencePath (snap_ref snapshot))))))]>
                                  (<["id" := JStr (snap_key snapshot)]> o))]) s)
  ∧ (snap_val snapshot = NodeAbsent → exec (run_callback cb snapshot) s = unload)
  ∧ exec (run_cancel_callback cb error) s = unload
  ∧ (loaded s !! (modelName, id) = Some true → unload = s).
Proof.
  intros cb unload. subst cb unload. split; [| split; [| split]].
  - intros o Hval. unfold run_callback, snap_exists, mergeSnapshotIdAndValue,
      parseFirebaseReferencePath.
    rewrite Hval. cbv zeta. by mrun.
  - intros Hval. unfold run_callback, snap_exists. rewrite Hval.
    unfold exec. by rewrite unloadRecord_run.
  - unfold run_cancel_callback, exec. by rewrite unloadRecord_run.
  - by intros ->.
Qed.

(** ** Completion of a write *)

Section Completion.
Context {env : Collaborators}.

Lemma attaches_listener_after_listening (m id : string) (ref : Reference) (s s1 : State) :
  ordinary_name m = true → ordinary_name id = true →
  fastboot s1 = fastboot (exec (listenForRecordChanges m id ref) s) →
  trackedRecords s1 = trackedRecords (exec (listenForRecordChanges m id ref) s) →
  attaches_listener s1 m id = false.
Proof.
  intros Hm Hid Hfb Hr. rewrite <- (listenForRecordChanges_idempotent m id ref s Hm Hid).
  by apply tracking_check_ext.
Qed.

(** Where the tracking check does not throw, it does not throw after
    [listenForRecordChanges] for ordinary names either. *)
Lemma listenForRecordChanges_keeps_safe (m id : string) (ref : Reference) (s s1 : State) :
  ordinary_name m = true → ordinary_name id = true →
  tracking_fails s m id = false →
  fastboot s1 = fastboot (exec (listenForRecordChanges m id ref) s) →
  trackedRecords s1 = trackedRecords (exec (listenForRecordChanges m id ref) s) →
  tracking_fails s1 m id = false.
Proof.
  intros Hm Hid Hsafe Hfb1 Hr1.
  destruct (listenForRecordChanges_registry m id ref s) as (Hf & _ & Hr).
  rewrite Hf in Hfb1. rewrite Hr in Hr1.
  destruct (attaches_listener s m id) eqn:Hatt.
  - assert (Hs : registry_intact s = true).
    { unfold attaches_listener in Hatt.
      destruct (eval isInFastBoot s) as [[|]|]; try done.
      destruct (eval (isTrackingRecordChanges m id) s) as [b|] eqn:Hb; [| done].
      by eapply isTrackingRecordChanges_Ok. }
    destruct (trackRecord_intact m id ref s Hm Hid Hs) as [Hs' Hr'].
    rewrite <- (tracking_fails_intact _ m id Hs' Hr').
    apply tracking_check_ext; [| done].
    rewrite Hfb1. unfold exec. by rewrite trackRecord_run.
  - rewrite <- Hsafe. by apply tracking_check_ext.
Qed.

(** X5. The completion callback of [updateRecord], on a pending promise: with
    an error it rejects with that error and attaches nothing. Without an
    error, and when the tracking check does not throw, it resolves without
    value and attaches the continuous listener at the record's reference
    unless the adapter is in FastBoot or the record is tracked; when the
    tracking check throws, nothing is attached and the promise is left
    pending. For a model name and an id that are ordinary names, a further
    call for the record attaches nothing. *)
Theorem updateRecord_completion
    (p : nat) (modelName : string) (snapshot : RecordSnapshot) (error : string) (s : State) :
  promises s !! p = Some Pending →
  let done := Done_updateRecord p modelName snapshot in
  let id := rs_id snapshot in
  let ref := buildFirebaseReference (buildPath modelName id (rs_adapterOptions snapshot)) in
  let failed := exec (run_update_callback done (Some error)) s in
  let succeeded := exec (run_update_callback done None) s in
  (promises failed !! p = Some (Rejected {| message := error |})
   ∧ listeners failed = listeners s
   ∧ trackedRecords failed = trackedRecords s
   ∧ trace failed = trace s ++ [Reject p {| message := error |}])
  ∧ (tracking_fails s modelName id = false →
     promises succeeded !! p = Some (Fulfilled NoValue)
     ∧ listeners succeeded = listeners s ++
         (if attaches_listener s modelName id
          then [{| l_ref := ref; l_event := Value;
                   l_callback := OnValue_recordChanges (next_closure s) modelName id |}]
          else []))
  ∧ (tracking_fails s modelName id = true →
     promises succeeded !! p = Some Pending ∧ listeners succeeded = listeners s)
  ∧ (ordinary_name modelName = true → ordinary_name id = true →
     attaches_listener succeeded modelName id = false).
Proof.
  intros Hpend done id ref failed succeeded. subst failed succeeded done.
  split; [| split; [| split]].
  - unfold run_update_callback. mrun. simpl. rewrite Hpend.
    split; [| done]. apply list_lookup_insert_eq. by eapply lookup_lt_Some.
  - intros Hsafe. unfold run_update_callback. fold id. fold ref.
    destruct (listenForRecordChanges_run modelName id ref s)
      as (s1 & Hrun & Hp & _ & _ & Hl).
    rewrite Hsafe in Hrun.
    unfold exec. erewrite !bind_ok by exact Hrun.
    unfold resolve. mrun. simpl. rewrite Hp, Hpend.
    split; [apply list_lookup_insert_eq; by eapply lookup_lt_Some | exact Hl].
  - intros Hfails. unfold run_update_callback. fold id. fold ref.
    destruct (listenForRecordChanges_run modelName id ref s)
      as (s1 & Hrun & Hp & _ & _ & Hl).
    rewrite Hfails in Hrun.
    unfold exec. erewrite !bind_throw by exact Hrun. cbn [snd].
    rewrite Hp, Hl. split; [done |].
    assert (attaches_listener s modelName id = false) as ->; [| by rewrite app_nil_r].
    unfold tracking_fails, attaches_listener in *.
    destruct (eval isInFastBoot s) as [[|]|]; try done.
    by destruct (eval (isTrackingRecordChanges modelName id) s).
  - intros Hm Hid. unfold run_update_callback. fold id. fold ref.
    destruct (listenForRecordChanges_run modelName id ref s) as (s1 & Hrun & _).
    assert (Hs1 : s1 = exec (listenForRecordChanges modelName id ref) s)
      by (unfold exec; by rewrite Hrun).
    destruct (tracking_fails s modelName id).
    + unfold exec at 1. erewrite bind_throw by exact Hrun. cbn [snd].
      apply (attaches_listener_after_listening modelName id ref s _ Hm Hid); by rewrite Hs1.
    + unfold exec at 1. erewrite bind_ok by exact Hrun.
      apply (attaches_listener_after_listening modelName id ref s _ Hm Hid);
        simpl; by rewrite Hs1.
Qed.

(** X6. As long as the FastBoot service and the registry of tracked records
    are as the completion callback of a successful [updateRecord] left
    them (no other record of the model was tracked since), for ordinary
    names and a tracking check that does not throw: when the callback of a
    [findRecord] for the written record receives a snapshot of an object,
    it only detaches itself and attaches no further listener. *)
Theorem update_then_find_attaches_no_listener
    (p p' : nat) (modelName : string) (snapshot : RecordSnapshot) (s s2 : State)
    (ref' : Reference) (found : DataSnapshot) (o : JsObject) :
  snap_val found = NodeObject o →
  ordinary_name modelName = true → ordinary_name (rs_id snapshot) = true →
  tracking_fails s modelName (rs_id snapshot) = false →
  let s1 := exec (run_update_callback (Done_updateRecord p modelName snapshot) None) s in
  fastboot s2 = fastboot s1 → trackedRecords s2 = trackedRecords s1 →
  let onValue := OnValue_findRecord p' modelName (rs_id snapshot) ref' in
  let l := {| l_ref := ref'; l_event := Value; l_callback := onValue |} in
  listeners (exec (deliver found l) s2) =
    List.filter (λ x, negb (listener_matches ref' Value (Some onValue) x)) (listeners s2).
Proof.
  intros Hval Hm Hid Hsafe s1 Hfb2 Hr2 onValue l.
  set (ref := buildFirebaseReference
                (buildPath modelName (rs_id snapshot) (rs_adapterOptions snapshot))).
  assert (fastboot s1 = fastboot (exec (listenForRecordChanges modelName
                                                (rs_id snapshot) ref) s)
                ∧ trackedRecords s1 = trackedRecords (exec (listenForRecordChanges modelName
                                                (rs_id snapshot) ref) s)) as [Hfb1 Hr1].
  { subst s1. unfold run_update_callback. fold ref.
    destruct (listenForRecordChanges_run modelName (rs_id snapshot) ref s) as (s3 & Hrun & _).
    rewrite Hsafe in Hrun.
    unfold exec at 1 3. erewrite !bind_ok by exact Hrun.
    unfold exec. rewrite Hrun. done. }
  rewrite Hfb1 in Hfb2. rewrite Hr1 in Hr2.
  assert (Hno : attaches_listener s2 modelName (rs_id snapshot) = false)
    by (by eapply attaches_listener_after_listening).
  assert (Hsafe2 : tracking_fails s2 modelName (rs_id snapshot) = false)
    by (by eapply listenForRecordChanges_keeps_safe).
  destruct (deliver_found p' modelName (rs_id snapshot) ref' s2 found o Hval Hsafe2)
    as (payload & s' & _ & Hrun & _ & Hl & _).
  subst l onValue. unfold exec at 1. rewrite Hrun. simpl. rewrite Hl, Hno.
  by rewrite app_nil_r.
Qed.
End Completion.

(** ** Filters *)

(** X7. [_setupQuerySortingAndFiltering] keeps the location of the reference
    and appends to its query the ordering and then the filters the
    descriptor has, always in the order [startAt], [endAt], [equalTo],
    [limitToFirst], [limitToLast], whatever the order of the descriptor. *)
Theorem filters_are_applied_in_a_fixed_order
    (ref : Reference) (q : nat) (force : bool) (s : State) (o : JsObject) :
  objects s !! q = Some o →
  let o' := if force then <[spec_forced_limit o := JNum 1]> (with_default_orderBy o)
            else with_default_orderBy o in
  ∃ ref',
    eval (_setupQuerySortingAndFiltering ref q force) s = Ok ref'
    ∧ ref_toString ref' = ref_toString ref
    ∧ ref_query ref' =
        ref_query ref ++ [spec_ordering (o !! "orderBy")] ++
        present o' "startAt" StartAt ++ present o' "endAt" EndAt ++
        present o' "equalTo" EqualTo ++ present o' "limitToFirst" LimitToFirst ++
        present o' "limitToLast" LimitToLast.
Proof.
  intros Hq o'.
  destruct (setupQuerySortingAndFiltering_run ref q force s o Hq) as (s' & Hrun & _).
  unfold eval. rewrite Hrun. cbn [fst]. fold o'. rewrite apply_ordering_spec.
  eexists. split; [reflexivity |].
  cbn [foldl]. unfold filter_step, present.
  destruct (o' !! "startAt"), (o' !! "endAt"), (o' !! "equalTo"),
    (o' !! "limitToFirst"), (o' !! "limitToLast"); cbn;
    rewrite <- ?app_assoc; done.
Qed.

Section Query.
Context {env : Collaborators}.

Lemma map_m_findRecord (modelName : string) (ao : option AdapterOptions)
    (keys : list string) (s : State) :
  ∃ s', map_m (λ key, findRecord modelName key ao) keys s =
          (Ok (seq (length (promises s)) (length keys)), s')
    ∧ promises s' = promises s ++ replicate (length keys) Pending
    ∧ listeners s' = listeners s ++ fetch_listeners modelName ao (length (promises s)) keys
    ∧ joins s' = joins s
    ∧ trackedRecords s' = trackedRecords s
    ∧ trackedQueries s' = trackedQueries s.
Proof.
  revert s. induction keys as [|key keys IH]; intros s.
  - exists s. simpl. by rewrite !app_nil_r.
  - simpl map_m. erewrite bind_ok by apply findRecord_run.
    set (s1 := set_listeners _ _).
    assert (Hlen : length (promises s1) = S (length (promises s))).
    { subst s1. simpl. rewrite length_app. simpl. lia. }
    destruct (IH s1) as (s' & Hrun & Hp & Hl & Hj & Hr & Hq). rewrite Hlen in *.
    erewrite bind_ok by exact Hrun.
    exists s'. split; [reflexivity |].
    subst s1. simpl in *. rewrite Hp, Hl, <- !app_assoc. done.
Qed.

(** X8. The [value] callback of [query] fetches every child of the snapshot
    with the record path of the query, in order (none when the node is
    missing): one pending promise and one one-shot listener per child, and
    one join waiting for exactly those promises; nothing is tracked. *)
Theorem query_fetches_every_child
    (p : nat) (modelName : string) (recordPath : JsValue) (q recordArray : nat)
    (ref : Reference) (snapshot : DataSnapshot) (s : State) :
  let onValue := OnValue_query p modelName recordPath q recordArray ref in
  let keys := if snap_exists snapshot then snap_children snapshot else [] in
  let ao := Some {| ao_include := None; ao_path := Some recordPath |} in
  let s' := exec (run_callback onValue snapshot) s in
  promises s' = promises s ++ replicate (length keys) Pending
  ∧ listeners s' = listeners s ++ fetch_listeners modelName ao (length (promises s)) keys
  ∧ joins s' = joins s ++
      [{| join_promises := seq (length (promises s)) (length keys);
          join_p := p; join_modelName := modelName; join_recordPath := recordPath;
          join_query := q; join_recordArray := recordArray; join_ref := ref |}]
  ∧ trackedRecords s' = trackedRecords s
  ∧ trackedQueries s' = trackedQueries s.
Proof.
  intros onValue keys ao s'. subst s' onValue keys. unfold run_callback, exec.
  destruct (snap_exists snapshot).
  - destruct (map_m_findRecord modelName ao (snap_children snapshot) s)
      as (s1 & Hrun & Hp & Hl & Hj & Hr & Hq).
    erewrite bind_ok by exact Hrun. simpl. by rewrite Hj.
  - simpl. by rewrite !app_nil_r.
Qed.

Lemma omap_rejection_In (s : State) (ps : list nat) (e : Error) :
  In e (omap (rejection s) ps) →
  ∃ p, In p ps ∧ promises s !! p = Some (Rejected e).
Proof.
  intros (p & Hp & He)%list_elem_of_In%list_elem_of_omap.
  exists p. split; [by apply list_elem_of_In |].
  unfold rejection in He. by destruct (promises s !! p) as [[| |]|]; simplify_eq.
Qed.

Lemma omap_rejection_nonempty (s : State) (ps : list nat) (p : nat) (e : Error) :
  In p ps → promises s !! p = Some (Rejected e) → omap (rejection s) ps ≠ [].
Proof.
  intros Hin Hp Hnil.
  assert (He : e ∈ omap (rejection s) ps).
  { apply list_elem_of_omap. exists p. split; [by apply list_elem_of_In |].
    unfold rejection. by rewrite Hp. }
  rewrite Hnil in He. by apply not_elem_of_nil in He.
Qed.

(** X9. When a fetched record of a [query] fails, the query rejects with the
    failure of such a record, prefixed by [Error: ], and stops there: its [value]
    listener stays attached, and nothing is tracked or set up. *)
Theorem query_fails_fast (i : nat) (j : Join) (p' : nat) (e' : Error) (s : State) :
  joins s !! i = Some j →
  promises s !! join_p j = Some Pending →
  In p' (join_promises j) →
  promises s !! p' = Some (Rejected e') →
  let s' := exec (rsvp_all i) s in
  (∃ p e, In p (join_promises j) ∧ promises s !! p = Some (Rejected e)
          ∧ promises s' !! join_p j = Some (Rejected {| message := "Error: " +:+ message e |}))
  ∧ listeners s' = listeners s
  ∧ trackedQueries s' = trackedQueries s
  ∧ recordArrays s' = recordArrays s
  ∧ joins s' = delete i (joins s).
Proof.
  intros Hj Hpend Hin Hrej s'. subst s'. unfold rsvp_all, exec. mrun. rewrite Hj.
  destruct (omap (rejection s) (join_promises j)) as [|e rest] eqn:Hom.
  { by destruct (omap_rejection_nonempty s (join_promises j) p' e' Hin Hrej). }
  destruct (omap_rejection_In s (join_promises j) e) as (p & Hp & He).
  { rewrite Hom. by left. }
  unfold query_catch. mrun. simpl. rewrite Hpend.
  split; [| done]. exists p, e. split; [done |]. split; [done |].
  apply list_lookup_insert_eq. by eapply lookup_lt_Some.
Qed.

Lemma mapM_fulfilled (s : State) (ps : list nat) (records : list JsObject) :
  Forall2 (λ p o, promises s !! p = Some (Fulfilled (RecordPayload o))) ps records →
  omap (rejection s) ps = [] ∧ mapM (fulfilled_record s) ps = Some records.
Proof.
  intros HF. split.
  - induction HF as [|p o ps records Hp _ IH]; [done |].
    simpl. unfold rejection at 1. by rewrite Hp.
  - apply mapM_Some. eapply Forall2_impl; [exact HF |].
    intros p o Hp. unfold fulfilled_record. by rewrite Hp.
Qed.

(** X10. When every fetched record is there and the descriptor has no
    [cacheId], [query] detaches its [value] callback and resolves with the
    records, in the order of the children; no list listener is attached,
    and neither the tracked queries nor the record arrays change. *)
Theorem uncached_query_resolves_and_is_not_live
    (i : nat) (j : Join) (records : list JsObject) (o : JsObject) (s : State) :
  joins s !! i = Some j →
  promises s !! join_p j = Some Pending →
  Forall2 (λ p r, promises s !! p = Some (Fulfilled (RecordPayload r)))
    (join_promises j) records →
  objects s !! join_query j = Some o →
  o !! "cacheId" = None →
  let onValue := OnValue_query (join_p j) (join_modelName j) (join_recordPath j)
                   (join_query j) (join_recordArray j) (join_ref j) in
  let s' := exec (rsvp_all i) s in
  promises s' !! join_p j = Some (Fulfilled (RecordsPayload records))
  ∧ listeners s' =
      List.filter (λ l, negb (listener_matches (join_ref j) Value (Some onValue) l))
        (listeners s)
  ∧ trackedQueries s' = trackedQueries s
  ∧ recordArrays s' = recordArrays s.
Proof.
  intros Hj Hpend HF Hq Hc onValue s'. subst s' onValue.
  destruct (mapM_fulfilled s _ _ HF) as [Hom HmapM].
  unfold rsvp_all, exec. mrun. rewrite Hj, Hom, HmapM.
  unfold query_then. mrun. cbn [objects set_joins]. rewrite Hq, Hc. simpl.
  rewrite Hpend. split; [| done]. apply list_lookup_insert_eq. by eapply lookup_lt_Some.
Qed.

Lemma isInFastBoot_run (s : State) (b : bool) :
  eval isInFastBoot s = Ok b → isInFastBoot s = (Ok b, s).
Proof. unfold eval, isInFastBoot. mrun. by intros [= <-]. Qed.

Lemma setupQueryListListener_run (modelName : string) (recordPath : JsValue)
    (recordArray : nat) (ref : Reference) (array : RecordArray) (s : State) :
  eval isInFastBoot s = Ok false →
  recordArrays s !! recordArray = Some array →
  let added := OnChildAdded_query (next_closure s) modelName recordPath recordArray in
  let removed := OnChildRemoved_query (S (next_closure s)) recordArray in
  ∃ s', _setupQueryListListener modelName recordPath recordArray ref s = (Ok tt, s')
    ∧ fastboot s' = fastboot s
    ∧ objects s' = objects s
    ∧ promises s' = promises s
    ∧ trackedQueries s' = trackedQueries s
    ∧ listeners s' = listeners s ++
        [{| l_ref := ref; l_event := ChildAdded; l_callback := added |};
         {| l_ref := ref; l_event := ChildRemoved; l_callback := removed |}]
    ∧ recordArrays s' =
        <[recordArray := {| ra_firebase := Some {| ext_ref := ref; ext_onChildAdded := added;
                                                    ext_onChildRemoved := removed |};
                            ra_content := ra_content array |}]> (recordArrays s).
Proof.
  intros Hfb Harray added removed. unfold _setupQueryListListener.
  erewrite bind_ok by (by apply isInFastBoot_run). cbn [negb].
  unfold _setupRecordExtensions. mrun. cbn [recordArrays set_listeners set_trace
    set_next_closure]. rewrite Harray.
  eexists. split; [reflexivity |]. cbn. by rewrite <- (app_assoc (listeners s) [_] [_]).
Qed.

Lemma trackQuery_run_fresh (cacheId : JsValue) (recordArray : nat) (s : State) :
  eval isInFastBoot s = Ok false →
  trackedQueries s !! js_to_string cacheId = None →
  js_to_string cacheId ∉ object_prototype_members →
  _trackQuery cacheId recordArray s =
    (Ok tt, set_trackedQueries (λ _, <[js_to_string cacheId := recordArray]> (trackedQueries s)) s).
Proof.
  intros Hfb Hnone Hplain. unfold _trackQuery.
  erewrite bind_ok by (by apply isInFastBoot_run). cbn [negb].
  mrun. rewrite Hnone. by rewrite bool_decide_eq_false_2.
Qed.

(** X11. When every fetched record is there and the descriptor has a [cacheId]
    that is not tracked yet and is not the name of a member of
    [Object.prototype], outside FastBoot, [query] attaches the
    [child_added] and [child_removed] listeners at the query reference,
    stores them as the record array's [firebase] extensions, tracks the
    record array under the [cacheId], detaches its [value] callback and
    resolves. *)
Theorem cached_query_becomes_live
    (i : nat) (j : Join) (records : list JsObject) (o : JsObject) (cacheId : JsValue)
    (array : RecordArray) (s : State) :
  joins s !! i = Some j →
  promises s !! join_p j = Some Pending →
  Forall2 (λ p r, promises s !! p = Some (Fulfilled (RecordPayload r)))
    (join_promises j) records →
  objects s !! join_query j = Some o →
  o !! "cacheId" = Some cacheId →
  eval isInFastBoot s = Ok false →
  trackedQueries s !! js_to_string cacheId = None →
  js_to_string cacheId ∉ object_prototype_members →
  recordArrays s !! join_recordArray j = Some array →
  let onValue := OnValue_query (join_p j) (join_modelName j) (join_recordPath j)
                   (join_query j) (join_recordArray j) (join_ref j) in
  let added := OnChildAdded_query (next_closure s) (join_modelName j) (join_recordPath j)
                 (join_recordArray j) in
  let removed := OnChildRemoved_query (S (next_closure s)) (join_recordArray j) in
  let s' := exec (rsvp_all i) s in
  promises s' !! join_p j = Some (Fulfilled (RecordsPayload records))
  ∧ listeners s' =
      List.filter (λ l, negb (listener_matches (join_ref j) Value (Some onValue) l))
        (listeners s ++
           [{| l_ref := join_ref j; l_event := ChildAdded; l_callback := added |};
            {| l_ref := join_ref j; l_event := ChildRemoved; l_callback := removed |}])
  ∧ trackedQueries s' = <[js_to_string cacheId := join_recordArray j]> (trackedQueries s)
  ∧ recordArrays s' !! join_recordArray j =
      Some {| ra_firebase := Some {| ext_ref := join_ref j; ext_onChildAdded := added;
                                      ext_onChildRemoved := removed |};
              ra_content := ra_content array |}.
Proof.
  intros Hj Hpend HF Hq Hc Hfb Hnone Hplain Harray onValue added removed s'.
  destruct (mapM_fulfilled s _ _ HF) as [Hom HmapM].
  set (s0 := set_joins (delete i) s).
  destruct (setupQueryListListener_run (join_modelName j) (join_recordPath j)
              (join_recordArray j) (join_ref j) array s0 Hfb Harray)
    as (s1 & Hrun1 & Hfb1 & Ho1 & Hp1 & Hq1 & Hl1 & Ha1).
  assert (Hthen : query_then j records s0 =
            (Ok tt, exec (resolve (join_p j) (RecordsPayload records))
                      (exec (ref_off (join_ref j) Value (Some onValue))
                         (set_trackedQueries
                            (λ _, <[js_to_string cacheId := join_recordArray j]>
                                    (trackedQueries s1)) s1)))).
  { unfold query_then.
    erewrite bind_ok by (by apply (hasOwnProperty_run s0 _ o)).
    rewrite Hc. rewrite bool_decide_eq_true_2 by eauto.
    erewrite bind_ok; [reflexivity |].
    erewrite bind_ok by exact Hrun1.
    erewrite bind_ok by (apply (get_property_run s1 _ o); by rewrite Ho1).
    rewrite Hc. cbn [default].
    apply trackQuery_run_fresh.
    - unfold eval, isInFastBoot in *. revert Hfb. mrun. by rewrite Hfb1.
    - by rewrite Hq1.
    - done. }
  assert (Hs' : s' = exec (resolve (join_p j) (RecordsPayload records))
                      (exec (ref_off (join_ref j) Value (Some onValue))
                         (set_trackedQueries
                            (λ _, <[js_to_string cacheId := join_recordArray j]>
                                    (trackedQueries s1)) s1))).
  { subst s'. unfold rsvp_all, exec at 1. mrun. rewrite Hj, Hom, HmapM.
    fold s0. by rewrite Hthen. }
  clearbody s'. subst s'. unfold exec, resolve, ref_off. mrun.
  cbn [promises listeners trackedQueries recordArrays set_promises set_listeners
       set_trace set_trackedQueries].
  rewrite Hp1, Hl1, Hq1, Ha1. subst s0. cbn [promises set_joins listeners trackedQueries
    recordArrays next_closure]. rewrite Hpend.
  split; [apply list_lookup_insert_eq; by eapply lookup_lt_Some |].
  split; [done |]. split; [done |]. by rewrite lookup_insert_eq.
Qed.

(** [_trackQuery] on a cache identifier that names a member of
    [Object.prototype] and is no own property of [trackedQueries]. *)
Lemma trackQuery_run_inherited (cacheId : JsValue) (recordArray : nat) (s : State) :
  eval isInFastBoot s = Ok false →
  trackedQueries s !! js_to_string cacheId = None →
  js_to_string cacheId ∈ object_prototype_members →
  _trackQuery cacheId recordArray s = (Throw "TypeError", s).
Proof.
  intros Hfb Hnone Hin. unfold _trackQuery.
  erewrite bind_ok by (by apply isInFastBoot_run). cbn [negb].
  mrun. rewrite Hnone. by rewrite bool_decide_eq_true_2.
Qed.

(** X24. When every fetched record is there and the descriptor has a
    [cacheId] that names a member of [Object.prototype] ([constructor],
    [toString], [__proto__], ...), outside FastBoot: [query] attaches the
    [child_added] and [child_removed] listeners and stores them in the
    record array, then [_trackQuery] throws on the inherited member, and
    the promise is rejected. The [value] callback of the query is not
    detached, and the query is not tracked. *)
Theorem cached_query_under_a_prototype_name_is_rejected
    (i : nat) (j : Join) (records : list JsObject) (o : JsObject) (cacheId : JsValue)
    (array : RecordArray) (s : State) :
  joins s !! i = Some j →
  promises s !! join_p j = Some Pending →
  Forall2 (λ p r, promises s !! p = Some (Fulfilled (RecordPayload r)))
    (join_promises j) records →
  objects s !! join_query j = Some o →
  o !! "cacheId" = Some cacheId →
  eval isInFastBoot s = Ok false →
  trackedQueries s !! js_to_string cacheId = None →
  js_to_string cacheId ∈ object_prototype_members →
  recordArrays s !! join_recordArray j = Some array →
  let added := OnChildAdded_query (next_closure s) (join_modelName j) (join_recordPath j)
                 (join_recordArray j) in
  let removed := OnChildRemoved_query (S (next_closure s)) (join_recordArray j) in
  let s' := exec (rsvp_all i) s in
  (∃ e, promises s' !! join_p j = Some (Rejected e))
  ∧ listeners s' =
      listeners s ++
        [{| l_ref := join_ref j; l_event := ChildAdded; l_callback := added |};
         {| l_ref := join_ref j; l_event := ChildRemoved; l_callback := removed |}]
  ∧ trackedQueries s' = trackedQueries s
  ∧ recordArrays s' !! join_recordArray j =
      Some {| ra_firebase := Some {| ext_ref := join_ref j; ext_onChildAdded := added;
                                      ext_onChildRemoved := removed |};
              ra_content := ra_content array |}.
Proof.
  intros Hj Hpend HF Hq Hc Hfb Hnone Hin Harray added removed s'.
  destruct (mapM_fulfilled s _ _ HF) as [Hom HmapM].
  set (s0 := set_joins (delete i) s).
  destruct (setupQueryListListener_run (join_modelName j) (join_recordPath j)
              (join_recordArray j) (join_ref j) array s0 Hfb Harray)
    as (s1 & Hrun1 & Hfb1 & Ho1 & Hp1 & Hq1 & Hl1 & Ha1).
  assert (Hthen : query_then j records s0 = (Throw "TypeError", s1)).
  { unfold query_then.
    erewrite bind_ok by (by apply (hasOwnProperty_run s0 _ o)).
    rewrite Hc. rewrite bool_decide_eq_true_2 by eauto.
    erewrite bind_throw; [reflexivity |].
    erewrite bind_ok by exact Hrun1.
    erewrite bind_ok by (apply (get_property_run s1 _ o); by rewrite Ho1).
    rewrite Hc. cbn [default].
    apply trackQuery_run_inherited.
    - unfold eval, isInFastBoot in *. revert Hfb. mrun. by rewrite Hfb1.
    - by rewrite Hq1.
    - done. }
  assert (Hs' : s' = exec (reject (join_p j) {| message := "TypeError" |}) s1).
  { subst s'. unfold rsvp_all, exec at 1. mrun. rewrite Hj, Hom, HmapM.
    fold s0. unfold try_catch. by rewrite Hthen. }
  clearbody s'. subst s'. unfold exec, reject. mrun.
  cbn [promises listeners trackedQueries recordArrays set_promises set_listeners
       set_trace set_trackedQueries].
  rewrite Hp1, Hl1, Hq1, Ha1. subst s0. cbn [promises set_joins listeners trackedQueries
    recordArrays next_closure]. rewrite Hpend.
  split; [eexists; apply list_lookup_insert_eq; by eapply lookup_lt_Some |].
  split; [done |]. split; [done |]. by rewrite lookup_insert_eq.
Qed.
End Query.

(** ** Running computations in the world *)

Lemma bind_ok_w {A B} (m : W A) (f : A → W B) (w : World) (a : A) (w' : World) :
  m w = (Ok a, w') → (m ≫= f) w = f a w'.
Proof. intros Hm. unfold mbind, W_bind. by rewrite Hm. Qed.

Lemma lift_run {A} (m : M A) (w : World) (r : Result A) (s' : State) :
  m (adapter w) = (r, s') → lift m w = (r, set_adapter (λ _, s') w).
Proof. intros Hm. unfold lift. by rewrite Hm. Qed.

Lemma notInFastBoot_run (s : State) : notInFastBoot s = (Ok (outside_fastboot s), s).
Proof. reflexivity. Qed.

Lemma isListenerTracked_run (key type : string) (s : State) :
  _isListenerTracked key type s = (Ok (listener_tracked s key type), s).
Proof. reflexivity. Qed.

Lemma trackListener_run (key type : string) (s : State) :
  _trackListener key type s = (Ok tt, exec (_trackListener key type) s).
Proof. reflexivity. Qed.

Lemma set_adapter_id (w : World) : set_adapter (λ _, adapter w) w = w.
Proof. by destruct w. Qed.

(** ** The copies *)

(** X12. The underscore copies are the functions they copy: [_getGetSnapshotWithId]
    normalizes as [mergeSnapshotIdAndValue] does, [_unloadRecord] unloads as
    [unloadRecord] does, [_getParsedModelName] parses as [parseModelName]
    does, and [_getFirebaseReference] resolves the reference that
    [buildFirebaseReference] gives for the path of [buildPath], for a
    record fetched with that [path] option or with none. *)
Theorem copies_agree `{env : Collaborators}
    (snapshot : DataSnapshot) (modelName id : string) (path : JsValue) (s : State) :
  _getGetSnapshotWithId snapshot s = mergeSnapshotIdAndValue snapshot s
  ∧ _unloadRecord modelName id s = unloadRecord modelName id s
  ∧ _getParsedModelName modelName = parseModelName modelName
  ∧ _getFirebaseReference modelName id path =
      buildFirebaseReference
        (buildPath modelName id (Some {| ao_include := None; ao_path := Some path |}))
  ∧ _getFirebaseReference modelName id JUndefined =
      buildFirebaseReference (buildPath modelName id None).
Proof.
  repeat split; try reflexivity.
  unfold _getFirebaseReference, buildFirebaseReference, buildPath. simpl.
  by destruct (truthy path).
Qed.

(** ** The value listener *)

Section ValueListener.
Context {env : Collaborators}.

Lemma trackListener_fields (key type : string) (s : State) :
  let s' := exec (_trackListener key type) s in
  fastboot s' = fastboot s ∧ trackedRecords s' = trackedRecords s
  ∧ listeners s' = listeners s ∧ promises s' = promises s
  ∧ next_closure s' = next_closure s ∧ listener_tracked s' key type = true.
Proof.
  intros s'. repeat split.
  destruct (trackListener_merges key type key type s) as [Htracked _].
  unfold listener_tracked. fold s' in Htracked. by rewrite Htracked.
Qed.

Lemma listenForRecordChanges_fields (m id : string) (ref : Reference) (s : State) :
  let s' := exec (listenForRecordChanges m id ref) s in
  fastboot s' = fastboot s ∧ trackedListeners s' = trackedListeners s.
Proof.
  intros s'. by destruct (listenForRecordChanges_registry m id ref s) as (Hf & Htl & _).
Qed.

Lemma outside_fastboot_ext (s s' : State) :
  fastboot s' = fastboot s → outside_fastboot s' = outside_fastboot s.
Proof. intros Hf. unfold outside_fastboot, eval, notInFastBoot. mrun. by rewrite Hf. Qed.

Lemma listener_tracked_ext (s s' : State) (key type : string) :
  trackedListeners s' = trackedListeners s →
  listener_tracked s' key type = listener_tracked s key type.
Proof.
  intros Ht. unfold listener_tracked, eval, _isListenerTracked. mrun. by rewrite Ht.
Qed.

(** What [_setupValueListener] does to the world. *)
Lemma setupValueListener_run (modelName id : string) (path : JsValue) (w : World) :
  let key := value_listener_key modelName id path in
  let s := adapter w in
  _setupValueListener modelName id path w =
    (Ok tt,
     if outside_fastboot s && negb (listener_tracked s key "value") then
       set_list_listeners
         (λ ls, ls ++ [{| ll_ref := _getFirebaseReference modelName id path;
                          ll_event := Value;
                          ll_callback := OnValue_valueListener (next_closure s) modelName id |}])
         (set_adapter (λ _, set_next_closure S (exec (_trackListener key "value") s)) w)
     else w).
Proof.
  intros key s. unfold _setupValueListener.
  erewrite bind_ok_w by (apply lift_run, notInFastBoot_run). rewrite set_adapter_id.
  fold s. destruct (outside_fastboot s); [| done]. cbn [andb].
  change (if truthy path then js_to_string path +:+ "/" +:+ id
          else _getParsedModelName modelName +:+ "/" +:+ id) with key.
  erewrite bind_ok_w by (apply lift_run, isListenerTracked_run). rewrite set_adapter_id.
  fold s. destruct (listener_tracked s key "value"); [done |]. cbn [negb].
  erewrite bind_ok_w by (apply lift_run, trackListener_run).
  reflexivity.
Qed.

(** X13. [_setupValueListener] attaches at most one listener per key, however
    often it runs: it attaches one when the adapter is outside FastBoot and
    the key is not tracked, a second run changes nothing, and every listener
    tracked before is still tracked. *)
Theorem setupValueListener_attaches_once
    (modelName id : string) (path : JsValue) (key' type' : string) (w : World) :
  let key := value_listener_key modelName id path in
  let w1 := exec_w (_setupValueListener modelName id path) w in
  list_listeners w1 = list_listeners w ++
    (if outside_fastboot (adapter w) && negb (listener_tracked (adapter w) key "value")
     then [{| ll_ref := _getFirebaseReference modelName id path; ll_event := Value;
              ll_callback := OnValue_valueListener (next_closure (adapter w)) modelName id |}]
     else [])
  ∧ exec_w (_setupValueListener modelName id path) w1 = w1
  ∧ (listener_tracked (adapter w) key' type' = true →
     listener_tracked (adapter w1) key' type' = true).
Proof.
  intros key w1. subst w1. unfold exec_w. rewrite !setupValueListener_run. fold key.
  cbn [snd].
  destruct (outside_fastboot (adapter w)) eqn:Hfb; cbn [andb];
    [| rewrite Hfb; cbn [andb]; by rewrite app_nil_r].
  destruct (listener_tracked (adapter w) key "value") eqn:Ht; cbn [negb];
    [rewrite Hfb, Ht; cbn; by rewrite app_nil_r |].
  destruct (trackListener_fields key "value" (adapter w)) as (Hf & _ & _ & _ & _ & Htr).
  split; [done |]. split.
  - cbn [adapter set_list_listeners set_adapter].
    change (listener_tracked (set_next_closure S ?s) key "value")
      with (listener_tracked s key "value").
    rewrite Htr. by rewrite andb_false_r.
  - intros Hk. cbn [adapter set_list_listeners set_adapter].
    change (listener_tracked (set_next_closure S ?s) key' type')
      with (listener_tracked s key' type').
    destruct (trackListener_merges key "value" key' type' (adapter w)) as [_ Hkeep].
    unfold listener_tracked in *.
    destruct (eval (_isListenerTracked key' type') (adapter w)) as [[|]|] eqn:He; try done.
    by rewrite (Hkeep eq_refl).
Qed.

(** X14. The two registries do not know each other: where
    [listenForRecordChanges] attaches its listener for a record at its
    default reference and the key of the record is not tracked for [value],
    [_setupValueListener] for the same record then attaches another
    [value] listener at that same reference. *)
Theorem value_listener_ignores_tracked_records
    (modelName id : string) (w : World) :
  let ref := buildFirebaseReference (buildPath modelName id None) in
  let w1 := exec_w (lift (listenForRecordChanges modelName id ref)) w in
  attaches_listener (adapter w) modelName id = true →
  listener_tracked (adapter w) (value_listener_key modelName id JUndefined) "value" = false →
  listeners (adapter w1) =
    listeners (adapter w) ++
      [{| l_ref := ref; l_event := Value;
          l_callback := OnValue_recordChanges (next_closure (adapter w)) modelName id |}]
  ∧ list_listeners (exec_w (_setupValueListener modelName id JUndefined) w1) =
      list_listeners w ++
        [{| ll_ref := ref; ll_event := Value;
            ll_callback := OnValue_valueListener (next_closure (adapter w1)) modelName id |}].
Proof.
  intros ref w1 Hatt Hkey.
  assert (Hfb : outside_fastboot (adapter w) = true).
  { revert Hatt. unfold attaches_listener, outside_fastboot, eval, isInFastBoot, notInFastBoot.
    mrun. by destruct (fastboot (adapter w)) as [[|]|]. }
  destruct (listenForRecordChanges_run modelName id ref (adapter w))
    as (s1 & Hrun & _ & _ & _ & Hl).
  rewrite Hatt in Hl.
  assert (Hw1 : w1 = set_adapter (λ _, s1) w).
  { subst w1. unfold exec_w. by erewrite lift_run by exact Hrun. }
  assert (Hs1 : s1 = exec (listenForRecordChanges modelName id ref) (adapter w)).
  { unfold exec. by rewrite Hrun. }
  clearbody w1. subst w1.
  split.
  - exact Hl.
  - unfold exec_w. rewrite setupValueListener_run.
    destruct (listenForRecordChanges_fields modelName id ref (adapter w)) as [Hf Htl].
    rewrite <- Hs1 in Hf, Htl.
    cbn [adapter set_adapter].
    rewrite (outside_fastboot_ext _ _ Hf), (listener_tracked_ext _ _ _ _ Htl), Hfb, Hkey.
    reflexivity.
Qed.
End ValueListener.

(** ** Finding all records *)

Section FindAll.
Context {env : Collaborators}.

(** What [_setupListListener] does to the world. *)
Lemma setupListListener_run (modelName : string) (w : World) :
  let path := camelize (pluralize modelName) in
  let s := adapter w in
  _setupListListener modelName w =
    (Ok tt,
     if outside_fastboot s && negb (listener_tracked s path "child_added") then
       set_list_listeners
         (λ ls, ls ++ [{| ll_ref := _getFirebaseReference modelName "" JUndefined;
                          ll_event := ChildAdded;
                          ll_callback := OnChildAdded_list (next_closure s) modelName |}])
         (set_adapter (λ _, set_next_closure S (exec (_trackListener path "child_added") s)) w)
     else w).
Proof.
  intros path s. unfold _setupListListener.
  erewrite bind_ok_w by (apply lift_run, notInFastBoot_run). rewrite set_adapter_id.
  fold s. destruct (outside_fastboot s); [| done]. cbn [andb].
  change (_getParsedModelName modelName) with path.
  erewrite bind_ok_w by (apply lift_run, isListenerTracked_run). rewrite set_adapter_id.
  fold s. destruct (listener_tracked s path "child_added"); [done |]. cbn [negb].
  erewrite bind_ok_w by (apply lift_run, trackListener_run).
  reflexivity.
Qed.

(** X15. [_setupListListener] attaches at most one [child_added] listener per
    model: one when the adapter is outside FastBoot and the collection is
    not tracked, and a second run changes nothing. *)
Theorem setupListListener_attaches_once (modelName : string) (w : World) :
  let path := camelize (pluralize modelName) in
  let w1 := exec_w (_setupListListener modelName) w in
  list_listeners w1 = list_listeners w ++
    (if outside_fastboot (adapter w) && negb (listener_tracked (adapter w) path "child_added")
     then [{| ll_ref := _getFirebaseReference modelName "" JUndefined; ll_event := ChildAdded;
              ll_callback := OnChildAdded_list (next_closure (adapter w)) modelName |}]
     else [])
  ∧ exec_w (_setupListListener modelName) w1 = w1.
Proof.
  intros path w1. subst w1. unfold exec_w. rewrite !setupListListener_run. fold path.
  cbn [snd].
  destruct (outside_fastboot (adapter w)) eqn:Hfb; cbn [andb];
    [| rewrite Hfb; cbn [andb]; by rewrite app_nil_r].
  destruct (listener_tracked (adapter w) path "child_added") eqn:Ht; cbn [negb];
    [rewrite Hfb, Ht; cbn; by rewrite app_nil_r |].
  destruct (trackListener_fields path "child_added" (adapter w)) as (Hf & _ & _ & _ & _ & Htr).
  split; [done |].
  cbn [adapter set_list_listeners set_adapter].
  change (listener_tracked (set_next_closure S ?s) path "child_added")
    with (listener_tracked s path "child_added").
  rewrite Htr. by rewrite andb_false_r.
Qed.

(** X16. When the node is missing, the [value] callbacks of [findAll] and of
    [queryRecord] reject the promise with "Record doesn't exist" and do
    nothing else: the listener stays attached, no record is fetched and no
    list listener is set up. *)
Theorem missing_node_rejects_and_keeps_listening
    (cb : ListCallback) (p : nat) (snapshot : DataSnapshot) (w : World) :
  (∃ modelName ref, cb = OnValue_findAll p modelName ref)
  ∨ (∃ modelName path query ref, cb = OnValue_queryRecord p modelName path query ref) →
  snap_exists snapshot = false →
  promises (adapter w) !! p = Some Pending →
  let w' := exec_w (run_list_callback cb snapshot) w in
  promises (adapter w') !! p = Some (Rejected {| message := "Record doesn't exist" |})
  ∧ list_listeners w' = list_listeners w
  ∧ list_joins w' = list_joins w
  ∧ reactions w' = reactions w
  ∧ listeners (adapter w') = listeners (adapter w)
  ∧ trackedListeners (adapter w') = trackedListeners (adapter w).
Proof.
  intros Hcb Hex Hpend w'. subst w'.
  assert (Hrun : run_list_callback cb snapshot =
                 lift (reject p {| message := "Record doesn't exist" |})).
  { destruct Hcb as [(m & ref & ->) | (m & path & q & ref & ->)];
      unfold run_list_callback; by rewrite Hex. }
  rewrite Hrun. unfold exec_w, lift, reject. mrun. simpl. rewrite Hpend.
  split; [| done]. apply list_lookup_insert_eq. by eapply lookup_lt_Some.
Qed.

(** X17. When the collection node exists, the [value] callback of [findAll]
    fetches every child at its default path, in order: one pending promise
    and one one-shot listener per child, and one join waiting for exactly
    those promises. *)
Theorem findAll_fetches_every_child
    (p : nat) (modelName : string) (ref : Reference) (snapshot : DataSnapshot) (w : World) :
  snap_exists snapshot = true →
  let keys := snap_children snapshot in
  let n := length (promises (adapter w)) in
  let w' := exec_w (run_list_callback (OnValue_findAll p modelName ref) snapshot) w in
  promises (adapter w') = promises (adapter w) ++ replicate (length keys) Pending
  ∧ listeners (adapter w') = listeners (adapter w) ++ fetch_listeners modelName None n keys
  ∧ list_joins w' = list_joins w ++
      [{| lj_promises := seq n (length keys); lj_p := p; lj_modelName := modelName;
          lj_ref := ref |}]
  ∧ list_listeners w' = list_listeners w.
Proof.
  intros Hex keys n w'. subst w' keys n. unfold run_list_callback. rewrite Hex.
  destruct (map_m_findRecord modelName None (snap_children snapshot) (adapter w))
    as (s1 & Hrun & Hp & Hl & _).
  unfold exec_w. erewrite bind_ok_w by (apply lift_run; exact Hrun). by cbn.
Qed.

(** X18. When every fetched record is there, [findAll] sets up the list
    listener, detaches every [value] callback that [off] reaches from the
    collection reference (those at its location whatever their query, as the
    reference has no query operators; its own and those of [query] and
    [queryRecord] for the model alike) and resolves with the records, in
    the order of the children. *)
Theorem findAll_completes
    (i : nat) (j : ListJoin) (records : list JsObject) (w : World) :
  list_joins w !! i = Some j →
  promises (adapter w) !! lj_p j = Some Pending →
  Forall2 (λ p r, promises (adapter w) !! p = Some (Fulfilled (RecordPayload r)))
    (lj_promises j) records →
  let s := adapter w in
  let path := camelize (pluralize (lj_modelName j)) in
  let attached :=
    if outside_fastboot s && negb (listener_tracked s path "child_added")
    then [{| ll_ref := _getFirebaseReference (lj_modelName j) "" JUndefined;
             ll_event := ChildAdded;
             ll_callback := OnChildAdded_list (next_closure s) (lj_modelName j) |}]
    else [] in
  let w' := exec_w (rsvp_all_list i) w in
  promises (adapter w') !! lj_p j = Some (Fulfilled (RecordsPayload records))
  ∧ list_listeners w' =
      List.filter (λ l, negb (reached_by_off (lj_ref j) (ll_ref l) &&
                              bool_decide (ll_event l = Value)))
        (list_listeners w) ++ attached
  ∧ listeners (adapter w') =
      List.filter (λ l, negb (reached_by_off (lj_ref j) (l_ref l) &&
                              bool_decide (l_event l = Value)))
        (listeners s)
  ∧ list_joins w' = delete i (list_joins w).
Proof.
  intros Hj Hpend HF s path attached w'.
  destruct (mapM_fulfilled s _ _ HF) as [Hom HmapM].
  set (w0 := set_list_joins (delete i) w).
  pose proof (setupListListener_run (lj_modelName j) w0) as Hsetup.
  cbn zeta in Hsetup. change (adapter w0) with s in Hsetup. fold path in Hsetup.
  destruct (trackListener_fields path "child_added" s) as (_ & _ & Hl & Hp & _ & _).
  set (s1 := exec (_trackListener path "child_added") s) in *. clearbody s1.
  assert (Hw' : w' = exec_w (findAll_then j records) w0).
  { subst w'. unfold rsvp_all_list, exec_w at 1.
    unfold mbind at 1, W_bind, get_world. cbn beta iota.
    fold s. rewrite Hj, Hom, HmapM.
    unfold mbind, W_bind, modify_world, try_catch_w. fold w0.
    unfold exec_w, findAll_then.
    erewrite bind_ok_w by exact Hsetup.
    unfold off_all, lift, resolve, modify_world. by mrun. }
  clearbody w'. subst w'. unfold exec_w, findAll_then.
  erewrite bind_ok_w by exact Hsetup.
  unfold off_all, lift, resolve, modify_world. mrun.
  subst attached. subst s.
  destruct (outside_fastboot (adapter w) && negb (listener_tracked (adapter w) path "child_added"));
    cbn; rewrite ?Hp, ?Hl, Hpend; rewrite ?List.filter_app, ?app_nil_r;
    (split; [apply list_lookup_insert_eq; by eapply lookup_lt_Some |]); [| done].
  split; [| done]. f_equal. cbn.
  rewrite (bool_decide_eq_false_2 (ChildAdded = Value)) by done.
  by rewrite andb_false_r.
Qed.

(** X19. When a fetched record fails, [findAll] rejects with the failure of
    such a record, prefixed by [Error: ], and stops there: no list listener
    is set up, and the [value] listener at the collection stays attached. *)
Theorem findAll_fails_fast
    (i : nat) (j : ListJoin) (p' : nat) (e' : Error) (w : World) :
  list_joins w !! i = Some j →
  promises (adapter w) !! lj_p j = Some Pending →
  In p' (lj_promises j) →
  promises (adapter w) !! p' = Some (Rejected e') →
  let w' := exec_w (rsvp_all_list i) w in
  (∃ p e, In p (lj_promises j) ∧ promises (adapter w) !! p = Some (Rejected e)
          ∧ promises (adapter w') !! lj_p j =
              Some (Rejected {| message := "Error: " +:+ message e |}))
  ∧ list_listeners w' = list_listeners w
  ∧ listeners (adapter w') = listeners (adapter w)
  ∧ trackedListeners (adapter w') = trackedListeners (adapter w)
  ∧ list_joins w' = delete i (list_joins w).
Proof.
  intros Hj Hpend Hin Hrej w'.
  destruct (omap (rejection (adapter w)) (lj_promises j)) as [|e rest] eqn:Hom.
  { by destruct (omap_rejection_nonempty (adapter w) (lj_promises j) p' e' Hin Hrej). }
  destruct (omap_rejection_In (adapter w) (lj_promises j) e) as (p & Hp & He).
  { rewrite Hom. by left. }
  assert (Hw' : w' = exec_w (guarded_w (findAll_catch j ("Error: " +:+ message e)))
                       (set_list_joins (delete i) w)).
  { subst w'. unfold rsvp_all_list, exec_w at 1.
    unfold mbind at 1, W_bind, get_world. cbn beta iota. by rewrite Hj, Hom. }
  clearbody w'. subst w'.
  unfold exec_w, findAll_catch, guarded_w, lift, reject, modify_world. mrun. simpl.
  rewrite Hpend.
  split; [| done]. exists p, e. split; [done |]. split; [done |].
  apply list_lookup_insert_eq. by eapply lookup_lt_Some.
Qed.
End FindAll.

(** ** Querying for one record *)

Lemma objects_only_refl (s : State) : objects_only s s.
Proof. exists id. by destruct s. Qed.

Lemma objects_only_trans (s1 s2 s3 : State) :
  objects_only s1 s2 → objects_only s2 s3 → objects_only s1 s3.
Proof. intros [f ->] [g ->]. by exists (g ∘ f). Qed.

Lemma objects_only_set (f : gmap nat JsObject → gmap nat JsObject) (s : State) :
  objects_only s (set_objects f s).
Proof. by exists f. Qed.

(** [_setupQuerySortingAndFiltering] writes to the descriptor and to nothing
    else. *)
Lemma setupQuerySortingAndFiltering_objects_only
    (ref : Reference) (q : nat) (force : bool) (s : State) (o : JsObject) :
  objects s !! q = Some o →
  let o1 := with_default_orderBy o in
  let o2 := if force then <[spec_forced_limit o := JNum 1]> o1 else o1 in
  ∃ s', _setupQuerySortingAndFiltering ref q force s =
          (Ok (foldl (filter_step o2)
                 (apply_ordering (default (JStr "id") (o !! "orderBy")) ref)
                 ["startAt"; "endAt"; "equalTo"; "limitToFirst"; "limitToLast"]), s')
        ∧ objects s' !! q = Some o2
        ∧ objects_only s s'.
Proof.
  intros Hq o1 o2. unfold _setupQuerySortingAndFiltering.
  erewrite bind_ok by (by apply hasOwnProperty_run).
  assert (∃ s1, objects s1 !! q = Some o1 ∧ objects_only s s1 ∧
            (if negb (bool_decide (is_Some (o !! "orderBy")))
             then set_property q "orderBy" (JStr "id") else mret tt) s = (Ok tt, s1))
    as (s1 & Hq1 & Ho1 & Hs1).
  { subst o1. unfold with_default_orderBy. destruct (o !! "orderBy") eqn:Hob; simpl.
    - exists s. split; [done |]. split; [apply objects_only_refl | done].
    - eexists. split; [| split; [| by apply set_property_run]];
        [simpl; by rewrite lookup_insert_eq | apply objects_only_set]. }
  erewrite bind_ok by exact Hs1.
  erewrite bind_ok by (by apply get_property_run).
  assert (Hob : default JUndefined (o1 !! "orderBy") = default (JStr "id") (o !! "orderBy")).
  { subst o1. unfold with_default_orderBy. destruct (o !! "orderBy") eqn:Hob; simpl.
    - by rewrite Hob.
    - by rewrite lookup_insert_eq. }
  rewrite Hob.
  assert (∃ s2, objects s2 !! q = Some o2 ∧ objects_only s1 s2 ∧
            (if force then
               hasLimitToFirst ← hasOwnProperty q "limitToFirst";
               hasLimitToLast ← hasOwnProperty q "limitToLast";
               if hasLimitToFirst || hasLimitToLast then
                 if hasLimitToFirst then set_property q "limitToFirst" (JNum 1)
                 else set_property q "limitToLast" (JNum 1)
               else set_property q "limitToFirst" (JNum 1)
             else mret tt) s1 = (Ok tt, s2)) as (s2 & Hq2 & Ho2 & Hs2).
  { subst o2. destruct force.
    2:{ exists s1. split; [done |]. split; [apply objects_only_refl | done]. }
    assert (HF : o1 !! "limitToFirst" = o !! "limitToFirst").
    { subst o1. unfold with_default_orderBy. destruct (o !! "orderBy"); [done |].
      by rewrite lookup_insert_ne. }
    assert (HL : o1 !! "limitToLast" = o !! "limitToLast").
    { subst o1. unfold with_default_orderBy. destruct (o !! "orderBy"); [done |].
      by rewrite lookup_insert_ne. }
    erewrite bind_ok by (by apply hasOwnProperty_run).
    erewrite bind_ok by (by apply hasOwnProperty_run).
    rewrite HF, HL. unfold spec_forced_limit.
    destruct (o !! "limitToFirst"), (o !! "limitToLast"); simpl;
      (eexists; split; [| split; [| by apply set_property_run]]);
      first [apply objects_only_set | simpl; by rewrite lookup_insert_eq]. }
  erewrite bind_ok by exact Hs2.
  exists s2. split; [by apply apply_filters_run |]. split; [done |].
  by eapply objects_only_trans.
Qed.

Section QueryRecord.
Context {env : Collaborators}.

(** X20. [queryRecord] returns a pending promise and attaches one [value]
    listener, at the reference of the query path (or of the model) sorted
    and filtered by the descriptor with one limit forced to 1; the forced
    limit and the [orderBy] default are written into the caller's
    descriptor, and no record listener is attached yet. *)
Theorem queryRecord_listens_for_one_record
    (modelName : string) (q : nat) (o : JsObject) (w : World) :
  objects (adapter w) !! q = Some o →
  let s := adapter w in
  let p := length (promises s) in
  let path := default JUndefined (o !! "path") in
  let o' := <[spec_forced_limit o := JNum 1]> (with_default_orderBy o) in
  let ref := foldl (filter_step o')
               (apply_ordering (default (JStr "id") (o !! "orderBy"))
                  (_getFirebaseReference modelName "" path))
               ["startAt"; "endAt"; "equalTo"; "limitToFirst"; "limitToLast"] in
  let w' := exec_w (queryRecord modelName q) w in
  eval_w (queryRecord modelName q) w = Ok p
  ∧ promises (adapter w') = promises s ++ [Pending]
  ∧ objects (adapter w') !! q = Some o'
  ∧ list_listeners w' = list_listeners w ++
      [{| ll_ref := ref; ll_event := Value;
          ll_callback := OnValue_queryRecord p modelName path q ref |}]
  ∧ listeners (adapter w') = listeners s
  ∧ reactions w' = reactions w.
Proof.
  intros Hq s p path o' ref w'.
  set (s0 := set_promises (λ ps, ps ++ [Pending]) s).
  assert (Hq0 : objects s0 !! q = Some o) by done.
  destruct (setupQuerySortingAndFiltering_objects_only
              (_getFirebaseReference modelName "" path) q true s0 o Hq0)
    as (s1 & Hrun & Hq1 & [f ->]).
  assert (Hall : queryRecord modelName q w =
    (Ok p, set_list_listeners
             (λ ls, ls ++ [{| ll_ref := ref; ll_event := Value;
                              ll_callback := OnValue_queryRecord p modelName path q ref |}])
             (set_adapter (λ _, set_objects f s0) w))).
  { unfold queryRecord, new_Promise_w.
    erewrite bind_ok_w by (apply lift_run; reflexivity).
    change (exec new_promise (adapter w)) with s0.
    unfold try_catch_w.
    unfold mbind at 1, W_bind.
    erewrite bind_ok_w by (apply lift_run; by apply get_property_run).
    cbn [adapter set_adapter].
    erewrite bind_ok_w.
    2:{ apply lift_run. cbn [adapter set_adapter]. exact Hrun. }
    reflexivity. }
  subst w'. unfold eval_w, exec_w. rewrite Hall. cbn. done.
Qed.

(** The loop over the children in the [value] callback of [queryRecord]. *)
Lemma queryRecord_for_each
    (p : nat) (modelName : string) (path : JsValue) (q : nat) (ref : Reference)
    (cb : ListCallback) (o : JsObject) (keys : list string) (w : World) :
  objects (adapter w) !! q = Some o →
  let ao := if truthy path && negb (truthy (default JUndefined (o !! "isReference")))
            then Some {| ao_include := None; ao_path := Some path |} else None in
  let n := length (promises (adapter w)) in
  let w' := exec_w (for_each_w keys (λ key,
      isReference ← lift (get_property q "isReference");
      let adapterOptions :=
        if truthy path && negb (truthy isReference)
        then Some {| ao_include := None; ao_path := Some path |}
        else None in
      promise ← lift (findRecord modelName key adapterOptions);
      modify_world (set_reactions (λ rs, rs ++ [{| r_promise := promise; r_p := p;
                                                   r_onValue := cb; r_ref := ref |}])))) w in
  promises (adapter w') = promises (adapter w) ++ replicate (length keys) Pending
  ∧ listeners (adapter w') = listeners (adapter w) ++ fetch_listeners modelName ao n keys
  ∧ reactions w' = reactions w ++ fetch_reactions p cb ref n (length keys)
  ∧ list_listeners w' = list_listeners w
  ∧ list_joins w' = list_joins w
  ∧ trackedListeners (adapter w') = trackedListeners (adapter w)
  ∧ trackedRecords (adapter w') = trackedRecords (adapter w).
Proof.
  intros Hq ao. revert w Hq. induction keys as [|key keys IH]; intros w Hq n w'.
  - subst w'. cbn. by rewrite !app_nil_r.
  - subst w'. unfold exec_w. cbn [for_each_w].
    erewrite bind_ok_w.
    2:{ erewrite bind_ok_w by (apply lift_run; by apply get_property_run).
        rewrite set_adapter_id. fold ao.
        erewrite bind_ok_w by (apply lift_run; apply findRecord_run).
        reflexivity. }
    set (w1 := set_reactions _ _).
    assert (Hq1 : objects (adapter w1) !! q = Some o) by done.
    assert (Hlen : length (promises (adapter w1)) = S n).
    { subst w1. cbn. rewrite length_app. cbn. subst n. lia. }
    specialize (IH w1 Hq1). cbv zeta in IH. unfold exec_w in IH. rewrite Hlen in IH.
    destruct IH as (Hp & Hl & Hr & Hll & Hlj & Htl & Htr).
    rewrite Hp, Hl, Hr, Hll, Hlj, Htl, Htr. subst w1. cbn.
    rewrite <- !app_assoc. done.
Qed.

(** X21. When the queried node exists, the [value] callback of [queryRecord]
    fetches every child, from the query path when the descriptor has a
    truthy [path] and a falsy [isReference], from the model's own path
    otherwise, and registers one reaction per fetched record. *)
Theorem queryRecord_fetches_from_the_query_path
    (p : nat) (modelName : string) (path : JsValue) (q : nat) (ref : Reference)
    (snapshot : DataSnapshot) (o : JsObject) (w : World) :
  objects (adapter w) !! q = Some o →
  snap_exists snapshot = true →
  let cb := OnValue_queryRecord p modelName path q ref in
  let ao := if truthy path && negb (truthy (default JUndefined (o !! "isReference")))
            then Some {| ao_include := None; ao_path := Some path |} else None in
  let n := length (promises (adapter w)) in
  let keys := snap_children snapshot in
  let w' := exec_w (run_list_callback cb snapshot) w in
  promises (adapter w') = promises (adapter w) ++ replicate (length keys) Pending
  ∧ listeners (adapter w') = listeners (adapter w) ++ fetch_listeners modelName ao n keys
  ∧ reactions w' = reactions w ++ fetch_reactions p cb ref n (length keys)
  ∧ list_listeners w' = list_listeners w.
Proof.
  intros Hq Hex cb ao n keys w'. subst w'. unfold cb at 1, run_list_callback. rewrite Hex.
  destruct (queryRecord_for_each p modelName path q ref cb o keys w Hq)
    as (Hp & Hl & Hr & Hll & _).
  done.
Qed.

(** X22. Once the fetched record is there, [queryRecord] detaches its [value]
    callback, and only that one, and resolves with the record. *)
Theorem queryRecord_completes
    (i : nat) (r : Reaction) (record : JsObject) (w : World) :
  reactions w !! i = Some r →
  promises (adapter w) !! r_promise r = Some (Fulfilled (RecordPayload record)) →
  promises (adapter w) !! r_p r = Some Pending →
  let w' := exec_w (rsvp_then i) w in
  promises (adapter w') !! r_p r = Some (Fulfilled (RecordPayload record))
  ∧ list_listeners w' =
      List.filter (λ l, negb (list_listener_matches (r_ref r) Value (Some (r_onValue r)) l))
        (list_listeners w)
  ∧ listeners (adapter w') = listeners (adapter w)
  ∧ reactions w' = delete i (reactions w).
Proof.
  intros Hr Hful Hpend w'.
  assert (Hw' : w' = exec_w (queryRecord_then r record) (set_reactions (delete i) w)).
  { subst w'. unfold rsvp_then, exec_w at 1.
    unfold mbind at 1, W_bind, get_world. cbn beta iota. by rewrite Hr, Hful. }
  clearbody w'. subst w'.
  unfold exec_w, queryRecord_then, list_off, lift, resolve, modify_world. mrun. simpl.
  rewrite Hpend. split; [| done].
  apply list_lookup_insert_eq. by eapply lookup_lt_Some.
Qed.

(** X23. When the fetched record fails, [queryRecord] rejects with that failure
    and keeps its [value] listener attached. *)
Theorem queryRecord_fails_and_keeps_listening
    (i : nat) (r : Reaction) (e : Error) (w : World) :
  reactions w !! i = Some r →
  promises (adapter w) !! r_promise r = Some (Rejected e) →
  promises (adapter w) !! r_p r = Some Pending →
  let w' := exec_w (rsvp_then i) w in
  promises (adapter w') !! r_p r = Some (Rejected {| message := "Error: " +:+ message e |})
  ∧ list_listeners w' = list_listeners w
  ∧ listeners (adapter w') = listeners (adapter w)
  ∧ reactions w' = delete i (reactions w).
Proof.
  intros Hr Hrej Hpend w'.
  assert (Hw' : w' = exec_w (guarded_w (queryRecord_catch r ("Error: " +:+ message e)))
                       (set_reactions (delete i) w)).
  { subst w'. unfold rsvp_then, exec_w at 1.
    unfold mbind at 1, W_bind, get_world. cbn beta iota. by rewrite Hr, Hrej. }
  clearbody w'. subst w'.
  unfold exec_w, guarded_w, queryRecord_catch, lift, reject, modify_world. mrun. simpl.
  rewrite Hpend. split; [| done].
  apply list_lookup_insert_eq. by eapply lookup_lt_Some.
Qed.
End QueryRecord.

(** ** Instances *)

(** In FastBoot, fetching post [a] tracks nothing and leaves no listener
    but one-shot ones. *)
Lemma fastboot_attaches_only_one_shot_listeners_witness :
  let s := init (Some true) ∅ ∅ in
  let s' := run (env := example_env) (fetch "a") s in
  fastboot s = Some true
  ∧ trackedRecords s' = ∅
  ∧ ∀ l, In l (listeners s') → one_shot (l_callback l) = true.
Proof.
  intros s s'.
  destruct (fastboot_attaches_only_one_shot_listeners (env := example_env) (fetch "a") s eq_refl)
    as (Hr & _ & Hl).
  split; [reflexivity |]. split; [exact Hr |].
  intros l Hin. destruct (Hl l Hin) as [[] | H]; exact H.
Defined.

(** Deleting post [a] at the path [feeds/u1]. *)
Lemma deleteRecord_tombstones_the_record_path_witness :
  let ao := {| ao_include := None; ao_path := Some (JStr "feeds/u1") |} in
  trace (exec (deleteRecord (env := example_env) "post"
                 {| rs_id := "a"; rs_adapterOptions := Some ao |}) (init None ∅ ∅)) =
    [FbUpdate {[ "feeds/u1/a" := JNull ]} (Done_deleteRecord 0)].
Proof.
  intros ao.
  rewrite (deleteRecord_tombstones_the_record_path (env := example_env) "post" "a" ao
             (init None ∅ ∅)).
  - reflexivity.
  - intros v [= <-]. reflexivity.
Defined.

(** Deleting post [a] at the empty path. *)
Lemma deleteRecord_keeps_a_falsy_path_witness :
  let ao := {| ao_include := None; ao_path := Some (JStr "") |} in
  trace (exec (deleteRecord (env := example_env) "post"
                 {| rs_id := "a"; rs_adapterOptions := Some ao |}) (init None ∅ ∅)) =
    [FbUpdate {[ "/a" := JNull ]} (Done_deleteRecord 0)]
  ∧ buildPath (env := example_env) "post" "a" (Some ao) = "posts/a".
Proof.
  intros ao.
  destruct (deleteRecord_keeps_a_falsy_path (env := example_env) "post" "a" None (JStr "")
              (init None ∅ ∅) eq_refl) as [Ht Hb].
  split; [exact Ht | exact Hb].
Defined.

(** Updating post [a] from a fresh adapter, and the write succeeds. *)
Lemma updateRecord_completion_witness :
  let snapshot := {| rs_id := "a"; rs_adapterOptions := None |} in
  let s := exec (updateRecord (env := example_env) "post" snapshot) (init None ∅ ∅) in
  let succeeded :=
    exec (run_update_callback (env := example_env) (Done_updateRecord 0 "post" snapshot) None) s in
  promises s !! 0 = Some Pending
  ∧ promises succeeded !! 0 = Some (Fulfilled NoValue)
  ∧ listeners succeeded =
      [{| l_ref := post_ref "a"; l_event := Value;
          l_callback := OnValue_recordChanges 0 "post" "a" |}].
Proof.
  intros snapshot s succeeded.
  assert (Hpend : promises s !! 0 = Some Pending) by reflexivity.
  destruct (updateRecord_completion (env := example_env) 0 "post" snapshot "" s Hpend)
    as (_ & Hsucceeded & _).
  destruct (Hsucceeded eq_refl) as [Hful Hl].
  split; [exact Hpend |]. split; [exact Hful | exact Hl].
Defined.

(** Post [a] is updated and then fetched: the fetch leaves the one listener
    of the update. *)
Lemma update_then_find_attaches_no_listener_witness :
  let snapshot := {| rs_id := "a"; rs_adapterOptions := None |} in
  let s := exec (findRecord (env := example_env) "post" "a" None)
             (exec (updateRecord (env := example_env) "post" snapshot) (init None ∅ ∅)) in
  let s1 := exec (run_update_callback (env := example_env)
                    (Done_updateRecord 0 "post" snapshot) None) s in
  let l := {| l_ref := post_ref "a"; l_event := Value;
              l_callback := OnValue_findRecord 1 "post" "a" (post_ref "a") |} in
  let found := snapshot_at (post_ref "a") "a" (NodeObject ∅) in
  listeners (exec (deliver (env := example_env) found l) s1) =
    [{| l_ref := post_ref "a"; l_event := Value;
        l_callback := OnValue_recordChanges 0 "post" "a" |}].
Proof.
  intros snapshot s s1 l found.
  etrans; [exact (update_then_find_attaches_no_listener (env := example_env) 0 1 "post"
                    snapshot s s1 (post_ref "a") found ∅ eq_refl eq_refl eq_refl eq_refl
                    eq_refl eq_refl) |].
  reflexivity.
Defined.

(** A descriptor that asks for the last five records from key [k] on. *)
Lemma filters_are_applied_in_a_fixed_order_witness :
  let o : JsObject := <[ "startAt" := JStr "k" ]> {[ "limitToLast" := JNum 5 ]} in
  let s := init None {[ 0 := o ]} ∅ in
  ∃ ref', eval (_setupQuerySortingAndFiltering posts_ref 0 false) s = Ok ref'
    ∧ ref_query ref' = [OrderByKey; StartAt (JStr "k"); LimitToLast (JNum 5)].
Proof.
  intros o s.
  destruct (filters_are_applied_in_a_fixed_order posts_ref 0 false s o eq_refl)
    as (ref' & He & _ & Hq).
  exists ref'. split; [exact He | exact Hq].
Defined.

(** A query whose one record is missing. *)
Lemma query_fails_fast_witness :
  let s := query_fetched ∅ NodeAbsent in
  let s' := exec (rsvp_all 0) s in
  (∃ e, promises s' !! 0 = Some (Rejected e)) ∧ listeners s' = listeners s.
Proof.
  intros s s'.
  destruct (query_fails_fast 0 _ 1 _ s eq_refl eq_refl
              (or_introl eq_refl) eq_refl) as ((p & e & _ & _ & Hrej) & Hl & _).
  split; [eexists; exact Hrej | exact Hl].
Defined.

(** A query without [cacheId] whose one record is there. *)
Lemma uncached_query_resolves_and_is_not_live_witness :
  let s := query_fetched ∅ (NodeObject ∅) in
  let s' := exec (rsvp_all 0) s in
  promises s' !! 0 = Some (Fulfilled (RecordsPayload [post_a]))
  ∧ trackedQueries s' = ∅
  ∧ listeners s' = [{| l_ref := post_ref "a"; l_event := Value;
                       l_callback := OnValue_recordChanges 0 "post" "a" |}].
Proof.
  intros s s'.
  unshelve epose proof (uncached_query_resolves_and_is_not_live 0 _ [post_a]
              {[ "orderBy" := JStr "id" ]} s eq_refl eq_refl _ eq_refl eq_refl)
    as (Hful & Hl & Hq & _); [constructor; [reflexivity | constructor] |].
  split; [exact Hful |]. split; [exact Hq | exact Hl].
Defined.

(** A query with the [cacheId] [c] whose one record is there. *)
Lemma cached_query_becomes_live_witness :
  let s := query_fetched cached_descriptor (NodeObject ∅) in
  let s' := exec (rsvp_all 0) s in
  promises s' !! 0 = Some (Fulfilled (RecordsPayload [post_a]))
  ∧ trackedQueries s' = {[ "c" := 10 ]}.
Proof.
  intros s s'.
  assert (Hplain : js_to_string (JStr "c") ∉ object_prototype_members)
    by (refine (bool_decide_unpack _ _); by vm_compute).
  unshelve epose proof (cached_query_becomes_live 0 _ [post_a]
              (<[ "orderBy" := JStr "id" ]> cached_descriptor) (JStr "c") empty_array s
              eq_refl eq_refl _ eq_refl eq_refl eq_refl eq_refl Hplain eq_refl)
    as (Hful & _ & Hq & _); [constructor; [reflexivity | constructor] |].
  split; [exact Hful | exact Hq].
Defined.

(** A query with the [cacheId] [constructor] whose one record is there. *)
Lemma cached_query_under_a_prototype_name_is_rejected_witness :
  let s := query_fetched {[ "cacheId" := JStr "constructor" ]} (NodeObject ∅) in
  let s' := exec (rsvp_all 0) s in
  (∃ e, promises s' !! 0 = Some (Rejected e))
  ∧ trackedQueries s' = ∅
  ∧ length (listeners s') = length (listeners s) + 2.
Proof.
  intros s s'.
  assert (Hin : js_to_string (JStr "constructor") ∈ object_prototype_members)
    by (refine (bool_decide_unpack _ _); by vm_compute).
  unshelve epose proof (cached_query_under_a_prototype_name_is_rejected 0 _ [post_a]
              (<[ "orderBy" := JStr "id" ]> {[ "cacheId" := JStr "constructor" ]})
              (JStr "constructor") empty_array s
              eq_refl eq_refl _ eq_refl eq_refl eq_refl eq_refl Hin eq_refl)
    as (Hrej & Hl & Hq & _); [constructor; [reflexivity | constructor] |].
  split; [exact Hrej |]. split; [exact Hq |].
  fold s' in Hl. rewrite Hl. by rewrite length_app.
Defined.

(** Post [a] is listened to by [listenForRecordChanges] and then by
    [_setupValueListener]. *)
Lemma value_listener_ignores_tracked_records_witness :
  let w := world_of (init None ∅ ∅) in
  let w1 := exec_w (lift (listenForRecordChanges "post" "a" (post_ref "a"))) w in
  listeners (adapter w1) =
    [{| l_ref := post_ref "a"; l_event := Value;
        l_callback := OnValue_recordChanges 0 "post" "a" |}]
  ∧ list_listeners (exec_w (_setupValueListener (env := example_env) "post" "a" JUndefined) w1) =
      [{| ll_ref := post_ref "a"; ll_event := Value;
          ll_callback := OnValue_valueListener 1 "post" "a" |}].
Proof.
  intros w w1.
  destruct (value_listener_ignores_tracked_records (env := example_env) "post" "a" w
              eq_refl eq_refl) as [Hr Hl].
  split; [exact Hr | exact Hl].
Defined.

(** [findAll] for posts when the collection is missing. *)
Lemma missing_node_rejects_and_keeps_listening_witness :
  let w := exec_w (findAll (env := example_env) "post") (world_of (init None ∅ ∅)) in
  let cb := OnValue_findAll 0 "post" posts_ref in
  let w' := exec_w (run_list_callback (env := example_env) cb
                      (snapshot_at posts_ref "posts" NodeAbsent)) w in
  list_listeners w = [{| ll_ref := posts_ref; ll_event := Value; ll_callback := cb |}]
  ∧ promises (adapter w') !! 0 = Some (Rejected {| message := "Record doesn't exist" |})
  ∧ list_listeners w' = list_listeners w.
Proof.
  intros w cb w'.
  destruct (missing_node_rejects_and_keeps_listening (env := example_env) cb 0
              (snapshot_at posts_ref "posts" NodeAbsent) w
              (or_introl (ex_intro _ "post" (ex_intro _ posts_ref eq_refl))) eq_refl eq_refl)
    as (Hrej & Hl & _).
  split; [reflexivity |]. split; [exact Hrej | exact Hl].
Defined.

(** [findAll] for posts when the collection holds the one post [a]. *)
Lemma findAll_fetches_every_child_witness :
  let w := exec_w (findAll (env := example_env) "post") (world_of (init None ∅ ∅)) in
  let w' := exec_w (run_list_callback (env := example_env) (OnValue_findAll 0 "post" posts_ref)
                      (snapshot_with_child posts_ref)) w in
  promises (adapter w') = [Pending; Pending]
  ∧ listeners (adapter w') =
      [{| l_ref := post_ref "a"; l_event := Value;
          l_callback := OnValue_findRecord 1 "post" "a" (post_ref "a") |}]
  ∧ list_joins w' =
      [{| lj_promises := [1]; lj_p := 0; lj_modelName := "post"; lj_ref := posts_ref |}].
Proof.
  intros w w'.
  destruct (findAll_fetches_every_child (env := example_env) 0 "post" posts_ref
              (snapshot_with_child posts_ref) w eq_refl) as (Hp & Hl & Hj & _).
  split; [exact Hp |]. split; [exact Hl | exact Hj].
Defined.

(** [findAll] for posts once its one post [a] is there. *)
Lemma findAll_completes_witness :
  let w := findAll_fetched (NodeObject ∅) in
  let w' := exec_w (rsvp_all_list (env := example_env) 0) w in
  promises (adapter w') !! 0 = Some (Fulfilled (RecordsPayload [post_a]))
  ∧ list_listeners w' =
      [{| ll_ref := posts_ref; ll_event := ChildAdded;
          ll_callback := OnChildAdded_list 1 "post" |}].
Proof.
  intros w w'.
  unshelve epose proof (findAll_completes (env := example_env) 0 _ [post_a] w
                          eq_refl eq_refl _) as (Hful & Hl & _);
    [constructor; [reflexivity | constructor] |].
  split; [exact Hful | exact Hl].
Defined.

(** [findAll] for posts once its one post [a] turned out to be missing. *)
Lemma findAll_fails_fast_witness :
  let w := findAll_fetched NodeAbsent in
  let w' := exec_w (rsvp_all_list (env := example_env) 0) w in
  (∃ e, promises (adapter w') !! 0 = Some (Rejected e))
  ∧ list_listeners w' = list_listeners w.
Proof.
  intros w w'.
  destruct (findAll_fails_fast (env := example_env) 0 _ 1 _ w eq_refl eq_refl
              (or_introl eq_refl) eq_refl) as ((p & e & _ & _ & Hrej) & Hl & _).
  split; [eexists; exact Hrej | exact Hl].
Defined.

(** [queryRecord] for posts with an empty descriptor. *)
Lemma queryRecord_listens_for_one_record_witness :
  let w := world_of (init None {[ 0 := ∅ ]} ∅) in
  let w' := exec_w (queryRecord (env := example_env) "post" 0) w in
  eval_w (queryRecord (env := example_env) "post" 0) w = Ok 0
  ∧ objects (adapter w') !! 0 =
      Some (<[ "limitToFirst" := JNum 1 ]> {[ "orderBy" := JStr "id" ]})
  ∧ list_listeners w' =
      [{| ll_ref := one_post_ref; ll_event := Value;
          ll_callback := OnValue_queryRecord 0 "post" JUndefined 0 one_post_ref |}].
Proof.
  intros w w'.
  destruct (queryRecord_listens_for_one_record (env := example_env) "post" 0 ∅ w eq_refl)
    as (He & _ & Ho & Hl & _).
  split; [exact He |]. split; [exact Ho | exact Hl].
Defined.

(** [queryRecord] for posts under the path [feeds/u1], when the queried
    node holds the one post [a]. *)
Lemma queryRecord_fetches_from_the_query_path_witness :
  let w := exec_w (queryRecord (env := example_env) "post" 0)
             (world_of (init None {[ 0 := {[ "path" := JStr "feeds/u1" ]} ]} ∅)) in
  let ref := buildFirebaseReference (env := example_env) "feeds/u1/a" in
  let w' := exec_w (run_list_callback (env := example_env)
                      (OnValue_queryRecord 0 "post" (JStr "feeds/u1") 0 one_post_ref)
                      (snapshot_with_child one_post_ref)) w in
  listeners (adapter w') =
    [{| l_ref := ref; l_event := Value; l_callback := OnValue_findRecord 1 "post" "a" ref |}].
Proof.
  intros w ref w'.
  destruct (queryRecord_fetches_from_the_query_path (env := example_env) 0 "post"
              (JStr "feeds/u1") 0 one_post_ref (snapshot_with_child one_post_ref)
              (<[ "limitToFirst" := JNum 1 ]>
                 (<[ "orderBy" := JStr "id" ]> {[ "path" := JStr "feeds/u1" ]}))
              w eq_refl eq_refl) as (_ & Hl & _).
  exact Hl.
Defined.

(** [queryRecord] for posts once its one post [a] is there. *)
Lemma queryRecord_completes_witness :
  let w := queryRecord_fetched (NodeObject ∅) in
  let w' := exec_w (rsvp_then 0) w in
  promises (adapter w') !! 0 = Some (Fulfilled (RecordPayload post_a))
  ∧ list_listeners w' = [].
Proof.
  intros w w'.
  destruct (queryRecord_completes 0 _ post_a w eq_refl eq_refl eq_refl)
    as (Hful & Hl & _).
  split; [exact Hful | exact Hl].
Defined.

(** [queryRecord] for posts once its one post [a] turned out to be
    missing. *)
Lemma queryRecord_fails_and_keeps_listening_witness :
  let w := queryRecord_fetched NodeAbsent in
  let w' := exec_w (rsvp_then 0) w in
  promises (adapter w') !! 0 =
    Some (Rejected {| message := "Error: Record a for type post not found" |})
  ∧ list_listeners w' = list_listeners w.
Proof.
  intros w w'.
  destruct (queryRecord_fails_and_keeps_listening 0 _ _ w
              eq_refl eq_refl eq_refl) as (Hrej & Hl & _).
  split; [exact Hrej | exact Hl].
Defined.
